(** * KV Cache C++ Packer: dependency resolution and build orchestration

    A shallow embedding of [pack.py] (class [Builder] and [main]) together
    with the properties of the build pipeline that its specification states.

    Conventions of the embedding.
    - A Python [str] is a [string]; a character is a code point below 256.
    - A Python [dict] whose iteration order matters (the registry [PACKS],
      [build_results]) is an association list in insertion order; a [dict]
      never holds a key twice, which is the hypothesis [dict_wf].
    - A Python [set] of strings is a [gset string]; [os.environ] is a
      [gmap string string].
    - An exception is a value of [exn]; a method that can raise returns
      [exn + A] next to the state it leaves behind, since mutations made
      before a [raise] persist.
    - The operating system (processes, file system) is an abstract state
      with the operations [pack.py] calls on it; [argparse] is a library
      call that returns the parsed arguments or leaves the process. *)

From Stdlib Require Import ZArith Ascii String List Relations.
From stdpp Require Import base tactics option list sets gmap strings pretty.

#[local] Set Warnings "-clear-no-such-hyp,-register-all".

Local Open Scope string_scope.
Local Open Scope list_scope.

(** ** Python strings *)

Module PyStr.

(** [s.split(sep)] for a one-character separator. The result is never
    empty: the empty string splits into one empty segment. *)
Fixpoint split (sep : ascii) (s : string) : list string :=
  match s with
  | EmptyString => [EmptyString]
  | String c s' =>
      if Ascii.eqb c sep then EmptyString :: split sep s'
      else match split sep s' with
           | [] => [String c EmptyString]
           | seg :: segs => String c seg :: segs
           end
  end.

(** [l[-1]] on a list of strings that is known to be non-empty. *)
Definition last_segment (l : list string) : string := List.last l EmptyString.

(** [needle in haystack] on strings. *)
Fixpoint contains (needle haystack : string) : bool :=
  String.prefix needle haystack
  || match haystack with
     | EmptyString => false
     | String _ rest => contains needle rest
     end.

(** [sep.join(l)]. *)
Fixpoint join (sep : string) (l : list string) : string :=
  match l with
  | [] => EmptyString
  | [x] => x
  | x :: rest => x ++ sep ++ join sep rest
  end.

(** [c.lower()] for one code point below 256: the ASCII capitals and the
    capitals of the Latin-1 block (all of 0xC0..0xDE but the
    multiplication sign). *)
Definition lower_char (c : ascii) : ascii :=
  let n := nat_of_ascii c in
  if ((65 <=? n) && (n <=? 90))%nat then ascii_of_nat (n + 32)
  else if ((192 <=? n) && (n <=? 222) && negb (n =? 215))%nat
       then ascii_of_nat (n + 32)
  else c.

Fixpoint lower (s : string) : string :=
  match s with
  | EmptyString => EmptyString
  | String c s' => String (lower_char c) (lower s')
  end.

(** Truth value of a string: the empty string is false. *)
Definition truthy (s : string) : bool :=
  match s with EmptyString => false | String _ _ => true end.

(** [s[n:]] *)
Fixpoint drop (n : nat) (s : string) : string :=
  match n, s with
  | S n', String _ s' => drop n' s'
  | _, _ => s
  end.

(** [s.replace(old, new)] for a non-empty [old], scanning [s] from the left;
  the fuel is the number of characters still to scan. *)
Fixpoint replace_from (fuel : nat) (old new s : string) : string :=
  match fuel with
  | O => s
  | S fuel' =>
      if String.prefix old s then new ++ replace_from fuel' old new (drop (String.length old) s)
      else match s with
           | EmptyString => EmptyString
           | String c s' => String c (replace_from fuel' old new s')
           end
  end.

Definition replace (old new s : string) : string :=
  replace_from (S (String.length s)) old new s.

End PyStr.

(** ** Ordered dictionaries *)

Module Dict.
Section Dict.
Context {V : Type}.

(** [d.get(k)] *)
Fixpoint get (d : list (string * V)) (k : string) : option V :=
  match d with
  | [] => None
  | (k', v) :: rest => if String.eqb k' k then Some v else get rest k
  end.

(** [d[k] = v]: an existing key keeps its position, a new key goes last. *)
Fixpoint set (d : list (string * V)) (k : string) (v : V) : list (string * V) :=
  match d with
  | [] => [(k, v)]
  | (k', v') :: rest =>
      if String.eqb k' k then (k', v) :: rest else (k', v') :: set rest k v
  end.

Definition keys (d : list (string * V)) : list string := map fst d.
Definition values (d : list (string * V)) : list V := map snd d.
End Dict.
End Dict.

(** A dictionary holds every key once. *)
Definition dict_wf {V : Type} (d : list (string * V)) : Prop := NoDup (Dict.keys d).

(** ** Data model *)

(** One entry of a config's ["define"] list: a list of strings (a pair
    [[key, value]] when it has two elements) or a bare string. *)
Inductive define_item : Type :=
| DefList (items : list string)
| DefStr (s : string).

(** A package config, the value type of [PACKS]. A key that may be absent
    and is read with [config.get(key)] is an [option]; ["define"] and
    ["dependencies"] are read with the default [[]], so absent is [[]]. *)
Record Config : Type := mkConfig {
  branch : option string;
  cpp : option Z;
  build_type : option string;
  define : list define_item;
  dependencies : list string
}.

(** [{}] as a config. *)
Definition empty_config : Config :=
  {| branch := None; cpp := None; build_type := None; define := []; dependencies := [] |}.

(** The registry [PACKS]: URL to config, in insertion order. *)
Definition Packs : Type := list (string * Config).

Inductive exn : Type :=
| ValueError (msg : string)
| CalledProcessError (returncode : Z) (cmd : string)
| OSError
| KeyError
| SystemExit (code : Z).

(** [Builder.get_package_name]: [url.split("/")[-1]]. *)
Definition get_package_name (url : string) : string :=
  PyStr.last_segment (PyStr.split "/" url).

(** ** Dependency resolution *)

(** The local state of one call of [resolve_dependencies], and the warnings
    it has logged so far. *)
Record VisitState : Type := mkVisitState {
  visited : gset string;
  temp_visited : gset string;
  result : list string;
  warnings : list string
}.

Definition log_warning (msg : string) (st : VisitState) : VisitState :=
  {| visited := visited st; temp_visited := temp_visited st;
     result := result st; warnings := warnings st ++ [msg] |}.

Definition VisitResult : Type := (exn + unit) * VisitState.

Section Resolve.
Variable packages : Packs.

(** The inner loop [for pkg_url in packages: if name == dep_name: break]. *)
Fixpoint find_dep_url (pkgs : Packs) (dep_name : string) : option string :=
  match pkgs with
  | [] => None
  | (pkg_url, _) :: rest =>
      if String.eqb (get_package_name pkg_url) dep_name then Some pkg_url
      else find_dep_url rest dep_name
  end.

(** The test [if dep_url:], false for [None] and for the empty string. *)
Definition dep_found (dep_url : option string) : option string :=
  match dep_url with
  | Some u => if PyStr.truthy u then Some u else None
  | None => None
  end.

Definition not_found_message (dep_name url : string) : string :=
  "Dependency " ++ dep_name ++ " not found for " ++ get_package_name url.

Definition cycle_message (url : string) : string :=
  "Circular dependency detected involving " ++ url.

(** The loop [for dep_name in dependencies] of [visit], over the recursive
    call. [None] stands for a recursion that ran out of fuel. *)
Fixpoint visit_deps (rec : string -> VisitState -> option VisitResult)
    (url : string) (deps : list string) (st : VisitState) : option VisitResult :=
  match deps with
  | [] => Some (inr tt, st)
  | dep_name :: rest =>
      match dep_found (find_dep_url packages dep_name) with
      | Some dep_url =>
          match rec dep_url st with
          | Some (inr tt, st') => visit_deps rec url rest st'
          | r => r
          end
      | None => visit_deps rec url rest (log_warning (not_found_message dep_name url) st)
      end
  end.

Fixpoint visit (fuel : nat) (url : string) (st : VisitState) : option VisitResult :=
  match fuel with
  | O => None
  | S fuel' =>
      if decide (url ∈ temp_visited st) then Some (inl (ValueError (cycle_message url)), st)
      else if decide (url ∈ visited st) then Some (inr tt, st)
      else
        let st1 := {| visited := visited st; temp_visited := temp_visited st ∪ {[url]};
                      result := result st; warnings := warnings st |} in
        let config := default empty_config (Dict.get packages url) in
        match visit_deps (visit fuel') url (dependencies config) st1 with
        | Some (inr tt, st2) =>
            Some (inr tt,
                  {| visited := visited st2 ∪ {[url]};
                     temp_visited := temp_visited st2 ∖ {[url]};
                     result := result st2 ++ [url];
                     warnings := warnings st2 |})
        | r => r
        end
  end.

(** The loop [for url in packages: visit(url)]. *)
Fixpoint visit_all (fuel : nat) (urls : list string) (st : VisitState) : option VisitResult :=
  match urls with
  | [] => Some (inr tt, st)
  | url :: rest =>
      match visit fuel url st with
      | Some (inr tt, st') => visit_all fuel rest st'
      | r => r
      end
  end.

Definition initial_visit_state : VisitState :=
  {| visited := ∅; temp_visited := ∅; result := []; warnings := [] |}.

(** [visit] nests at most once per registry key, so this much fuel is
    never used up ([resolve_dependencies_total]). *)
Definition resolve_fuel : nat := S (length packages).

(** [Builder.resolve_dependencies]: the warnings logged, and the exception
    raised or the list returned. *)
Definition resolve_dependencies : option (list string * (exn + list string)) :=
  match visit_all resolve_fuel (Dict.keys packages) initial_visit_state with
  | None => None
  | Some (inl e, st) => Some (warnings st, inl e)
  | Some (inr tt, st) => Some (warnings st, inr (result st))
  end.

End Resolve.

(** The registry of [pack.py]. *)
Definition url_etcd := "https://github.com/AI-Infra-Team/etcd-cpp-apiv3".
Definition url_gflags := "https://github.com/AI-Infra-Team/gflags".
Definition url_glog := "https://github.com/AI-Infra-Team/glog".
Definition url_jsoncpp := "https://github.com/AI-Infra-Team/jsoncpp".
Definition url_rdma := "https://github.com/AI-Infra-Team/rdma-core".
Definition url_ylt := "https://github.com/AI-Infra-Team/yalantinglibs".

Definition kv (k v : string) : define_item := DefList [k; v].

Definition PACKS : Packs :=
  [ (url_etcd,
     {| branch := Some "master"; cpp := Some 17%Z; build_type := Some "Release";
        define := [kv "BUILD_STATIC_LIBS" "ON"; kv "BUILD_SHARED_LIBS" "OFF"];
        dependencies := [] |});
    (url_gflags,
     {| branch := Some "master"; cpp := Some 17%Z; build_type := Some "Release";
        define := [kv "BUILD_SHARED_LIBS" "OFF"; kv "BUILD_STATIC_LIBS" "ON";
                   kv "BUILD_gflags_LIB" "ON"];
        dependencies := [] |});
    (url_glog,
     {| branch := Some "v0.6.0"; cpp := Some 17%Z; build_type := Some "Release";
        define := [kv "WITH_GFLAGS" "ON"; kv "BUILD_SHARED_LIBS" "OFF";
                   kv "BUILD_STATIC_LIBS" "ON"];
        dependencies := ["gflags"] |});
    (url_jsoncpp,
     {| branch := Some "master"; cpp := Some 17%Z; build_type := None;
        define := [kv "BUILD_SHARED_LIBS" "OFF"; kv "BUILD_STATIC_LIBS" "ON";
                   kv "BUILD_OBJECT_LIBS" "OFF"; kv "CMAKE_BUILD_TYPE" "Release"];
        dependencies := [] |});
    (url_rdma,
     {| branch := Some "master"; cpp := Some 17%Z; build_type := None;
        define := [kv "NO_PYVERBS" "ON"; kv "BUILD_SHARED_LIBS" "ON";
                   kv "BUILD_STATIC_LIBS" "OFF"; kv "BUILD_TESTING" "OFF";
                   kv "BUILD_EXAMPLES" "OFF"; kv "BUILD_EXAMPLES" "OFF";
                   kv "NO_MAN_PAGES" "ON"];
        dependencies := [] |});
    (url_ylt,
     {| branch := Some "main"; cpp := Some 20%Z; build_type := None;
        define := [kv "GENERATE_BENCHMARK_DATA" "OFF"; kv "BUILD_EXAMPLES" "OFF";
                   kv "BUILD_BENCHMARK" "OFF"; kv "BUILD_TESTING" "OFF";
                   kv "COVERAGE_TEST" "OFF"];
        dependencies := ["rdma-core"] |}) ].

Example get_package_name_glog : get_package_name url_glog = "glog".
Proof. reflexivity. Qed.

Example resolve_PACKS :
  resolve_dependencies PACKS
  = Some ([], inr [url_etcd; url_gflags; url_glog; url_jsoncpp; url_rdma; url_ylt]).
Proof. vm_compute. reflexivity. Qed.


(** ** The dependency graph and the invariant of the depth-first search *)

Section ResolveFacts.
Variable packages : Packs.

(** The edge the code follows: [a] is registered, declares the name [d], and
    the lookup of [d] yields the URL [b] that [visit] is then called on. *)
Definition dep_edge (a b : string) : Prop :=
  ∃ cfg d, Dict.get packages a = Some cfg ∧ d ∈ dependencies cfg
           ∧ dep_found (find_dep_url packages d) = Some b.

(** The edge as the specification words it: [a] declares a name that is the
    derived name of the registry entry [b]. *)
Definition declares_dep (a b : string) : Prop :=
  ∃ cfg d, Dict.get packages a = Some cfg ∧ d ∈ dependencies cfg
           ∧ b ∈ Dict.keys packages ∧ get_package_name b = d.

(** [u] lies on a cycle of the relation [R]. *)
Definition on_cycle (R : relation string) (u : string) : Prop := clos_trans string R u u.

Definition acyclic (R : relation string) : Prop := ∀ u, ¬ on_cycle R u.


(** Every element of [l] comes after all the URLs it has an edge to. *)
Definition topo (l : list string) : Prop :=
  ∀ l1 a l2 b, l = l1 ++ a :: l2 → dep_edge a b → b ∈ l1.

(** The warnings owed by the packages in [S]. *)
Definition warned (S : gset string) (w : list string) : Prop :=
  ∀ a cfg d, a ∈ S → Dict.get packages a = Some cfg → d ∈ dependencies cfg →
             dep_found (find_dep_url packages d) = None →
             not_found_message d a ∈ w.

Definition keys_set : gset string := list_to_set (Dict.keys packages).

Record Inv (st : VisitState) : Prop := mkInv {
  inv_nodup : NoDup (result st);
  inv_result : ∀ x, x ∈ visited st ↔ x ∈ result st;
  inv_visited : visited st ⊆ keys_set;
  inv_temp : temp_visited st ⊆ keys_set;
  inv_disj : temp_visited st ## visited st;
  inv_topo : topo (result st);
  inv_warned : warned (visited st) (warnings st)
}.

(** What a call [visit(url)] from the state [st] guarantees. *)
Definition visit_post (url : string) (st : VisitState) (r : option VisitResult) : Prop :=
  match r with
  | None => False
  | Some (inl e, _) => ∃ u, e = ValueError (cycle_message u) ∧ on_cycle dep_edge u
  | Some (inr tt, st') =>
      Inv st' ∧ temp_visited st' = temp_visited st ∧ visited st ⊆ visited st'
      ∧ url ∈ visited st'
      ∧ (∃ new, result st' = result st ++ new)
      ∧ (∃ w, warnings st' = warnings st ++ w)
  end.

Lemma get_Some_key {V} (d : list (string * V)) k v :
  Dict.get d k = Some v → k ∈ Dict.keys d.
Proof.
  induction d as [|[k' v'] d IH]; simpl; [done|].
  destruct (String.eqb_spec k' k) as [->|Hne]; intros H.
  - left.
  - right. auto.
Qed.

Lemma key_get_Some {V} (d : list (string * V)) k :
  k ∈ Dict.keys d → is_Some (Dict.get d k).
Proof.
  induction d as [|[k' v'] d IH]; simpl; [by intros ?%elem_of_nil|].
  intros H. destruct (String.eqb_spec k' k) as [->|Hne]; [eauto|].
  apply elem_of_cons in H as [->|H]; [done|auto].
Qed.

Lemma find_dep_url_Some pkgs d b :
  find_dep_url pkgs d = Some b → b ∈ Dict.keys pkgs ∧ get_package_name b = d.
Proof.
  induction pkgs as [|[k v] pkgs IH]; simpl; [done|].
  destruct (String.eqb_spec (get_package_name k) d) as [Heq|Hne].
  - intros [= ->]. split; [left | done].
  - intros H. destruct (IH H). split; [by right | done].
Qed.


(** With pairwise distinct names the lookup returns the one entry of that
    name. *)
Lemma find_dep_url_unique pkgs b :
  NoDup (map get_package_name (Dict.keys pkgs)) → b ∈ Dict.keys pkgs →
  find_dep_url pkgs (get_package_name b) = Some b.
Proof.
  induction pkgs as [|[k v] pkgs IH]; simpl; [by intros _ ?%elem_of_nil|].
  intros Hnd Hb. apply NoDup_cons in Hnd as [Hk Hnd].
  destruct (String.eqb_spec (get_package_name k) (get_package_name b)) as [Heq|Hne].
  - apply elem_of_cons in Hb as [->|Hb]; [done|].
    exfalso. apply Hk. rewrite Heq. by apply list_elem_of_fmap_2.
  - apply elem_of_cons in Hb as [->|Hb]; [done|]. by apply IH.
Qed.

Lemma dep_found_Some o b : dep_found o = Some b → o = Some b ∧ b ≠ EmptyString.
Proof.
  destruct o as [u|]; simpl; [|done]. destruct u; simpl; [done|].
  by intros [= <-].
Qed.

Lemma dep_edge_key a b : dep_edge a b → a ∈ keys_set ∧ b ∈ keys_set.
Proof.
  intros (cfg & d & Hget & _ & Hf). apply dep_found_Some in Hf as [Hf _].
  apply find_dep_url_Some in Hf as [Hb _]. apply get_Some_key in Hget.
  unfold keys_set. rewrite !elem_of_list_to_set. done.
Qed.

Lemma dep_edge_declares a b : dep_edge a b → declares_dep a b.
Proof.
  intros (cfg & d & Hget & Hd & Hf). apply dep_found_Some in Hf as [Hf _].
  apply find_dep_url_Some in Hf as [Hb Hn]. by exists cfg, d.
Qed.

Lemma topo_snoc l a :
  topo l → (∀ b, dep_edge a b → b ∈ l) → topo (l ++ [a]).
Proof.
  intros Hl Ha l1 x l2 b Heq Hxb.
  destruct l2 as [|y l2 _] using rev_ind.
  - apply app_inj_tail in Heq as [-> ->]. auto.
  - rewrite app_comm_cons, app_assoc in Heq.
    apply app_inj_tail in Heq as [-> _]. eapply Hl; eauto.
Qed.

Lemma size_keys_step (T : gset string) url :
  url ∈ keys_set → url ∉ T →
  S (size (keys_set ∖ (T ∪ {[url]}))) = size (keys_set ∖ T).
Proof.
  intros Hk Hn.
  assert (keys_set ∖ T = {[url]} ∪ keys_set ∖ (T ∪ {[url]})) as ->.
  { apply set_eq. intros x. rewrite elem_of_union, !elem_of_difference,
      elem_of_union, elem_of_singleton.
    destruct (decide (x = url)) as [->|]; tauto. }
  rewrite (size_union (C:=gset string) {[url]}).
  - by rewrite size_singleton.
  - intros x Hx1 Hx2. apply elem_of_singleton in Hx1 as ->.
    apply elem_of_difference in Hx2 as [_ Hx2]. apply Hx2.
    apply elem_of_union. right. by apply elem_of_singleton.
Qed.

Lemma Inv_log_warning msg st : Inv st → Inv (log_warning msg st).
Proof.
  intros [H1 H2 H3 H4 H5 H6 H7]. split; simpl; try done.
  intros a cfg d Ha Hg Hd Hf. apply elem_of_app. left. eauto.
Qed.

Lemma Inv_enter url st :
  url ∈ keys_set → url ∉ visited st → Inv st →
  Inv {| visited := visited st; temp_visited := temp_visited st ∪ {[url]};
         result := result st; warnings := warnings st |}.
Proof.
  intros Hk Hv [H1 H2 H3 H4 H5 H6 H7]. split; simpl; try done.
  - intros x [Hx| ->%elem_of_singleton]%elem_of_union; auto.
  - intros x [Hx| ->%elem_of_singleton]%elem_of_union Hx'; [by apply (H5 x)|done].
Qed.

Lemma Inv_leave url st :
  url ∈ keys_set → url ∈ temp_visited st → Inv st →
  (∀ b, dep_edge url b → b ∈ visited st) →
  (∀ cfg d, Dict.get packages url = Some cfg → d ∈ dependencies cfg →
            dep_found (find_dep_url packages d) = None →
            not_found_message d url ∈ warnings st) →
  Inv {| visited := visited st ∪ {[url]}; temp_visited := temp_visited st ∖ {[url]};
         result := result st ++ [url]; warnings := warnings st |}.
Proof.
  intros Hk Ht [H1 H2 H3 H4 H5 H6 H7] Hedges Hwarn.
  assert (url ∉ result st) as Hfresh.
  { intros Hr. apply H2 in Hr. by apply (H5 url). }
  split; simpl.
  - apply NoDup_app. split; [done|]. split; [|apply NoDup_singleton].
    intros x Hx ->%list_elem_of_singleton. done.
  - intros x. rewrite elem_of_union, elem_of_app, elem_of_singleton,
      list_elem_of_singleton, H2. done.
  - intros x [Hx| ->%elem_of_singleton]%elem_of_union; auto.
  - intros x [Hx _]%elem_of_difference. auto.
  - intros x [Hx Hne]%elem_of_difference [Hx'| Hx']%elem_of_union;
      [by apply (H5 x) | done].
  - apply topo_snoc; [done|]. intros b Hb. apply H2. auto.
  - intros a cfg d [Ha| ->%elem_of_singleton]%elem_of_union Hg Hd Hf; eauto.
Qed.

(** The loop over the declared names of [url], given what the recursive
    calls guarantee while [T] is the set of packages in progress. *)
Lemma visit_deps_spec rec url cfg (T : gset string) :
  Dict.get packages url = Some cfg →
  url ∈ T →
  (∀ u st, u ∈ keys_set → Inv st → temp_visited st = T →
           (∀ t, t ∈ T → clos_trans string dep_edge t u) →
           visit_post u st (rec u st)) →
  (∀ t, t ∈ T → t = url ∨ clos_trans string dep_edge t url) →
  ∀ deps st, deps ⊆ dependencies cfg → Inv st → temp_visited st = T →
  match visit_deps packages rec url deps st with
  | None => False
  | Some (inl e, _) => ∃ u, e = ValueError (cycle_message u) ∧ on_cycle dep_edge u
  | Some (inr tt, st') =>
      Inv st' ∧ temp_visited st' = T ∧ visited st ⊆ visited st'
      ∧ (∃ new, result st' = result st ++ new)
      ∧ (∃ w, warnings st' = warnings st ++ w)
      ∧ (∀ d b, d ∈ deps → dep_found (find_dep_url packages d) = Some b →
                b ∈ visited st')
      ∧ (∀ d, d ∈ deps → dep_found (find_dep_url packages d) = None →
              not_found_message d url ∈ warnings st')
  end.
Proof.
  intros Hget HurlT Hrec Hstack deps.
  induction deps as [|d deps IH]; intros st Hsub Hinv HT; simpl.
  - split_and!; try done.
    + by exists []; rewrite app_nil_r.
    + by exists []; rewrite app_nil_r.
    + by intros ? ? ?%elem_of_nil.
    + by intros ? ?%elem_of_nil.
  - assert (deps ⊆ dependencies cfg) as Hsub'.
    { intros x Hx. apply Hsub. by right. }
    destruct (dep_found (find_dep_url packages d)) as [b|] eqn:Hf.
    + assert (dep_edge url b) as Hedge.
      { exists cfg, d. split_and!; [done| |done]. apply Hsub. left. }
      specialize (Hrec b st (proj2 (dep_edge_key _ _ Hedge)) Hinv HT).
      unfold visit_post in Hrec.
      destruct (rec b st) as [[[e|[]] st1]|].
      * apply Hrec. intros t Ht. destruct (Hstack t Ht) as [->|Hp].
        -- by apply t_step.
        -- eapply t_trans; [done|]. by apply t_step.
      * destruct Hrec as (Hinv1 & HT1 & Hmono1 & Hb & [n1 Hn1] & [w1 Hw1]).
        { intros t Ht. destruct (Hstack t Ht) as [->|Hp].
          - by apply t_step.
          - eapply t_trans; [done|]. by apply t_step. }
        specialize (IH st1 Hsub' Hinv1 (eq_trans HT1 HT)).
        destruct (visit_deps packages rec url deps st1) as [[[e|[]] st2]|]; [done| |done].
        destruct IH as (Hinv2 & HT2 & Hmono2 & [n2 Hn2] & [w2 Hw2] & Hvis & Hwarn).
        split_and!; try done.
        -- set_solver.
        -- exists (n1 ++ n2). by rewrite Hn2, Hn1, app_assoc.
        -- exists (w1 ++ w2). by rewrite Hw2, Hw1, app_assoc.
        -- intros d' b' [->|Hd']%elem_of_cons Hf'; [|eauto].
           rewrite Hf in Hf'. injection Hf' as <-. set_solver.
        -- intros d' [->|Hd']%elem_of_cons Hf'; [congruence|eauto].
      * apply Hrec. intros t Ht. destruct (Hstack t Ht) as [->|Hp].
        -- by apply t_step.
        -- eapply t_trans; [done|]. by apply t_step.
    + specialize (IH (log_warning (not_found_message d url) st) Hsub'
                     (Inv_log_warning _ _ Hinv) HT).
      destruct (visit_deps packages rec url deps _) as [[[e|[]] st2]|]; [done| |done].
      destruct IH as (Hinv2 & HT2 & Hmono2 & [n2 Hn2] & [w2 Hw2] & Hvis & Hwarn).
      simpl in *. split_and!; try done.
      * by exists n2.
      * exists ([not_found_message d url] ++ w2). by rewrite Hw2, app_assoc.
      * intros d' b' [->|Hd']%elem_of_cons Hf'; [congruence|eauto].
      * intros d' [->|Hd']%elem_of_cons Hf'; [|eauto].
        rewrite Hw2. apply elem_of_app. left. apply elem_of_app. right. left.
Qed.

(** One call of [visit] on a registered URL, with fuel left for every
    package that is not yet in progress. *)
Lemma visit_spec fuel : ∀ url st,
  url ∈ keys_set → Inv st →
  (∀ t, t ∈ temp_visited st → clos_trans string dep_edge t url) →
  size (keys_set ∖ temp_visited st) < fuel →
  visit_post url st (visit packages fuel url st).
Proof.
  induction fuel as [|fuel IH]; intros url st Hk Hinv Hstack Hfuel; [lia|].
  simpl. destruct (decide (url ∈ temp_visited st)) as [Ht|Ht].
  { simpl. exists url. split; [done|]. by apply Hstack. }
  destruct (decide (url ∈ visited st)) as [Hv|Hv].
  { simpl. split_and!; try done; by exists []; rewrite app_nil_r. }
  assert (is_Some (Dict.get packages url)) as [cfg Hget].
  { apply key_get_Some. unfold keys_set in Hk. by apply elem_of_list_to_set in Hk. }
  rewrite Hget. simpl.
  set (st1 := {| visited := visited st; temp_visited := temp_visited st ∪ {[url]};
                 result := result st; warnings := warnings st |}).
  pose proof (size_keys_step (temp_visited st) url Hk Ht) as Hsize.
  pose proof (visit_deps_spec (visit packages fuel) url cfg (temp_visited st ∪ {[url]})
                Hget ltac:(set_solver)) as Hdeps.
  specialize (Hdeps) with (deps := dependencies cfg) (st := st1).
  destruct (visit_deps packages (visit packages fuel) url (dependencies cfg) st1)
    as [[[e|[]] st2]|].
  - apply Hdeps; try done.
    + intros u s Hu Hs HT Hst. apply IH; try done; rewrite HT; [done|lia].
    + intros t [Htt| ->%elem_of_singleton]%elem_of_union; [right; auto | by left].
    + by apply Inv_enter.
  - destruct Hdeps as (Hinv2 & HT2 & Hmono2 & [n2 Hn2] & [w2 Hw2] & Hvis & Hwarn);
      try done.
    + intros u s Hu Hs HT Hst. apply IH; try done; rewrite HT; [done|lia].
    + intros t [Htt| ->%elem_of_singleton]%elem_of_union; [right; auto | by left].
    + by apply Inv_enter.
    + simpl in *. split_and!; simpl.
      * apply Inv_leave; try done.
        -- rewrite HT2. set_solver.
        -- intros b (cfg' & d & Hg' & Hd & Hf). rewrite Hget in Hg'.
           injection Hg' as <-. eauto.
        -- intros cfg' d Hg' Hd Hf. rewrite Hget in Hg'. injection Hg' as <-. eauto.
      * rewrite HT2. set_solver.
      * set_solver.
      * set_solver.
      * exists (n2 ++ [url]). by rewrite Hn2, app_assoc.
      * by exists w2.
  - apply Hdeps; try done.
    + intros u s Hu Hs HT Hst. apply IH; try done; rewrite HT; [done|lia].
    + intros t [Htt| ->%elem_of_singleton]%elem_of_union; [right; auto | by left].
    + by apply Inv_enter.
Qed.

End ResolveFacts.

Lemma NoDup_split_unique {A} (x : A) l1 l2 l3 l4 :
  NoDup (l1 ++ x :: l2) → l1 ++ x :: l2 = l3 ++ x :: l4 → l1 = l3.
Proof.
  revert l3. induction l1 as [|y l1 IH]; intros l3 Hnd Heq.
  - destruct l3 as [|z l3]; [done|]. simpl in *. injection Heq as <- ->.
    apply NoDup_cons in Hnd as [Hx _]. exfalso. apply Hx.
    apply elem_of_app. right. left.
  - destruct l3 as [|z l3]; simpl in *.
    + injection Heq as -> _. apply NoDup_cons in Hnd as [Hx _]. exfalso.
      apply Hx. apply elem_of_app. right. left.
    + injection Heq as <- Heq. apply NoDup_cons in Hnd as [_ Hnd].
      f_equal. by apply IH.
Qed.

Section ResolveSpec.
Variable packages : Packs.

Lemma size_keys_set : (size (keys_set packages) ≤ length packages)%nat.
Proof.
  unfold keys_set, Dict.keys. induction packages as [|[k v] l IH].
  - change (size (∅ : gset string) ≤ 0)%nat. by rewrite size_empty.
  - change (size ({[k]} ∪ list_to_set (map fst l) : gset string) ≤ S (length l))%nat.
    rewrite size_union_alt, size_singleton.
    pose proof (subseteq_size (list_to_set (map fst l) ∖ {[k]})
                  (list_to_set (map fst l) : gset string)) as Hle.
    etrans; [apply Nat.add_le_mono_l, Hle; set_solver|]. lia.
Qed.

Lemma Inv_initial : Inv packages initial_visit_state.
Proof.
  split; simpl; try done; try (by constructor).
  all: try (intros l1 a l2 b Heq; by destruct l1).
  all: try (intros x; rewrite elem_of_nil); set_solver.
Qed.

(** The outer loop, from a state in which no package is in progress. *)
Lemma visit_all_spec fuel : ∀ urls st,
  (∀ u, u ∈ urls → u ∈ keys_set packages) → Inv packages st →
  temp_visited st = ∅ → (size (keys_set packages) < fuel)%nat →
  match visit_all packages fuel urls st with
  | None => False
  | Some (inl e, _) =>
      ∃ u, e = ValueError (cycle_message u) ∧ on_cycle (dep_edge packages) u
  | Some (inr tt, st') =>
      Inv packages st' ∧ temp_visited st' = ∅ ∧ visited st ⊆ visited st'
      ∧ ∀ u, u ∈ urls → u ∈ visited st'
  end.
Proof.
  induction urls as [|url urls IH]; intros st Hk Hinv HT Hfuel; simpl.
  - split_and!; try done. by intros u ?%elem_of_nil.
  - pose proof (visit_spec packages fuel url st) as Hv. unfold visit_post in Hv.
    assert (size (keys_set packages ∖ temp_visited st) < fuel)%nat as Hf.
    { eapply Nat.le_lt_trans; [apply subseteq_size|done]. set_solver. }
    destruct (visit packages fuel url st) as [[[e|[]] st1]|].
    + apply Hv; try done; [apply Hk; left | rewrite HT; set_solver].
    + destruct Hv as (Hinv1 & HT1 & Hmono1 & Hin1 & _);
        try done; [apply Hk; left | rewrite HT; set_solver |].
      specialize (IH st1). destruct (visit_all packages fuel urls st1) as [[[e|[]] st2]|].
      * apply IH; try done; [intros u Hu; apply Hk; by right | congruence].
      * destruct IH as (Hinv2 & HT2 & Hmono2 & Hin2);
          try done; [intros u Hu; apply Hk; by right | congruence |].
        split_and!; try done; [set_solver|].
        intros u [->|Hu]%elem_of_cons; [set_solver | auto].
      * apply IH; try done; [intros u Hu; apply Hk; by right | congruence].
    + apply Hv; try done; [apply Hk; left | rewrite HT; set_solver].
Qed.

(** What [resolve_dependencies] computes, in one statement: it never runs
    out of fuel; an exception names a URL on a cycle; a returned list holds
    the registry keys once each, dependencies first, and every unresolved
    name has been warned about. *)
Lemma resolve_dependencies_spec :
  match resolve_dependencies packages with
  | None => False
  | Some (w, inl e) =>
      ∃ u, e = ValueError (cycle_message u) ∧ on_cycle (dep_edge packages) u
  | Some (w, inr order) =>
      NoDup order ∧ (∀ x, x ∈ order ↔ x ∈ Dict.keys packages)
      ∧ topo packages order ∧ warned packages (keys_set packages) w
  end.
Proof.
  unfold resolve_dependencies, resolve_fuel.
  pose proof (visit_all_spec (S (length packages)) (Dict.keys packages)
                initial_visit_state) as H.
  destruct (visit_all packages (S (length packages)) (Dict.keys packages)
              initial_visit_state) as [[[e|[]] st]|].
  - apply H; try done; [|apply Inv_initial|pose proof size_keys_set; lia].
    intros u Hu. unfold keys_set. by apply elem_of_list_to_set.
  - destruct H as (Hinv & HT & _ & Hall); try done;
      [|apply Inv_initial|pose proof size_keys_set; lia|].
    { intros u Hu. unfold keys_set. by apply elem_of_list_to_set. }
    destruct Hinv as [H1 H2 H3 H4 H5 H6 H7]. split_and!; try done.
    + intros x. rewrite <- H2. split; [|by apply Hall].
      intros Hx%H3. unfold keys_set in Hx. by apply elem_of_list_to_set in Hx.
    + intros a cfg d Ha. apply H7. apply Hall. unfold keys_set in Ha.
      by apply elem_of_list_to_set in Ha.
  - apply H; try done; [|apply Inv_initial|pose proof size_keys_set; lia].
    intros u Hu. unfold keys_set. by apply elem_of_list_to_set.
Qed.

(** [resolve_dependencies] always produces a result. *)
Lemma resolve_dependencies_total :
  ∃ w r, resolve_dependencies packages = Some (w, r).
Proof.
  pose proof resolve_dependencies_spec as H.
  destruct (resolve_dependencies packages) as [[w r]|]; [eauto|done].
Qed.

(** A returned order exists only for a registry without a cycle. *)
Lemma topo_acyclic order :
  NoDup order → (∀ x, x ∈ order ↔ x ∈ Dict.keys packages) →
  topo packages order → acyclic (dep_edge packages).
Proof.
  intros Hnd Hkeys Htopo.
  assert (∀ a b, clos_trans string (dep_edge packages) a b →
                 ∃ l1 l2, order = l1 ++ a :: l2 ∧ b ∈ l1) as Hpath.
  { intros a b Hab. induction Hab as [a b Hab|a b c _ [l1 [l2 [E1 Hb]]] _ [l3 [l4 [E2 Hc]]]].
    - destruct (dep_edge_key _ _ _ Hab) as [Ha _].
      unfold keys_set in Ha. apply elem_of_list_to_set, Hkeys in Ha.
      apply list_elem_of_split in Ha as (l1 & l2 & ->).
      exists l1, l2. split; [done|]. eapply Htopo; eauto.
    - exists l1, l2. split; [done|].
      apply list_elem_of_split in Hb as (m1 & m2 & ->).
      rewrite E1 in E2. rewrite <- app_assoc in E2. simpl in E2.
      rewrite E1 in Hnd.
      assert (m1 = l3) as <-.
      { rewrite <- app_assoc in Hnd. simpl in Hnd.
        apply (NoDup_split_unique _ _ _ _ _ Hnd E2). }
      apply elem_of_app. by left. }
  intros u Hu. destruct (Hpath u u Hu) as (l1 & l2 & E & Hin).
  rewrite E in Hnd. apply NoDup_app in Hnd as (_ & Hnd & _).
  apply (Hnd u Hin). left.
Qed.

(** With pairwise distinct names and no empty URL, the edges of the
    specification are the edges the code follows. *)
Lemma declares_dep_edge a b :
  NoDup (map get_package_name (Dict.keys packages)) →
  EmptyString ∉ Dict.keys packages →
  declares_dep packages a b → dep_edge packages a b.
Proof.
  intros Hnames Hne (cfg & d & Hget & Hd & Hb & Hn).
  exists cfg, d. split_and!; [done..|].
  rewrite <- Hn, (find_dep_url_unique _ _ Hnames Hb). simpl.
  destruct b; [done|reflexivity].
Qed.

Lemma clos_trans_mono (R1 R2 : relation string) a b :
  (∀ x y, R1 x y → R2 x y) → clos_trans string R1 a b → clos_trans string R2 a b.
Proof.
  intros Hsub H. induction H as [x y H|x y z _ IH1 _ IH2].
  - apply t_step. auto.
  - eapply t_trans; eauto.
Qed.

(** A registry on which resolution returns a list has no cycle, neither in
    the edges the code follows nor (names distinct, URLs non-empty) in the
    declared ones. *)
Lemma resolve_returns_acyclic w order :
  resolve_dependencies packages = Some (w, inr order) →
  acyclic (dep_edge packages).
Proof.
  intros Hres. pose proof resolve_dependencies_spec as H. rewrite Hres in H.
  destruct H as (Hnd & Hkeys & Htopo & _). by eapply topo_acyclic.
Qed.

Lemma resolve_returns_acyclic_declared w order :
  NoDup (map get_package_name (Dict.keys packages)) →
  EmptyString ∉ Dict.keys packages →
  resolve_dependencies packages = Some (w, inr order) →
  acyclic (declares_dep packages).
Proof.
  intros Hnames Hne Hres u Hu.
  apply (resolve_returns_acyclic _ _ Hres u).
  eapply clos_trans_mono; [|exact Hu]. intros x y. by apply declares_dep_edge.
Qed.

(** A returned list is a rearrangement of the keys. *)
Lemma resolve_returns_keys w order :
  dict_wf packages →
  resolve_dependencies packages = Some (w, inr order) →
  order ≡ₚ Dict.keys packages.
Proof.
  intros Hwf Hres. pose proof resolve_dependencies_spec as H. rewrite Hres in H.
  destruct H as (Hnd & Hkeys & _). by apply NoDup_Permutation.
Qed.

(** On a cyclic registry resolution raises, and the URL in the message lies
    on a cycle. *)
Lemma resolve_dependencies_cyclic :
  (∃ u, on_cycle (dep_edge packages) u) →
  ∃ w u, resolve_dependencies packages = Some (w, inl (ValueError (cycle_message u)))
         ∧ on_cycle (dep_edge packages) u.
Proof.
  intros [u0 Hu0]. pose proof resolve_dependencies_spec as H.
  destruct (resolve_dependencies packages) as [[w [e|order]]|] eqn:Hres; [| |done].
  - destruct H as (u & -> & Hu). by exists w, u.
  - exfalso. by apply (resolve_returns_acyclic _ _ Hres u0).
Qed.

Lemma topo_indices order a b :
  NoDup order → a ∈ order → topo packages order → dep_edge packages a b →
  ∃ i j, order !! i = Some a ∧ order !! j = Some b ∧ (j < i)%nat.
Proof.
  intros Hnd Ha Htopo Hab.
  apply list_elem_of_split in Ha as (l1 & l2 & ->).
  pose proof (Htopo l1 a l2 b eq_refl Hab) as Hb.
  apply list_elem_of_split in Hb as (m1 & m2 & ->).
  exists (length (m1 ++ b :: m2)), (length m1). split_and!.
  - by rewrite list_lookup_middle.
  - rewrite <- app_assoc. simpl. by rewrite list_lookup_middle.
  - rewrite length_app. simpl. lia.
Qed.

End ResolveSpec.

(** ** Properties of dependency resolution *)

(** Registries of the specification's example scenarios. *)
Definition with_deps (deps : list string) : Config :=
  {| branch := None; cpp := None; build_type := None; define := [];
     dependencies := deps |}.

Definition chain_registry : Packs :=
  [ ("https://example.org/A", with_deps []);
    ("https://example.org/B", with_deps ["A"]);
    ("https://example.org/C", with_deps ["B"]) ].

Definition cyclic_registry : Packs :=
  [ ("https://example.org/A", with_deps ["B"]);
    ("https://example.org/B", with_deps ["A"]) ].

Definition dangling_registry : Packs :=
  [ ("https://example.org/D", with_deps ["X"]) ].

Example resolve_chain_registry :
  resolve_dependencies chain_registry
  = Some ([], inr ["https://example.org/A"; "https://example.org/B";
                   "https://example.org/C"]).
Proof. vm_compute. reflexivity. Qed.

Example resolve_cyclic_registry :
  resolve_dependencies cyclic_registry
  = Some ([], inl (ValueError
       "Circular dependency detected involving https://example.org/A")).
Proof. vm_compute. reflexivity. Qed.

Example resolve_dangling_registry :
  resolve_dependencies dangling_registry
  = Some (["Dependency X not found for D"], inr ["https://example.org/D"]).
Proof. vm_compute. reflexivity. Qed.

(** C1. On a registry without a dependency cycle (names pairwise distinct as
    the data model requires, no empty URL), [resolve_dependencies] returns a
    list, and whenever a package [a] declares a name that is the derived name
    of a registry entry [b], [b] stands at a strictly smaller index than [a]
    in that list. *)
Theorem resolve_dependencies_order (packages : Packs) :
  NoDup (map get_package_name (Dict.keys packages)) →
  EmptyString ∉ Dict.keys packages →
  acyclic (declares_dep packages) →
  ∃ w order, resolve_dependencies packages = Some (w, inr order)
    ∧ NoDup order
    ∧ ∀ a b, declares_dep packages a b →
        ∃ i j, order !! i = Some a ∧ order !! j = Some b ∧ (j < i)%nat.
Proof.
  intros Hnames Hne Hacyc.
  pose proof (resolve_dependencies_spec packages) as H.
  destruct (resolve_dependencies packages) as [[w [e|order]]|] eqn:Hres; [| |done].
  - exfalso. destruct H as (u & _ & Hu). apply (Hacyc u).
    eapply clos_trans_mono; [|exact Hu]. apply dep_edge_declares.
  - destruct H as (Hnd & Hkeys & Htopo & _).
    exists w, order. split_and!; [done..|].
    intros a b Hab. eapply topo_indices; [done| |done|by apply declares_dep_edge].
    apply Hkeys. destruct Hab as (cfg & d & Hget & _). by eapply get_Some_key.
Qed.

Lemma resolve_dependencies_order_witness :
  ∃ w order, resolve_dependencies PACKS = Some (w, inr order)
    ∧ NoDup order
    ∧ ∀ a b, declares_dep PACKS a b →
        ∃ i j, order !! i = Some a ∧ order !! j = Some b ∧ (j < i)%nat.
Proof.
  assert (NoDup (map get_package_name (Dict.keys PACKS))) as Hnames.
  { apply (bool_decide_unpack _). vm_compute. exact I. }
  assert (EmptyString ∉ Dict.keys PACKS) as Hne.
  { apply (bool_decide_unpack _). vm_compute. exact I. }
  apply (resolve_dependencies_order PACKS Hnames Hne).
  eapply resolve_returns_acyclic_declared; [done..|]. vm_compute. reflexivity.
Defined.

(** C10. A list returned by [resolve_dependencies] is a permutation of the
    registry's keys: every registered URL occurs in it exactly once, whether
    or not its declared names resolve, and nothing else occurs in it. *)
Theorem resolve_dependencies_permutation (packages : Packs) w order :
  dict_wf packages →
  resolve_dependencies packages = Some (w, inr order) →
  order ≡ₚ Dict.keys packages ∧ NoDup order.
Proof.
  intros Hwf Hres. pose proof (resolve_dependencies_spec packages) as H.
  rewrite Hres in H. destruct H as (Hnd & Hkeys & _).
  split; [|done]. by apply NoDup_Permutation.
Qed.

Lemma resolve_dependencies_permutation_witness :
  ["https://example.org/D"] ≡ₚ Dict.keys dangling_registry
  ∧ NoDup ["https://example.org/D"].
Proof.
  apply (resolve_dependencies_permutation dangling_registry
           ["Dependency X not found for D"]).
  - apply (bool_decide_unpack _). vm_compute. exact I.
  - vm_compute. reflexivity.
Defined.

(** ** [str()] of a define entry *)

Module PyRepr.

Definition squote : ascii := "039"%char.
Definition dquote : ascii := "034"%char.
Definition backslash : ascii := "092"%char.

Fixpoint has_char (c : ascii) (s : string) : bool :=
  match s with
  | EmptyString => false
  | String c' s' => Ascii.eqb c c' || has_char c s'
  end.

Definition hex_digit (n : nat) : ascii :=
  if (n <? 10)%nat then ascii_of_nat (48 + n) else ascii_of_nat (87 + n).

(** [str.isprintable] on a code point from 127 up to 255: the C1 controls,
    the no-break space and the soft hyphen are not printable. *)
Definition printable_high (n : nat) : bool :=
  negb ((n <=? 160)%nat || (n =? 173)%nat).

(** The escape of one character inside [repr(s)] delimited by [quote]. *)
Definition repr_char (quote c : ascii) : string :=
  let n := nat_of_ascii c in
  if Ascii.eqb c quote || Ascii.eqb c backslash then String backslash (String c EmptyString)
  else if (n =? 9)%nat then String backslash "t"
  else if (n =? 10)%nat then String backslash "n"
  else if (n =? 13)%nat then String backslash "r"
  else if ((n <? 32) || (n =? 127))%nat || ((127 <? n)%nat && negb (printable_high n))
       then String backslash (String "x"
              (String (hex_digit (n / 16)) (String (hex_digit (n mod 16)) EmptyString)))
  else String c EmptyString.

Fixpoint repr_body (quote : ascii) (s : string) : string :=
  match s with
  | EmptyString => EmptyString
  | String c s' => repr_char quote c ++ repr_body quote s'
  end.

(** [repr(s)]: single quotes unless [s] holds a single quote and no double
    quote. *)
Definition repr_str (s : string) : string :=
  let quote := if has_char squote s && negb (has_char dquote s) then dquote else squote in
  String quote (repr_body quote s ++ String quote EmptyString).

(** [str(l)] for a list of strings. *)
Definition str_list (l : list string) : string :=
  "[" ++ PyStr.join ", " (map repr_str l) ++ "]".

End PyRepr.

(** [str(define)] for one entry of the ["define"] list. *)
Definition str_define (d : define_item) : string :=
  match d with
  | DefList items => PyRepr.str_list items
  | DefStr s => s
  end.

Example str_define_pair :
  str_define (DefList ["BUILD_TESTING"; "OFF"]) = "['BUILD_TESTING', 'OFF']".
Proof. reflexivity. Qed.

(** ** The text [BUILD_TESTING] in [str(define)] *)

Definition testing_toggle : string := "BUILD_TESTING".

(** Every character either stands for itself in [repr], or is escaped: then
    it is no character of the toggle, and its escape starts with a backslash
    and holds no [B]. *)
Definition repr_char_ok (quote c : ascii) : bool :=
  if String.eqb (PyRepr.repr_char quote c) (String c EmptyString) then true
  else negb (PyRepr.has_char c testing_toggle)
       && String.prefix (String PyRepr.backslash EmptyString) (PyRepr.repr_char quote c)
       && negb (PyRepr.has_char "B" (PyRepr.repr_char quote c)).

Lemma repr_char_ok_all (c : ascii) :
  repr_char_ok PyRepr.squote c = true ∧ repr_char_ok PyRepr.dquote c = true.
Proof. destruct c as [[] [] [] [] [] [] [] []]; vm_compute; done. Qed.

Lemma has_char_cons c c0 n :
  PyRepr.has_char c (String c0 n) = Ascii.eqb c c0 || PyRepr.has_char c n.
Proof. reflexivity. Qed.

Lemma prefix_cons c0 n c s :
  String.prefix (String c0 n) (String c s)
  = if Ascii.eqb c0 c then String.prefix n s else false.
Proof.
  simpl. destruct (ascii_dec c0 c) as [->|Hne].
  - by rewrite Ascii.eqb_refl.
  - apply Ascii.eqb_neq in Hne. by rewrite Hne.
Qed.

Lemma app_cons c (a b : string) : String c a +:+ b = String c (a +:+ b).
Proof. reflexivity. Qed.

Lemma prefix_nil s : String.prefix EmptyString s = true.
Proof. by destruct s. Qed.

(** A match cannot run over a character that the needle does not hold. *)
Lemma prefix_barrier n : ∀ u b t,
  PyRepr.has_char b n = false →
  String.prefix n (u +:+ String b t) = String.prefix n u.
Proof.
  induction n as [|c0 n IH]; intros u b t Hb; [by rewrite !prefix_nil|].
  rewrite has_char_cons in Hb. apply orb_false_iff in Hb as [Hne Hb].
  destruct u as [|c u].
  - change (EmptyString +:+ String b t) with (String b t).
    rewrite prefix_cons. rewrite Ascii.eqb_sym in Hne. by rewrite Hne.
  - rewrite app_cons, !prefix_cons. destruct (Ascii.eqb c0 c); [|done]. by apply IH.
Qed.

Lemma contains_cons n c s :
  PyStr.contains n (String c s) = String.prefix n (String c s) || PyStr.contains n s.
Proof. reflexivity. Qed.

Lemma contains_barrier c0 n u b t :
  PyRepr.has_char b (String c0 n) = false →
  PyStr.contains (String c0 n) (u +:+ String b t)
  = PyStr.contains (String c0 n) u || PyStr.contains (String c0 n) t.
Proof.
  intros Hb. induction u as [|c u IH].
  - change (EmptyString +:+ String b t) with (String b t).
    rewrite contains_cons, prefix_cons.
    rewrite has_char_cons in Hb. apply orb_false_iff in Hb as [Hne _].
    rewrite Ascii.eqb_sym in Hne. by rewrite Hne.
  - rewrite app_cons, !contains_cons, IH.
    rewrite <- app_cons, prefix_barrier by done. by rewrite orb_assoc.
Qed.

Lemma contains_barrier_head c0 n b t :
  PyRepr.has_char b (String c0 n) = false →
  PyStr.contains (String c0 n) (String b t) = PyStr.contains (String c0 n) t.
Proof. intros Hb. apply (contains_barrier c0 n EmptyString b t Hb). Qed.

Lemma contains_barrier_last c0 n u b :
  PyRepr.has_char b (String c0 n) = false →
  PyStr.contains (String c0 n) (u +:+ String b EmptyString) = PyStr.contains (String c0 n) u.
Proof. intros Hb. rewrite contains_barrier by done. apply orb_false_r. Qed.

(** Characters other than the first of the needle start no match. *)
Lemma contains_skip c0 n e : ∀ rest,
  PyRepr.has_char c0 e = false →
  PyStr.contains (String c0 n) (e +:+ rest) = PyStr.contains (String c0 n) rest.
Proof.
  induction e as [|c e IH]; intros rest He; [done|].
  rewrite has_char_cons in He. apply orb_false_iff in He as [Hne He].
  rewrite app_cons, contains_cons, prefix_cons, Hne. by apply IH.
Qed.

Section Repr.
Variable quote : ascii.
Hypothesis quote_ok : ∀ c, repr_char_ok quote c = true.

Lemma repr_char_cases c :
  PyRepr.repr_char quote c = String c EmptyString
  ∨ (PyRepr.has_char c testing_toggle = false
     ∧ (∃ e, PyRepr.repr_char quote c = String PyRepr.backslash e)
     ∧ PyRepr.has_char "B" (PyRepr.repr_char quote c) = false).
Proof.
  pose proof (quote_ok c) as H. unfold repr_char_ok in H.
  destruct (String.eqb_spec (PyRepr.repr_char quote c) (String c EmptyString)) as [Heq|_];
    [by left|].
  right. apply andb_true_iff in H as [H H3]. apply andb_true_iff in H as [H1 H2].
  apply negb_true_iff in H1, H3. split_and!; [done| |done].
  destruct (PyRepr.repr_char quote c) as [|x e]; [done|].
  rewrite prefix_cons in H2. destruct (Ascii.eqb_spec PyRepr.backslash x) as [<-|]; [|done].
  by exists e.
Qed.

Lemma prefix_repr_body n : ∀ s,
  (∀ c, PyRepr.has_char c n = true → PyRepr.has_char c testing_toggle = true) →
  String.prefix n (PyRepr.repr_body quote s) = String.prefix n s.
Proof.
  induction n as [|c0 n IH]; intros s Hsub; [by rewrite !prefix_nil|].
  destruct s as [|c s]; [reflexivity|].
  assert (PyRepr.has_char c0 testing_toggle = true) as Hc0.
  { apply Hsub. rewrite has_char_cons, Ascii.eqb_refl. done. }
  assert (∀ c', PyRepr.has_char c' n = true → PyRepr.has_char c' testing_toggle = true)
    as Hsub'.
  { intros c' Hc'. apply Hsub. rewrite has_char_cons, Hc'. apply orb_true_r. }
  cbn [PyRepr.repr_body].
  destruct (repr_char_cases c) as [->|(Hc & (e & ->) & _)].
  - change (String c EmptyString +:+ PyRepr.repr_body quote s)
      with (String c (PyRepr.repr_body quote s)).
    rewrite !prefix_cons. destruct (Ascii.eqb c0 c); [|done]. by apply IH.
  - change (String PyRepr.backslash e +:+ PyRepr.repr_body quote s)
      with (String PyRepr.backslash (e +:+ PyRepr.repr_body quote s)).
    rewrite !prefix_cons.
    destruct (Ascii.eqb_spec c0 PyRepr.backslash) as [Heq|_];
      [rewrite Heq in Hc0; vm_compute in Hc0; discriminate Hc0|].
    destruct (Ascii.eqb_spec c0 c) as [->|_]; [congruence|done].
Qed.

Lemma contains_repr_body s :
  PyStr.contains testing_toggle (PyRepr.repr_body quote s)
  = PyStr.contains testing_toggle s.
Proof.
  induction s as [|c s IH]; [done|].
  rewrite contains_cons, <- (prefix_repr_body testing_toggle (String c s)) by done.
  rewrite <- IH. cbn [PyRepr.repr_body].
  destruct (repr_char_cases c) as [->|(Hc & (e & He) & HB)].
  - reflexivity.
  - rewrite (contains_skip "B" "UILD_TESTING" _ _ HB). rewrite He.
    change (String PyRepr.backslash e +:+ PyRepr.repr_body quote s)
      with (String PyRepr.backslash (e +:+ PyRepr.repr_body quote s)).
    unfold testing_toggle. rewrite prefix_cons. reflexivity.
Qed.

End Repr.

Lemma contains_repr_str s :
  PyStr.contains testing_toggle (PyRepr.repr_str s) = PyStr.contains testing_toggle s.
Proof.
  unfold PyRepr.repr_str.
  set (quote := if PyRepr.has_char PyRepr.squote s && negb (PyRepr.has_char PyRepr.dquote s)
                then PyRepr.dquote else PyRepr.squote).
  assert (∀ c, repr_char_ok quote c = true) as Hq.
  { intros c. destruct (repr_char_ok_all c). unfold quote. by destruct (_ && _). }
  assert (PyRepr.has_char quote testing_toggle = false) as Hb.
  { unfold quote. by destruct (_ && _). }
  unfold testing_toggle in *.
  rewrite (contains_barrier_head "B" "UILD_TESTING" quote _ Hb).
  rewrite (contains_barrier_last "B" "UILD_TESTING" _ quote Hb).
  by apply contains_repr_body.
Qed.

Lemma contains_join_repr items :
  PyStr.contains testing_toggle (PyStr.join ", " (map PyRepr.repr_str items))
  = existsb (PyStr.contains testing_toggle) items.
Proof.
  induction items as [|x items IH]; [done|].
  destruct items as [|y items].
  - simpl. rewrite orb_false_r. apply contains_repr_str.
  - change (PyStr.join ", " (map PyRepr.repr_str (x :: y :: items)))
      with (PyRepr.repr_str x
            +:+ String "," (String " " (PyStr.join ", " (map PyRepr.repr_str (y :: items))))).
    unfold testing_toggle in *.
    rewrite (contains_barrier "B" "UILD_TESTING" _ "," _ eq_refl).
    rewrite (contains_barrier_head "B" "UILD_TESTING" " " _ eq_refl).
    rewrite IH. fold testing_toggle. rewrite contains_repr_str. reflexivity.
Qed.

(** [BUILD_TESTING] occurs in [str(l)] exactly when it occurs in an item
    of [l]: quotes, escapes and separators neither hide nor make it. *)
Lemma contains_str_list items :
  PyStr.contains "BUILD_TESTING" (PyRepr.str_list items)
  = existsb (PyStr.contains "BUILD_TESTING") items.
Proof.
  unfold PyRepr.str_list.
  change ("[" +:+ PyStr.join ", " (map PyRepr.repr_str items) +:+ "]")
    with (String "[" (PyStr.join ", " (map PyRepr.repr_str items) +:+ String "]" EmptyString)).
  rewrite (contains_barrier_head "B" "UILD_TESTING" "[" _ eq_refl).
  rewrite (contains_barrier_last "B" "UILD_TESTING" _ "]" eq_refl).
  apply contains_join_repr.
Qed.

(** ** The builder and the process it runs in *)

Module BuildResult.
Record t : Type := mk { url : string; success : bool; message : string }.
End BuildResult.

Record Builder : Type := mkBuilder {
  install_prefix : string;
  build_dir : string;
  max_workers : Z;
  build_results : list (string * BuildResult.t);
  built_packages : gset string
}.

Definition set_build_results (r : list (string * BuildResult.t)) (b : Builder) : Builder :=
  {| install_prefix := install_prefix b; build_dir := build_dir b;
     max_workers := max_workers b; build_results := r;
     built_packages := built_packages b |}.

Definition set_built_packages (p : gset string) (b : Builder) : Builder :=
  {| install_prefix := install_prefix b; build_dir := build_dir b;
     max_workers := max_workers b; build_results := build_results b;
     built_packages := p |}.

(** ** Arguments of the CMake configure step *)

Section CMakeArgs.
Variable environ : gmap string string.
Variable self : Builder.
Variable config : Config.

(** The truth value of [config.get("c++")]: absent and [0] are false. *)
Definition cpp_std_set (cpp_std : option Z) : option Z :=
  match cpp_std with
  | Some n => if (n =? 0)%Z then None else Some n
  | None => None
  end.

(** [if "CC" in os.environ] and [if "CXX" in os.environ]. *)
Definition compiler_args : list string :=
  match environ !! "CC" with
  | Some cc => ["-DCMAKE_C_COMPILER=" +:+ cc]
  | None => []
  end
  ++ match environ !! "CXX" with
     | Some cxx => ["-DCMAKE_CXX_COMPILER=" +:+ cxx]
     | None => []
     end.

Definition base_args : list string :=
  [ "-DCMAKE_BUILD_TYPE=" +:+ default "Release" (build_type config);
    "-DCMAKE_INSTALL_PREFIX=" +:+ install_prefix self ].

(** The body of [if dep_name in self.built_packages] for one declared name. *)
Definition discovery_hints (dep_name : string) : list string :=
  [ "-D" +:+ dep_name +:+ "_DIR=" +:+ install_prefix self;
    "-D" +:+ dep_name +:+ "_ROOT=" +:+ install_prefix self;
    "-D" +:+ PyStr.lower dep_name +:+ "_DIR=" +:+ install_prefix self;
    "-D" +:+ PyStr.lower dep_name +:+ "_ROOT=" +:+ install_prefix self ].

(** The loop [for dep_name in dependencies]. *)
Fixpoint dependency_hint_args (deps : list string) : list string :=
  match deps with
  | [] => []
  | dep_name :: rest =>
      (if decide (dep_name ∈ built_packages self) then discovery_hints dep_name else [])
      ++ dependency_hint_args rest
  end.

(** The block [if dependencies: ... else: ...], as far as it appends to
    [args]. *)
Definition dependency_args : list string :=
  match dependencies config with
  | _ :: _ =>
      let cxx_flags := "-I" +:+ install_prefix self +:+ "/include" in
      let linker_flags := "-L" +:+ install_prefix self +:+ "/lib" in
      let cxx_flags :=
        match cpp_std_set (cpp config) with
        | Some n => "-std=c++" +:+ pretty n +:+ " " +:+ cxx_flags
        | None => cxx_flags
        end in
      [ "-DCMAKE_PREFIX_PATH=" +:+ install_prefix self;
        "-DCMAKE_CXX_FLAGS='" +:+ cxx_flags +:+ "'";
        "-DCMAKE_EXE_LINKER_FLAGS='" +:+ linker_flags +:+ "'";
        "-DCMAKE_SHARED_LINKER_FLAGS='" +:+ linker_flags +:+ "'" ]
      ++ dependency_hint_args (dependencies config)
  | [] =>
      match cpp_std_set (cpp config) with
      | Some n => [ "-DCMAKE_CXX_STANDARD=" +:+ pretty n; "-DCMAKE_CXX_STANDARD_REQUIRED=ON" ]
      | None => []
      end
  end.

(** The loop [for define in defines]. *)
Definition define_arg (d : define_item) : list string :=
  match d with
  | DefList [key; value] => ["-D" +:+ key +:+ "=" +:+ value]
  | DefList _ => []
  | DefStr s => ["-D" +:+ s]
  end.

Definition define_args : list string := flat_map define_arg (define config).

(** ["BUILD_TESTING" in str(define)] *)
Definition mentions_build_testing (d : define_item) : bool :=
  PyStr.contains "BUILD_TESTING" (str_define d).

(** [args] before the last step, the default for the tests. *)
Definition args_before_testing : list string :=
  compiler_args ++ base_args ++ dependency_args ++ define_args.

(** [if not any(...): args.append("-DBUILD_TESTING=OFF")] *)
Definition cmake_arg_list : list string :=
  let args := args_before_testing in
  if negb (existsb mentions_build_testing (define config))
  then args ++ ["-DBUILD_TESTING=OFF"]
  else args.

Definition args_separator : string :=
  " " +:+ String PyRepr.backslash (String "010"%char "    ").

End CMakeArgs.

(** ** Reports *)

(** The JSON document handed to [json.dump]. *)
Inductive Json : Type :=
| JStr (s : string)
| JBool (b : bool)
| JObj (fields : list (string * Json)).

Definition newline : string := String "010"%char EmptyString.

Fixpoint repeat_string (s : string) (n : nat) : string :=
  match n with
  | O => EmptyString
  | S n' => s +:+ repeat_string s n'
  end.

(** [self.build_results] as [json.dump] sees it: a dict of dicts. *)
Definition json_report (results : list (string * BuildResult.t)) : Json :=
  JObj (map (fun item : string * BuildResult.t =>
               let (package, result) := item in
               (package, JObj [ ("url", JStr (BuildResult.url result));
                                ("success", JBool (BuildResult.success result));
                                ("message", JStr (BuildResult.message result)) ]))
            results).

(** One round of the loop [for package, result in self.build_results.items()]
    on the text written so far and the two counters. *)
Definition report_step (acc : string * nat * nat) (item : string * BuildResult.t)
    : string * nat * nat :=
  let '(f, successful, failed) := acc in
  let (package, result) := item in
  let status := if BuildResult.success result then "SUCCESS" else "FAILED" in
  let f := f +:+ package +:+ ": " +:+ status +:+ newline in
  let f := f +:+ "  URL: " +:+ BuildResult.url result +:+ newline in
  let f := f +:+ "  Message: " +:+ BuildResult.message result +:+ newline +:+ newline in
  if BuildResult.success result then (f, S successful, failed)
  else (f, successful, S failed).

Definition report_header : string :=
  "Build Report" +:+ newline +:+ repeat_string "=" 50 +:+ newline +:+ newline.

(** All that is written to [build_report.txt]. *)
Definition text_report (results : list (string * BuildResult.t)) : string :=
  let '(f, successful, failed) := fold_left report_step results (report_header, 0%nat, 0%nat) in
  f +:+ "Summary: " +:+ pretty successful +:+ " successful, " +:+ pretty failed
    +:+ " failed" +:+ newline.

(** [json.dumps(doc, indent=2)], with the defaults of [json.dump] for the
    rest: a character outside the range from the space to the tilde, the
    double quote and the backslash are escaped ([ensure_ascii]); the members
    of an object stand one per line, two spaces deeper than the object. *)
Definition json_escape_char (c : ascii) : string :=
  let n := nat_of_ascii c in
  if (n =? 34)%nat then String PyRepr.backslash (String PyRepr.dquote EmptyString)
  else if (n =? 92)%nat then String PyRepr.backslash (String PyRepr.backslash EmptyString)
  else if (n =? 8)%nat then String PyRepr.backslash "b"
  else if (n =? 9)%nat then String PyRepr.backslash "t"
  else if (n =? 10)%nat then String PyRepr.backslash "n"
  else if (n =? 12)%nat then String PyRepr.backslash "f"
  else if (n =? 13)%nat then String PyRepr.backslash "r"
  else if ((n <? 32) || (126 <? n))%nat
       then String PyRepr.backslash
              ("u00" +:+ String (PyRepr.hex_digit (n / 16))
                           (String (PyRepr.hex_digit (n mod 16)) EmptyString))
  else String c EmptyString.

Fixpoint json_escape (s : string) : string :=
  match s with
  | EmptyString => EmptyString
  | String c s' => json_escape_char c +:+ json_escape s'
  end.

Definition json_string (s : string) : string :=
  String PyRepr.dquote (json_escape s +:+ String PyRepr.dquote EmptyString).

Fixpoint json_encode (level : nat) (doc : Json) : string :=
  match doc with
  | JStr s => json_string s
  | JBool b => if b then "true" else "false"
  | JObj [] => "{}"
  | JObj fields =>
      let newline_indent := newline +:+ repeat_string "  " (S level) in
      "{" +:+ newline_indent
      +:+ PyStr.join ("," +:+ newline_indent)
            (map (fun member : string * Json =>
                    let (key, value) := member in
                    json_string key +:+ ": " +:+ json_encode (S level) value)
                 fields)
      +:+ newline +:+ repeat_string "  " level +:+ "}"
  end.

Definition json_dumps (doc : Json) : string := json_encode 0 doc.

(** ** The orchestrator *)

Definition APT : list string :=
  [ "build-essential"; "cmake"; "git"; "pkg-config"; "autoconf"; "automake";
    "libtool"; "wget"; "curl"; "python3"; "python3-pip";
    "libssl-dev"; "zlib1g-dev"; "ca-certificates";
    "libprotobuf-dev"; "protobuf-compiler-grpc"; "libgrpc++-dev"; "libgrpc-dev";
    "libunwind-dev"; "gcc-10"; "g++-10"; "libcpprest-dev"; "libnl-3-dev";
    "libnl-route-3-dev" ].

Definition CPU_COUNT : Z := 4.

(** Command-line arguments of [main] after [argparse]. *)
Record Args : Type := mkArgs {
  arg_install_prefix : string;
  arg_build_dir : string;
  arg_output_dir : string;
  arg_max_workers : Z
}.

Section Orchestrator.

(** The operating system: the state outside the Python process, and the
    library calls of [pack.py] that read or change it. A call that can raise
    returns [None] when it does ([OSError]). [path_mkdir parents p] is
    [p.mkdir(parents=parents, exist_ok=True)]. *)
Variable World : Type.
Variable os_system : string -> gmap string string -> World -> Z * World.
Variable os_getcwd : World -> string.
Variable os_chdir : string -> World -> option World.
Variable os_path_exists : string -> World -> bool.
Variable os_access_x : string -> World -> bool.
Variable path_mkdir : bool -> string -> World -> option World.
Variable write_file : string -> string -> World -> option World.
Variable shutil_copy : string -> string -> World -> option World.

(** [pathlib]: [str(Path(s))], and [str(p / name)]; [os.path.join] on the
    paths of [setup_compiler_environment] is the same operation. *)
Variable path_of : string -> string.
Variable path_join : string -> string -> string.

(** [argparse]: [parser.parse_args()] on the arguments of the command line,
    for the parser that [main] builds. It returns the namespace, or leaves
    the process by [SystemExit] with the status given: 0 after printing the
    help, 2 on arguments it refuses. *)
Variable parse_args : list string -> Z + Args.

(** The Python process: the [Builder] object, [os.environ], the warnings
    handed to the logger, and the world outside. *)
Record State : Type := mkState {
  self : Builder;
  environ : gmap string string;
  logged : list string;
  world : World
}.

Definition set_self (b : Builder) (s : State) : State :=
  {| self := b; environ := environ s; logged := logged s; world := world s |}.
Definition set_environ (e : gmap string string) (s : State) : State :=
  {| self := self s; environ := e; logged := logged s; world := world s |}.
Definition set_logged (l : list string) (s : State) : State :=
  {| self := self s; environ := environ s; logged := l; world := world s |}.
Definition set_world (w : World) (s : State) : State :=
  {| self := self s; environ := environ s; logged := logged s; world := w |}.

(** A computation that may raise: the exception or the value, and the state
    it leaves. *)
Definition M (A : Type) : Type := State -> (exn + A) * State.

Definition ret {A} (a : A) : M A := fun s => (inr a, s).

Definition bind {A B} (m : M A) (k : A -> M B) : M B :=
  fun s => match m s with
           | (inl e, s') => (inl e, s')
           | (inr a, s') => k a s'
           end.

Definition raise {A} (e : exn) : M A := fun s => (inl e, s).

Notation "x <- m ;; k" := (bind m (fun x => k))
  (at level 100, m at next level, right associativity).
Notation "m ;;; k" := (bind m (fun _ => k))
  (at level 100, right associativity).

(** [SystemExit] derives from [BaseException] only. *)
Definition is_Exception (e : exn) : bool :=
  match e with SystemExit _ => false | _ => true end.

(** [try: body except Exception as e: handler(e)] *)
Definition try_except {A} (body : M A) (handler : exn -> M A) : M A :=
  fun s => match body s with
           | (inl e, s') => if is_Exception e then handler e s' else (inl e, s')
           | r => r
           end.

Definition warn (msg : string) : M unit :=
  fun s => (inr tt, set_logged (logged s ++ [msg]) s).

Definition in_world (f : World -> option World) : M unit :=
  fun s => match f (world s) with
           | Some w => (inr tt, set_world w s)
           | None => (inl OSError, s)
           end.

Definition exists_ (path : string) : M bool :=
  fun s => (inr (os_path_exists path (world s)), s).

Definition system (cmd : string) : M Z :=
  fun s => let (r, w) := os_system cmd (environ s) (world s) in (inr r, set_world w s).

(** [Builder.run_command] *)
Definition run_command (cmd : string) (cwd : option string) (check : bool) : M Z :=
  result <- match cwd with
            | Some (String _ _ as dir) =>
                original_cwd <- (fun s => (inr (os_getcwd (world s)), s)) ;;
                in_world (os_chdir dir) ;;;
                result <- system cmd ;;
                in_world (os_chdir original_cwd) ;;;
                ret result
            | _ => system cmd
            end ;;
  if check && negb (result =? 0)%Z then raise (CalledProcessError result cmd)
  else ret result.

(** [Builder.install_apt_packages] *)
Definition install_apt_packages : M unit :=
  run_command "apt-get update" None true ;;;
  run_command ("apt-get install -y " +:+ PyStr.join " " APT) None true ;;;
  ret tt.

(** [Builder.clone_repository] *)
Definition clone_repository (url branch target_dir : string) : M bool :=
  try_except
    (present <- exists_ target_dir ;;
     (if present : bool then run_command "git pull" (Some target_dir) true
      else run_command ("git clone -b " +:+ branch +:+ " " +:+ url +:+ " " +:+ target_dir)
             None true) ;;;
     ret true)
    (fun _ => ret false).

(** The block of [generate_cmake_args] and of [build_autotools_project] that
    extends [PKG_CONFIG_PATH]. *)
Definition add_pkgconfig_path : M unit :=
  fun s =>
    let pkgconfig_path := install_prefix (self s) +:+ "/lib/pkgconfig" in
    if os_path_exists pkgconfig_path (world s) then
      let current_pkg_config := default EmptyString (environ s !! "PKG_CONFIG_PATH") in
      if negb (PyStr.contains pkgconfig_path current_pkg_config) then
        if PyStr.truthy current_pkg_config
        then (inr tt, set_environ (<["PKG_CONFIG_PATH" := current_pkg_config +:+ ":" +:+ pkgconfig_path]> (environ s)) s)
        else (inr tt, set_environ (<["PKG_CONFIG_PATH" := pkgconfig_path]> (environ s)) s)
      else (inr tt, s)
    else (inr tt, s).

(** [Builder.generate_cmake_args] *)
Definition generate_cmake_args (config : Config) : M string :=
  fun s =>
    let args := cmake_arg_list (environ s) (self s) config in
    let (_, s') := match dependencies config with
                   | _ :: _ => add_pkgconfig_path s
                   | [] => (inr tt, s)
                   end in
    (inr (PyStr.join args_separator args), s').

Definition mark_built (package_name : string) : M unit :=
  fun s => (inr tt, set_self (set_built_packages (built_packages (self s) ∪ {[package_name]}) (self s)) s).

(** [Builder.build_cmake_project] *)
Definition build_cmake_project (source_dir package_name : string) (config : Config) : M bool :=
  try_except
    (let build_dir := path_join source_dir "build" in
     in_world (path_mkdir false build_dir) ;;;
     cmake_args <- generate_cmake_args config ;;
     let cmake_cmd := "cmake .. " +:+ String PyRepr.backslash (String "010"%char "    ")
                      +:+ cmake_args in
     run_command cmake_cmd (Some build_dir) true ;;;
     run_command ("make -j" +:+ pretty CPU_COUNT) (Some build_dir) true ;;;
     run_command "make install" (Some build_dir) true ;;;
     mark_built package_name ;;;
     ret true)
    (fun _ => ret false).

Definition getenv (key : string) : M (option string) :=
  fun s => (inr (environ s !! key), s).

(** [Builder.build_autotools_project] *)
Definition build_autotools_project (source_dir package_name : string) (config : Config)
    : M bool :=
  try_except
    (has_autogen <- exists_ (path_join source_dir "autogen.sh") ;;
     (if has_autogen : bool then run_command "./autogen.sh" (Some source_dir) true ;;; ret tt
      else
        has_ac <- exists_ (path_join source_dir "configure.ac") ;;
        has_in <- exists_ (path_join source_dir "configure.in") ;;
        if has_ac || has_in
        then run_command "autoreconf -fiv" (Some source_dir) true ;;; ret tt
        else ret tt) ;;;
     prefix <- (fun s => (inr (install_prefix (self s)), s)) ;;
     let configure_cmd := "./configure --prefix=" +:+ prefix in
     cc <- getenv "CC" ;;
     let configure_cmd :=
       match cc with Some v => configure_cmd +:+ " CC=" +:+ v | None => configure_cmd end in
     cxx <- getenv "CXX" ;;
     let configure_cmd :=
       match cxx with Some v => configure_cmd +:+ " CXX=" +:+ v | None => configure_cmd end in
     configure_cmd <-
       match dependencies config with
       | _ :: _ =>
           let cppflags := "-I" +:+ prefix +:+ "/include" in
           let ldflags := "-L" +:+ prefix +:+ "/lib" in
           existing_cppflags <- getenv "CPPFLAGS" ;;
           existing_ldflags <- getenv "LDFLAGS" ;;
           let existing_cppflags := default EmptyString existing_cppflags in
           let existing_ldflags := default EmptyString existing_ldflags in
           let cppflags := if PyStr.truthy existing_cppflags
                           then existing_cppflags +:+ " " +:+ cppflags else cppflags in
           let ldflags := if PyStr.truthy existing_ldflags
                          then existing_ldflags +:+ " " +:+ ldflags else ldflags in
           let configure_cmd := configure_cmd +:+ " CPPFLAGS='" +:+ cppflags +:+ "'" in
           let configure_cmd := configure_cmd +:+ " LDFLAGS='" +:+ ldflags +:+ "'" in
           add_pkgconfig_path ;;;
           ret configure_cmd
       | [] => ret configure_cmd
       end ;;
     let configure_cmd :=
       match cpp_std_set (cpp config) with
       | Some n =>
           let cxxflags := "-std=c++" +:+ pretty n in
           if PyStr.contains "CXXFLAGS" configure_cmd
           then PyStr.replace "CXXFLAGS='" ("CXXFLAGS='" +:+ cxxflags +:+ " ") configure_cmd
           else configure_cmd +:+ " CXXFLAGS='" +:+ cxxflags +:+ "'"
       | None => configure_cmd
       end in
     run_command configure_cmd (Some source_dir) true ;;;
     run_command ("make -j" +:+ pretty CPU_COUNT) (Some source_dir) true ;;;
     run_command "make install" (Some source_dir) true ;;;
     mark_built package_name ;;;
     ret true)
    (fun _ => ret false).

(** [Builder.build_package]: the triple [(package_name, success, message)]. *)
Definition build_package (url : string) (config : Config) : M (string * bool * string) :=
  let package_name := get_package_name url in
  source_dir <- (fun s => (inr (path_join (build_dir (self s)) package_name), s)) ;;
  let branch := default "master" (branch config) in
  cloned <- clone_repository url branch source_dir ;;
  if negb cloned then ret (package_name, false, "Failed to clone repository")
  else
    run_command "ldconfig" None true ;;;
    has_cmake <- exists_ (path_join source_dir "CMakeLists.txt") ;;
    success <-
      (if has_cmake : bool then build_cmake_project source_dir package_name config
       else
         has_configure <- exists_ (path_join source_dir "configure") ;;
         has_autogen <- exists_ (path_join source_dir "autogen.sh") ;;
         if has_configure || has_autogen
         then build_autotools_project source_dir package_name config
         else
           warn ("Unknown build system for " +:+ package_name +:+ ", trying CMake...") ;;;
           build_cmake_project source_dir package_name config) ;;
    if success : bool then ret (package_name, true, "Built successfully")
    else ret (package_name, false, "Build failed").

(** The test [if gcc_10_path:] on a path that starts as [None]. *)
Definition path_found (path : option string) : option string :=
  match path with
  | Some p => if PyStr.truthy p then Some p else None
  | None => None
  end.

(** The loop over [common_paths] of [setup_compiler_environment], on the
    paths found so far. *)
Fixpoint find_compilers (w : World) (paths : list string) (gcc gxx : option string)
    : option string * option string :=
  match paths with
  | [] => (gcc, gxx)
  | path :: rest =>
      let gcc_candidate := path_join path "gcc-10" in
      let gxx_candidate := path_join path "g++-10" in
      let gcc := if os_path_exists gcc_candidate w && os_access_x gcc_candidate w
                 then Some gcc_candidate else gcc in
      let gxx := if os_path_exists gxx_candidate w && os_access_x gxx_candidate w
                 then Some gxx_candidate else gxx in
      match path_found gcc, path_found gxx with
      | Some _, Some _ => (gcc, gxx)
      | _, _ => find_compilers w rest gcc gxx
      end
  end.

Definition setenv (key value : string) : M unit :=
  fun s => (inr tt, set_environ (<[key := value]> (environ s)) s).

(** [Builder.setup_compiler_environment] *)
Definition setup_compiler_environment : M unit :=
  found <- (fun s => (inr (find_compilers (world s)
                             ["/usr/bin"; "/usr/local/bin"; "/opt/gcc/bin"] None None), s)) ;;
  let gcc_10_path := path_found (fst found) in
  let gxx_10_path := path_found (snd found) in
  match gcc_10_path with
  | Some p => setenv "CC" p
  | None => warn "gcc-10 not found, using system default"
  end ;;;
  match gxx_10_path with
  | Some p => setenv "CXX" p
  | None => warn "g++-10 not found, using system default"
  end ;;;
  match gcc_10_path with
  | Some p => system (p +:+ " --version") ;;; ret tt
  | None => ret tt
  end ;;;
  match gxx_10_path with
  | Some p => system (p +:+ " --version") ;;; ret tt
  | None => ret tt
  end.

(** The method [resolve_dependencies] as a computation of the process: it
    hands its warnings to the logger and touches nothing else. The result
    always exists ([resolve_dependencies_total]); the last case is never
    taken. *)
Definition run_resolve_dependencies (packages : Packs) : M (list string) :=
  fun s =>
    match resolve_dependencies packages with
    | Some (w, inl e) => (inl e, set_logged (logged s ++ w) s)
    | Some (w, inr order) => (inr order, set_logged (logged s ++ w) s)
    | None => (inl (ValueError EmptyString), s)
    end.

Definition record_result (package_name url : string) (success : bool) (message : string)
    : M unit :=
  fun s =>
    (inr tt,
     set_self (set_build_results
                 (Dict.set (build_results (self s)) package_name
                    {| BuildResult.url := url; BuildResult.success := success;
                       BuildResult.message := message |})
                 (self s)) s).

(** The loop [for url in build_order] of [build_all_packages], with its
    [break]; [PACKS[url]] raises [KeyError] on a URL that is not a key. *)
Fixpoint build_loop (packs : Packs) (build_order : list string) : M unit :=
  match build_order with
  | [] => ret tt
  | url :: rest =>
      match Dict.get packs url with
      | None => raise KeyError
      | Some config =>
          r <- build_package url config ;;
          let '(package_name, success, message) := r in
          record_result package_name url success message ;;;
          if negb success then ret tt else build_loop packs rest
      end
  end.

(** [Builder.build_all_packages], on the registry [packs] for [PACKS]. *)
Definition build_all_packages (packs : Packs) : M (list (string * BuildResult.t)) :=
  install_apt_packages ;;;
  setup_compiler_environment ;;;
  fun s =>
    match run_resolve_dependencies packs s with
    | (inl (ValueError _), s') => (inr [], s')
    | (inl e, s') => (inl e, s')
    | (inr build_order, s') =>
        (build_loop packs build_order ;;;
         run_command "ldconfig" None true ;;;
         fun s => (inr (build_results (self s)), s)) s'
    end.

(** [Builder.generate_report] *)
Definition generate_report (output_dir : string) : M unit :=
  in_world (path_mkdir true output_dir) ;;;
  results <- (fun s => (inr (build_results (self s)), s)) ;;
  in_world (write_file (path_join output_dir "build_report.json")
              (json_dumps (json_report results))) ;;;
  in_world (write_file (path_join output_dir "build_report.txt") (text_report results)) ;;;
  has_log <- exists_ "build.log" ;;
  if has_log : bool
  then in_world (shutil_copy "build.log" (path_join output_dir "build.log"))
  else ret tt.

(** [sum(1 for r in results.values() if r["success"])] *)
Definition count_successful (results : list (string * BuildResult.t)) : nat :=
  length (filter (fun r => BuildResult.success r = true) (Dict.values results)).

(** The body of the [try] of [main] after the builder exists; it ends in
    [sys.exit]. *)
Definition main_body (args : Args) (packs : Packs) : M unit :=
  results <- build_all_packages packs ;;
  generate_report (path_of (arg_output_dir args)) ;;;
  let successful := count_successful results in
  let total := length results in
  if (successful =? total)%nat then raise (SystemExit 0) else raise (SystemExit 1).

(** The [try] statement of [main] on the parsed arguments: the exit status
    of the process, from the environment and the world it starts in.
    [Builder(...)] creates the build directory, which can raise inside the
    [try] already. *)
Definition main_try (args : Args) (packs : Packs) (environ0 : gmap string string) (w0 : World)
    : Z :=
  match path_mkdir false (path_of (arg_build_dir args)) w0 with
  | None => 1
  | Some w1 =>
      let builder :=
        {| install_prefix := arg_install_prefix args;
           build_dir := path_of (arg_build_dir args);
           max_workers := arg_max_workers args;
           build_results := [];
           built_packages := ∅ |} in
      let s := {| self := builder; environ := environ0; logged := []; world := w1 |} in
      match try_except (main_body args packs) (fun _ => raise (SystemExit 1)) s with
      | (inl (SystemExit code), _) => code
      | (inl _, _) => 1
      | (inr _, _) => 0
      end
  end.

(** [main]: the exit status of the process. [parser.parse_args()] stands
    before the [try]: when it leaves the process, nothing else is run. *)
Definition main (argv : list string) (packs : Packs) (environ0 : gmap string string)
    (w0 : World) : Z :=
  match parse_args argv with
  | inl status => status
  | inr args => main_try args packs environ0 w0
  end.

(** ** Properties of [generate_cmake_args] *)

(** The value returned is the joined [args] list, whatever happens to
    [PKG_CONFIG_PATH]. *)
Lemma generate_cmake_args_value config s :
  fst (generate_cmake_args config s)
  = inr (PyStr.join args_separator (cmake_arg_list (environ s) (self s) config)).
Proof.
  unfold generate_cmake_args. destruct (dependencies config); [reflexivity|].
  destruct (add_pkgconfig_path s). reflexivity.
Qed.

Lemma add_pkgconfig_path_frame s :
  let s' := snd (add_pkgconfig_path s) in
  self s' = self s ∧ world s' = world s ∧ logged s' = logged s
  ∧ ∀ k, k ≠ "PKG_CONFIG_PATH" → environ s' !! k = environ s !! k.
Proof.
  unfold add_pkgconfig_path.
  destruct (os_path_exists _ _); [|done].
  destruct (negb _); [|done].
  destruct (PyStr.truthy _); simpl; split_and!; try done;
    intros k Hk; by rewrite lookup_insert_ne.
Qed.

Lemma generate_cmake_args_frame config s :
  let s' := snd (generate_cmake_args config s) in
  self s' = self s ∧ world s' = world s ∧ logged s' = logged s
  ∧ ∀ k, k ≠ "PKG_CONFIG_PATH" → environ s' !! k = environ s !! k.
Proof.
  unfold generate_cmake_args. destruct (dependencies config); [done|].
  pose proof (add_pkgconfig_path_frame s) as H.
  destruct (add_pkgconfig_path s). exact H.
Qed.

Lemma compiler_args_ext (e1 e2 : gmap string string) :
  e1 !! "CC" = e2 !! "CC" → e1 !! "CXX" = e2 !! "CXX" →
  compiler_args e1 = compiler_args e2.
Proof. unfold compiler_args. by intros -> ->. Qed.

Lemma dependency_hint_args_ext b1 b2 deps :
  install_prefix b1 = install_prefix b2 → built_packages b1 = built_packages b2 →
  dependency_hint_args b1 deps = dependency_hint_args b2 deps.
Proof.
  intros Hp Hb. induction deps as [|d deps IH]; simpl; [done|].
  unfold discovery_hints. by rewrite Hp, Hb, IH.
Qed.

Lemma cmake_arg_list_ext e1 e2 b1 b2 config :
  e1 !! "CC" = e2 !! "CC" → e1 !! "CXX" = e2 !! "CXX" →
  install_prefix b1 = install_prefix b2 → built_packages b1 = built_packages b2 →
  cmake_arg_list e1 b1 config = cmake_arg_list e2 b2 config.
Proof.
  intros Hcc Hcxx Hp Hb.
  unfold cmake_arg_list, args_before_testing, base_args, dependency_args.
  by rewrite (compiler_args_ext e1 e2), (dependency_hint_args_ext b1 b2), Hp.
Qed.

(** The loop over the declared names emits the four hints of each name in
    [built_packages], in order, and nothing else. *)
Lemma dependency_hint_args_filter b deps :
  dependency_hint_args b deps
  = flat_map (discovery_hints b) (filter (λ d, d ∈ built_packages b) deps).
Proof.
  induction deps as [|d deps IH]; [done|].
  simpl. rewrite filter_cons. destruct (decide (d ∈ built_packages b)).
  - simpl. by rewrite IH.
  - by rewrite IH.
Qed.

Lemma dependency_hint_args_none b deps :
  dependency_hint_args (set_built_packages ∅ b) deps = [].
Proof.
  induction deps as [|d deps IH]; [done|].
  cbn [dependency_hint_args]. rewrite IH.
  destruct (decide (d ∈ built_packages (set_built_packages ∅ b))) as [Hd|_]; [|done].
  by apply not_elem_of_empty in Hd.
Qed.

(** The hints are appended after everything else the dependency block
    contributes. *)
Lemma dependency_args_split b config :
  dependency_args b config
  = dependency_args (set_built_packages ∅ b) config
    ++ dependency_hint_args b (dependencies config).
Proof.
  unfold dependency_args. rewrite dependency_hint_args_none.
  change (install_prefix (set_built_packages ∅ b)) with (install_prefix b).
  destruct (dependencies config) as [|d deps].
  - change (dependency_hint_args b []) with (@nil string). by rewrite app_nil_r.
  - by rewrite app_nil_r.
Qed.

(** C4 (as amended). The string returned by [generate_cmake_args] is
    determined by the config, the set of built packages, the install prefix
    and the variables [CC] and [CXX] of the process environment: two calls
    that agree on these return the same string. The call leaves the builder,
    the world outside and the log as they are, and of the environment it can
    change [PKG_CONFIG_PATH] only. *)
Theorem generate_cmake_args_deterministic config (s1 s2 : State) :
  install_prefix (self s1) = install_prefix (self s2) →
  built_packages (self s1) = built_packages (self s2) →
  environ s1 !! "CC" = environ s2 !! "CC" →
  environ s1 !! "CXX" = environ s2 !! "CXX" →
  fst (generate_cmake_args config s1) = fst (generate_cmake_args config s2)
  ∧ self (snd (generate_cmake_args config s1)) = self s1
  ∧ world (snd (generate_cmake_args config s1)) = world s1
  ∧ (∀ k, k ≠ "PKG_CONFIG_PATH" →
          environ (snd (generate_cmake_args config s1)) !! k = environ s1 !! k)
  ∧ logged (snd (generate_cmake_args config s1)) = logged s1
  ∧ (dependencies config = [] → snd (generate_cmake_args config s1) = s1).
Proof.
  intros Hp Hb Hcc Hcxx. rewrite !generate_cmake_args_value.
  rewrite (cmake_arg_list_ext _ _ _ _ config Hcc Hcxx Hp Hb).
  destruct (generate_cmake_args_frame config s1) as (H1 & H2 & H3 & H4).
  split_and!; try done.
  intros Hdeps. unfold generate_cmake_args. by rewrite Hdeps.
Qed.

(** C5. The arguments of [generate_cmake_args] depend on the set of built
    packages through one block only: for each declared dependency name that
    is in the set, in order, the four defines [_DIR] and [_ROOT] under the
    name as declared and under its lower-cased form, each set to the install
    prefix; a declared name that is not in the set contributes nothing. *)
Theorem generate_cmake_args_discovery_hints config (s : State) :
  ∃ pre post : list string, ∀ built : gset string,
    fst (generate_cmake_args config (set_self (set_built_packages built (self s)) s))
    = inr (PyStr.join args_separator
             (pre
              ++ flat_map (λ dep_name,
                   [ "-D" +:+ dep_name +:+ "_DIR=" +:+ install_prefix (self s);
                     "-D" +:+ dep_name +:+ "_ROOT=" +:+ install_prefix (self s);
                     "-D" +:+ PyStr.lower dep_name +:+ "_DIR=" +:+ install_prefix (self s);
                     "-D" +:+ PyStr.lower dep_name +:+ "_ROOT=" +:+ install_prefix (self s) ])
                   (filter (λ dep_name, dep_name ∈ built) (dependencies config))
              ++ post)).
Proof.
  exists (compiler_args (environ s) ++ base_args (self s) config
          ++ dependency_args (set_built_packages ∅ (self s)) config),
         (define_args config
          ++ if negb (existsb mentions_build_testing (define config))
             then ["-DBUILD_TESTING=OFF"] else []).
  intros built. rewrite generate_cmake_args_value. do 2 f_equal.
  change (cmake_arg_list (environ s) (set_built_packages built (self s)) config
          = (compiler_args (environ s) ++ base_args (self s) config
             ++ dependency_args (set_built_packages ∅ (self s)) config)
            ++ flat_map (discovery_hints (set_built_packages built (self s)))
                 (filter (λ d, d ∈ built_packages (set_built_packages built (self s)))
                    (dependencies config))
            ++ define_args config
            ++ (if negb (existsb mentions_build_testing (define config))
                then ["-DBUILD_TESTING=OFF"] else [])).
  rewrite <- dependency_hint_args_filter.
  unfold cmake_arg_list, args_before_testing.
  rewrite (dependency_args_split (set_built_packages built (self s))).
  change (dependency_args (set_built_packages ∅ (set_built_packages built (self s))) config)
    with (dependency_args (set_built_packages ∅ (self s)) config).
  change (base_args (set_built_packages built (self s)) config)
    with (base_args (self s) config).
  destruct (negb _); rewrite <- ?app_assoc, ?app_nil_r; reflexivity.
Qed.

(** The last step of [generate_cmake_args] by the test the code makes. *)
Lemma cmake_arg_list_testing config (s : State) :
  let before := args_before_testing (environ s) (self s) config in
  let args := cmake_arg_list (environ s) (self s) config in
  fst (generate_cmake_args config s) = inr (PyStr.join args_separator args)
  ∧ (args = before ++ ["-DBUILD_TESTING=OFF"]
     ↔ ∀ d, d ∈ define config → mentions_build_testing d = false)
  ∧ (args = before
     ↔ ∃ d, d ∈ define config ∧ mentions_build_testing d = true).
Proof.
  simpl. split; [apply generate_cmake_args_value|].
  unfold cmake_arg_list.
  destruct (existsb mentions_build_testing (define config)) eqn:He; simpl.
  - apply existsb_exists in He as (d & Hd & Hm). apply list_elem_of_In in Hd.
    split; split.
    + intros Heq. apply (f_equal length) in Heq. rewrite length_app in Heq.
      simpl in Heq. lia.
    + intros Hall. rewrite (Hall d Hd) in Hm. done.
    + eauto.
    + done.
  - split; split.
    + intros _ d Hd. apply list_elem_of_In in Hd.
      destruct (mentions_build_testing d) eqn:Hm; [|done].
      assert (existsb mentions_build_testing (define config) = true) as Hex
        by (apply existsb_exists; eauto).
      congruence.
    + done.
    + intros Heq. apply (f_equal length) in Heq. rewrite length_app in Heq.
      simpl in Heq. lia.
    + intros (d & Hd & Hm). apply list_elem_of_In in Hd.
      assert (existsb mentions_build_testing (define config) = true) as Hex
        by (apply existsb_exists; eauto).
      congruence.
Qed.

(** C8. [generate_cmake_args] appends [-DBUILD_TESTING=OFF] to the arguments
    it has collected exactly when no declared define mentions the toggle;
    when one does, nothing is appended. A define mentions the toggle when
    the text [BUILD_TESTING] occurs in [str(define)]: that is, in the define
    itself when it is one string, and in one of its items when it is a list,
    whatever the number of items. *)
Theorem generate_cmake_args_default_testing config (s : State) :
  let before := args_before_testing (environ s) (self s) config in
  let args := cmake_arg_list (environ s) (self s) config in
  let mentions (d : define_item) : bool :=
    match d with
    | DefStr text => PyStr.contains "BUILD_TESTING" text
    | DefList items => existsb (PyStr.contains "BUILD_TESTING") items
    end in
  fst (generate_cmake_args config s) = inr (PyStr.join args_separator args)
  ∧ (∀ d, PyStr.contains "BUILD_TESTING" (str_define d) = mentions d)
  ∧ (args = before ++ ["-DBUILD_TESTING=OFF"]
     ↔ ∀ d, d ∈ define config → mentions d = false)
  ∧ (args = before
     ↔ ∃ d, d ∈ define config ∧ mentions d = true).
Proof.
  cbn zeta.
  assert (∀ d, mentions_build_testing d
               = match d with
                 | DefStr text => PyStr.contains "BUILD_TESTING" text
                 | DefList items => existsb (PyStr.contains "BUILD_TESTING") items
                 end) as Hm.
  { intros [items|text]; unfold mentions_build_testing, str_define; [|done].
    apply contains_str_list. }
  destruct (cmake_arg_list_testing config s) as (Hvalue & Hoff & Hkeep).
  split_and!.
  - exact Hvalue.
  - intros d. rewrite <- Hm. reflexivity.
  - rewrite Hoff. split; intros H d Hd; specialize (H d Hd); by rewrite ?Hm, <- ?Hm in *.
  - rewrite Hkeep. split; intros (d & Hd & H); exists d; by rewrite ?Hm, <- ?Hm in *.
Qed.

(** ** Properties of the orchestrator *)

(** A computation that leaves [self.build_results] as it is. *)
Definition keeps_results {A} (m : M A) : Prop :=
  ∀ s, build_results (self (snd (m s))) = build_results (self s).

Lemma keeps_ret {A} (a : A) : keeps_results (ret a).
Proof. by intros s. Qed.

Lemma keeps_raise {A} e : keeps_results (@raise A e).
Proof. by intros s. Qed.

Lemma keeps_bind {A B} (m : M A) (k : A → M B) :
  keeps_results m → (∀ a, keeps_results (k a)) → keeps_results (bind m k).
Proof.
  intros Hm Hk s. unfold bind. specialize (Hm s).
  destruct (m s) as [[e|a] s1]; simpl in *; [done|].
  by rewrite Hk.
Qed.

Lemma keeps_try_except {A} (body : M A) handler :
  keeps_results body → (∀ e, keeps_results (handler e)) →
  keeps_results (try_except body handler).
Proof.
  intros Hb Hh s. unfold try_except. specialize (Hb s).
  destruct (body s) as [[e|a] s1]; simpl in *; [|done].
  destruct (is_Exception e); [|done]. by rewrite Hh.
Qed.

Lemma keeps_in_world f : keeps_results (in_world f).
Proof. intros s. unfold in_world. by destruct (f (world s)). Qed.

Lemma keeps_system cmd : keeps_results (system cmd).
Proof. intros s. unfold system. by destruct (os_system cmd (environ s) (world s)). Qed.

Lemma keeps_add_pkgconfig_path : keeps_results add_pkgconfig_path.
Proof. intros s. by destruct (add_pkgconfig_path_frame s) as [-> _]. Qed.

Lemma keeps_generate_cmake_args config : keeps_results (generate_cmake_args config).
Proof. intros s. by destruct (generate_cmake_args_frame config s) as [-> _]. Qed.

(** Splits a goal [keeps_results m] along the structure of [m]. *)
Ltac keeps :=
  repeat first
    [ apply keeps_bind; [|intros ?]
    | apply keeps_try_except; [|intros ?]
    | apply keeps_ret
    | apply keeps_raise
    | apply keeps_in_world
    | apply keeps_system
    | apply keeps_add_pkgconfig_path
    | apply keeps_generate_cmake_args
    | assumption
    | match goal with
      | |- keeps_results (match ?x with _ => _ end) => destruct x
      end
    | (intros ?; reflexivity) ].

Lemma keeps_run_command cmd cwd check : keeps_results (run_command cmd cwd check).
Proof. unfold run_command. keeps. Qed.

Lemma keeps_install_apt_packages : keeps_results install_apt_packages.
Proof. unfold install_apt_packages. pose proof keeps_run_command. keeps. Qed.

Lemma keeps_clone_repository url branch target_dir :
  keeps_results (clone_repository url branch target_dir).
Proof. unfold clone_repository. pose proof keeps_run_command. keeps. Qed.

Lemma keeps_build_cmake_project source_dir package_name config :
  keeps_results (build_cmake_project source_dir package_name config).
Proof.
  unfold build_cmake_project, mark_built. pose proof keeps_run_command. keeps.
Qed.

Lemma keeps_build_autotools_project source_dir package_name config :
  keeps_results (build_autotools_project source_dir package_name config).
Proof.
  unfold build_autotools_project, mark_built, getenv, exists_.
  pose proof keeps_run_command. keeps.
Qed.

Lemma keeps_build_package url config : keeps_results (build_package url config).
Proof.
  unfold build_package, warn, exists_.
  pose proof keeps_run_command. pose proof keeps_clone_repository.
  pose proof keeps_build_cmake_project. pose proof keeps_build_autotools_project.
  keeps.
Qed.

Lemma keeps_setup_compiler_environment : keeps_results setup_compiler_environment.
Proof. unfold setup_compiler_environment, setenv, warn. keeps. Qed.

Lemma bind_inr {A B} (m : M A) (k : A → M B) s b s' :
  bind m k s = (inr b, s') → ∃ a s1, m s = (inr a, s1) ∧ k a s1 = (inr b, s').
Proof.
  unfold bind. destruct (m s) as [[e|a] s1]; [done|]. eauto.
Qed.

(** [build_package] reports under the derived name of the URL, with one of
    three messages. *)
Lemma build_package_returns url config s package_name success message s' :
  build_package url config s = (inr (package_name, success, message), s') →
  package_name = get_package_name url
  ∧ (success = true → message = "Built successfully")
  ∧ (success = false → message = "Failed to clone repository" ∨ message = "Build failed").
Proof.
  unfold build_package. intros H.
  apply bind_inr in H as (source_dir & s1 & _ & H).
  apply bind_inr in H as (cloned & s2 & _ & H).
  destruct cloned; simpl in H.
  - apply bind_inr in H as (? & s3 & _ & H).
    apply bind_inr in H as (has_cmake & s4 & _ & H).
    apply bind_inr in H as (ok & s5 & _ & H).
    destruct ok; injection H as <- <- <- _; split_and!; (done || auto).
  - injection H as <- <- <- _. split_and!; (done || auto).
Qed.

Lemma dict_set_fresh {V} (d : list (string * V)) k v :
  k ∉ Dict.keys d → Dict.set d k v = d ++ [(k, v)].
Proof.
  induction d as [|[k' v'] d IH]; simpl; [done|].
  intros Hk. apply not_elem_of_cons in Hk as [Hne Hk].
  destruct (String.eqb_spec k' k) as [->|_]; [done|]. by rewrite IH.
Qed.


Lemma dict_get_elem {V} (d : list (string * V)) k v :
  Dict.get d k = Some v → (k, v) ∈ d.
Proof.
  induction d as [|[k' v'] d IH]; simpl; [done|].
  destruct (String.eqb_spec k' k) as [->|_].
  - intros [= ->]. left.
  - intros H. right. auto.
Qed.

(** The entry recorded for a package that was built, and for one that was
    not. *)
Definition ok_entry (url : string) : string * BuildResult.t :=
  (get_package_name url,
   {| BuildResult.url := url; BuildResult.success := true;
      BuildResult.message := "Built successfully" |}).

Definition failed_entry (url message : string) : string * BuildResult.t :=
  (get_package_name url,
   {| BuildResult.url := url; BuildResult.success := false;
      BuildResult.message := message |}).

(** How the loop over the build order can end: every package built; or a
    first package [b] failed and the loop stopped there; or an exception
    left it after the packages of [pre]. In each case the results gained
    are those of the packages attempted, in order. *)
Inductive loop_outcome (order : list string) (before : list (string * BuildResult.t))
    : exn + unit → list (string * BuildResult.t) → Prop :=
| loop_all_built :
    loop_outcome order before (inr tt) (before ++ map ok_entry order)
| loop_stopped pre b post message :
    order = pre ++ b :: post →
    message = "Failed to clone repository" ∨ message = "Build failed" →
    loop_outcome order before (inr tt)
      (before ++ map ok_entry pre ++ [failed_entry b message])
| loop_raised e pre rest :
    order = pre ++ rest →
    loop_outcome order before (inl e) (before ++ map ok_entry pre).

Lemma build_loop_spec packs : ∀ order s r s',
  NoDup (map get_package_name order) →
  (∀ u, u ∈ order → get_package_name u ∉ Dict.keys (build_results (self s))) →
  build_loop packs order s = (r, s') →
  loop_outcome order (build_results (self s)) r (build_results (self s')).
Proof.
  induction order as [|url rest IH]; intros s r s' Hnd Hfresh Hrun.
  - injection Hrun as <- <-.
    pose proof (loop_all_built [] (build_results (self s))) as H.
    simpl in H. by rewrite app_nil_r in H.
  - apply NoDup_cons in Hnd as [Hurl Hnd]. cbn [build_loop] in Hrun.
    destruct (Dict.get packs url) as [config|].
    2:{ injection Hrun as <- <-.
        pose proof (loop_raised (url :: rest) (build_results (self s))
                      KeyError [] (url :: rest) eq_refl) as H.
        simpl in H. by rewrite app_nil_r in H. }
    unfold bind at 1 in Hrun.
    pose proof (keeps_build_package url config s) as Hkeep.
    destruct (build_package url config s)
      as [[e|[[package_name success] message]] s1] eqn:Hbp.
    { injection Hrun as <- <-. simpl in Hkeep. rewrite Hkeep.
      pose proof (loop_raised (url :: rest) (build_results (self s))
                    e [] (url :: rest) eq_refl) as H.
      simpl in H. by rewrite app_nil_r in H. }
    apply build_package_returns in Hbp as (-> & Hok & Hfail).
    simpl in Hkeep. unfold bind at 1 in Hrun. unfold record_result at 1 in Hrun.
    set (s2 := set_self _ s1) in Hrun.
    assert (build_results (self s2)
            = build_results (self s)
              ++ [(get_package_name url,
                   {| BuildResult.url := url; BuildResult.success := success;
                      BuildResult.message := message |})]) as Hs2.
    { unfold s2. simpl. rewrite Hkeep. apply dict_set_fresh, Hfresh. left. }
    destruct success; cbn [negb] in Hrun.
    + rewrite (Hok eq_refl) in Hs2.
      assert (∀ u, u ∈ rest →
                get_package_name u ∉ Dict.keys (build_results (self s2))) as Hfresh'.
      { intros u Hu. rewrite Hs2. unfold Dict.keys. rewrite map_app. simpl.
        intros [Hin|Hin%list_elem_of_singleton]%elem_of_app.
        - apply (Hfresh u); [by right|done].
        - apply Hurl. rewrite <- Hin. by apply list_elem_of_fmap_2. }
      specialize (IH s2 r s' Hnd Hfresh' Hrun). rewrite Hs2 in IH.
      destruct IH as [|pre b post msg Horder Hmsg|e pre rest' Horder].
      * rewrite <- app_assoc. apply (loop_all_built (url :: rest)).
      * rewrite <- app_assoc.
        apply (loop_stopped (url :: rest) _ (url :: pre) b post msg);
          [by rewrite Horder | done].
      * rewrite <- app_assoc.
        apply (loop_raised (url :: rest) _ e (url :: pre) rest'). by rewrite Horder.
    + injection Hrun as <- <-. rewrite Hs2.
      apply (loop_stopped (url :: rest) _ [] url rest message); [done|auto].
Qed.





(** [generate_report] writes the two documents made from
    [self.build_results], one after the other. *)
Lemma generate_report_writes output_dir s w1 w2 w3 :
  path_mkdir true output_dir (world s) = Some w1 →
  write_file (path_join output_dir "build_report.json")
    (json_dumps (json_report (build_results (self s)))) w1 = Some w2 →
  write_file (path_join output_dir "build_report.txt")
    (text_report (build_results (self s))) w2 = Some w3 →
  os_path_exists "build.log" w3 = false →
  generate_report output_dir s = (inr tt, set_world w3 s).
Proof.
  intros H1 H2 H3 H4. unfold generate_report, bind, in_world, exists_.
  rewrite H1. simpl. rewrite H2. simpl. rewrite H3. simpl. by rewrite H4.
Qed.

(** What [generate_report] has done when it returns. *)
Lemma generate_report_returns output_dir s s' :
  generate_report output_dir s = (inr tt, s') →
  ∃ w1 w2 w3,
    path_mkdir true output_dir (world s) = Some w1
    ∧ write_file (path_join output_dir "build_report.json")
        (json_dumps (json_report (build_results (self s)))) w1 = Some w2
    ∧ write_file (path_join output_dir "build_report.txt")
        (text_report (build_results (self s))) w2 = Some w3
    ∧ (world s' = w3
       ∨ shutil_copy "build.log" (path_join output_dir "build.log") w3 = Some (world s')).
Proof.
  intros Hrun. unfold generate_report, bind, in_world, exists_ in Hrun.
  destruct (path_mkdir true output_dir (world s)) as [w1|] eqn:H1; [|done].
  cbn [self world set_world] in Hrun.
  destruct (write_file (path_join output_dir "build_report.json") _ w1)
    as [w2|] eqn:H2; [|done].
  cbn [self world set_world] in Hrun.
  destruct (write_file (path_join output_dir "build_report.txt") _ w2)
    as [w3|] eqn:H3; [|done].
  cbn [self world set_world] in Hrun.
  exists w1, w2, w3. split_and!; [done..|].
  destruct (os_path_exists "build.log" w3); cbn [world set_world] in Hrun.
  - destruct (shutil_copy "build.log" _ w3) as [w4|] eqn:H4; [|done].
    injection Hrun as <-. by right.
  - injection Hrun as <-. by left.
Qed.

Lemma count_successful_all results :
  count_successful results = length results →
  ∀ item, item ∈ results → BuildResult.success (snd item) = true.
Proof.
  unfold count_successful, Dict.values.
  induction results as [|[package r] results IH]; [by intros _ ? ?%elem_of_nil|].
  cbn [map snd]. rewrite filter_cons. cbn [length].
  pose proof (length_filter (λ r, BuildResult.success r = true) (map snd results)) as Hle.
  destruct (decide (BuildResult.success r = true)) as [Hr|Hr]; cbn [length]; intros Hlen.
  - intros item [->|Hin]%elem_of_cons; [done|]. apply IH; [|done].
    rewrite length_map in *. lia.
  - rewrite length_map in *. lia.
Qed.

(** A computation that raises nothing but subclasses of [Exception]: no
    [sys.exit] in it. *)
Definition raises_exceptions {A} (m : M A) : Prop :=
  ∀ s e s', m s = (inl e, s') → is_Exception e = true.

Lemma exceptions_ret {A} (a : A) : raises_exceptions (ret a).
Proof. by intros s e s'. Qed.

Lemma exceptions_raise {A} e : is_Exception e = true → raises_exceptions (@raise A e).
Proof. intros He s e' s' [= <- _]. done. Qed.

Lemma exceptions_bind {A B} (m : M A) (k : A → M B) :
  raises_exceptions m → (∀ a, raises_exceptions (k a)) → raises_exceptions (bind m k).
Proof.
  intros Hm Hk s e s'. unfold bind. specialize (Hm s).
  destruct (m s) as [[e1|a] s1].
  - intros [= <- <-]. by eapply Hm.
  - apply Hk.
Qed.

Lemma exceptions_try_except {A} (body : M A) handler :
  raises_exceptions body → (∀ e, raises_exceptions (handler e)) →
  raises_exceptions (try_except body handler).
Proof.
  intros Hb Hh s e s'. unfold try_except. specialize (Hb s).
  destruct (body s) as [[e1|a] s1]; [|done].
  rewrite (Hb e1 s1 eq_refl). apply Hh.
Qed.

Lemma exceptions_in_world f : raises_exceptions (in_world f).
Proof.
  intros s e s'. unfold in_world. destruct (f (world s)); [done|].
  by intros [= <- _].
Qed.

Lemma exceptions_system cmd : raises_exceptions (system cmd).
Proof.
  intros s e s'. unfold system. by destruct (os_system cmd (environ s) (world s)).
Qed.

Lemma exceptions_add_pkgconfig_path : raises_exceptions add_pkgconfig_path.
Proof.
  intros s e s'. unfold add_pkgconfig_path.
  destruct (os_path_exists _ _); [|done]. destruct (negb _); [|done].
  by destruct (PyStr.truthy _).
Qed.

Lemma exceptions_generate_cmake_args config :
  raises_exceptions (generate_cmake_args config).
Proof.
  intros s e s'. unfold generate_cmake_args.
  destruct (dependencies config); [done|]. by destruct (add_pkgconfig_path s).
Qed.

(** Splits a goal [raises_exceptions m] along the structure of [m]. *)
Ltac exceptions :=
  repeat first
    [ apply exceptions_bind; [|intros ?]
    | apply exceptions_try_except; [|intros ?]
    | apply exceptions_ret
    | apply exceptions_raise; reflexivity
    | apply exceptions_in_world
    | apply exceptions_system
    | apply exceptions_add_pkgconfig_path
    | apply exceptions_generate_cmake_args
    | assumption
    | match goal with
      | |- raises_exceptions (match ?x with _ => _ end) => destruct x
      end
    | (intros ? ? ? ?; discriminate) ].

Lemma exceptions_run_command cmd cwd check :
  raises_exceptions (run_command cmd cwd check).
Proof. unfold run_command. exceptions. Qed.

Lemma exceptions_build_package url config :
  raises_exceptions (build_package url config).
Proof.
  unfold build_package, clone_repository, build_cmake_project,
    build_autotools_project, mark_built, warn, exists_, getenv.
  pose proof exceptions_run_command. exceptions.
Qed.

Lemma exceptions_build_loop packs order : raises_exceptions (build_loop packs order).
Proof.
  induction order as [|url rest IH]; cbn [build_loop]; [apply exceptions_ret|].
  unfold record_result. pose proof exceptions_build_package. exceptions.
Qed.

Lemma exceptions_build_all_packages packs :
  raises_exceptions (build_all_packages packs).
Proof.
  unfold build_all_packages, install_apt_packages, setup_compiler_environment,
    setenv, warn.
  pose proof exceptions_run_command. exceptions.
  intros s e s'. unfold run_resolve_dependencies.
  pose proof (resolve_dependencies_spec packs) as Hspec.
  destruct (resolve_dependencies packs) as [[w [e1|order]]|]; [| |done].
  - by destruct Hspec as (u & -> & _).
  - pose proof (exceptions_build_loop packs order).
    assert (raises_exceptions
              (build_loop packs order;;;
               run_command "ldconfig" None true;;;
               (λ s0 : State, (inr (build_results (self s0)), s0)))) as H1
      by exceptions.
    apply H1.
Qed.

Lemma exceptions_generate_report output_dir :
  raises_exceptions (generate_report output_dir).
Proof. unfold generate_report, exists_. exceptions. Qed.

(** The [try] of [main] leaves with status 0 only after [build_all_packages]
    has returned a result map in which every entry is a success; an empty
    map qualifies. *)
Lemma main_exit_zero args packs environ0 w0 :
  main_try args packs environ0 w0 = 0%Z →
  ∃ s results s',
    build_all_packages packs s = (inr results, s')
    ∧ build_results (self s) = []
    ∧ ∀ item, item ∈ results → BuildResult.success (snd item) = true.
Proof.
  unfold main_try. destruct (path_mkdir false _ w0) as [w1|]; [|done].
  set (s := {| self := _; environ := environ0; logged := []; world := w1 |}).
  unfold try_except, main_body. unfold bind at 1.
  pose proof (exceptions_build_all_packages packs s) as Hex.
  destruct (build_all_packages packs s) as [[e|results] s1] eqn:Hrun.
  { by rewrite (Hex e s1 eq_refl). }
  unfold bind at 1.
  pose proof (exceptions_generate_report (path_of (arg_output_dir args)) s1) as Hex2.
  destruct (generate_report _ s1) as [[e|[]] s2].
  { by rewrite (Hex2 e s2 eq_refl). }
  destruct (count_successful results =? length results)%nat eqn:Hc; simpl; [|done].
  intros _. exists s, results, s1. split_and!; [done..|].
  apply count_successful_all. by apply Nat.eqb_eq.
Qed.

(** ** The pkg-config search path *)

Lemma prefix_self (n : string) : String.prefix n n = true.
Proof.
  induction n as [|c n IH]; [done|]. simpl. by destruct (ascii_dec c c).
Qed.

Lemma contains_self n : PyStr.contains n n = true.
Proof. destruct n; unfold PyStr.contains; fold PyStr.contains; by rewrite prefix_self. Qed.

(** [needle in before + haystack] when [needle in haystack] *)
Lemma contains_append_l n h :
  PyStr.contains n h = true → ∀ a, PyStr.contains n (a +:+ h) = true.
Proof.
  intros Hh. induction a as [|c a IH]; [done|].
  change (String c a +:+ h) with (String c (a +:+ h)).
  unfold PyStr.contains; fold PyStr.contains. rewrite IH. apply orb_true_r.
Qed.

Lemma contains_joined p current : PyStr.contains p (current +:+ ":" +:+ p) = true.
Proof.
  apply contains_append_l. apply (contains_append_l p p (contains_self p) ":").
Qed.

(** The pkg-config directory of the builder of [s], and the states whose
    [PKG_CONFIG_PATH] holds it already. *)
Definition pkgconfig_dir (s : State) : string := install_prefix (self s) +:+ "/lib/pkgconfig".

Definition on_search_path (s : State) : Prop :=
  ∃ v, environ s !! "PKG_CONFIG_PATH" = Some v ∧ PyStr.contains (pkgconfig_dir s) v = true.

Lemma add_pkgconfig_path_on_search_path s :
  on_search_path s → add_pkgconfig_path s = (inr tt, s).
Proof.
  intros (v & Hv & Hc). unfold add_pkgconfig_path. fold (pkgconfig_dir s).
  destruct (os_path_exists _ _); [|done]. rewrite Hv. simpl. by rewrite Hc.
Qed.

Lemma add_pkgconfig_path_cases s :
  let s' := snd (add_pkgconfig_path s) in
  s' = s
  ∨ (os_path_exists (pkgconfig_dir s) (world s) = true ∧ ¬ on_search_path s
     ∧ ∃ v, s' = set_environ (<["PKG_CONFIG_PATH" := v]> (environ s)) s
            ∧ (v = pkgconfig_dir s
               ∨ ∃ current, environ s !! "PKG_CONFIG_PATH" = Some current
                            ∧ v = current +:+ ":" +:+ pkgconfig_dir s)).
Proof.
  unfold add_pkgconfig_path. fold (pkgconfig_dir s).
  destruct (os_path_exists _ _) eqn:Hex; [|by left].
  destruct (negb _) eqn:Hc; [|by left]. apply negb_true_iff in Hc.
  right. split; [done|]. split.
  { intros (v & Hv & Hin). rewrite Hv in Hc. simpl in Hc. congruence. }
  destruct (environ s !! "PKG_CONFIG_PATH") as [current|] eqn:Hcur; simpl.
  - destruct current as [|c current]; simpl; eauto 10.
  - eauto.
Qed.

Lemma add_pkgconfig_path_puts s :
  os_path_exists (pkgconfig_dir s) (world s) = true →
  on_search_path (snd (add_pkgconfig_path s)).
Proof.
  intros Hex. unfold add_pkgconfig_path. fold (pkgconfig_dir s). rewrite Hex.
  destruct (negb _) eqn:Hc.
  - destruct (PyStr.truthy _); simpl; eexists; (split; [apply lookup_insert_eq|]).
    + apply contains_joined.
    + apply contains_self.
  - simpl. apply negb_false_iff in Hc.
    destruct (environ s !! "PKG_CONFIG_PATH") as [v|] eqn:Hv; [by exists v|].
    exfalso. simpl in Hc. unfold PyStr.contains in Hc.
    rewrite orb_false_r in Hc. unfold pkgconfig_dir in Hc.
    by destruct (install_prefix (self s)).
Qed.

(** X5. A call of [generate_cmake_args] changes the process in one way at
    most: for a package with dependencies, when the pkg-config directory
    exists and [PKG_CONFIG_PATH] does not hold it yet, the directory is put
    on [PKG_CONFIG_PATH], alone or after a colon behind what was there.
    Whenever the directory exists at such a call, [PKG_CONFIG_PATH] holds it
    afterwards. And from any state in which [PKG_CONFIG_PATH] holds the
    directory, whatever the world, the log and the built set have become,
    a call for whatever package changes nothing: as long as nothing else
    rewrites the variable, the directory is put on it once and not again. *)
Theorem generate_cmake_args_extends_search_path_once (c1 c2 : Config) (s s2 : State) :
  let s1 := snd (generate_cmake_args c1 s) in
  (s1 = s
   ∨ (dependencies c1 ≠ []
      ∧ os_path_exists (install_prefix (self s) +:+ "/lib/pkgconfig") (world s) = true
      ∧ ¬ (∃ v, environ s !! "PKG_CONFIG_PATH" = Some v
                ∧ PyStr.contains (install_prefix (self s) +:+ "/lib/pkgconfig") v = true)
      ∧ ∃ v, s1 = set_environ (<["PKG_CONFIG_PATH" := v]> (environ s)) s
             ∧ (v = install_prefix (self s) +:+ "/lib/pkgconfig"
                ∨ ∃ current, environ s !! "PKG_CONFIG_PATH" = Some current
                     ∧ v = current +:+ ":" +:+ install_prefix (self s) +:+ "/lib/pkgconfig")))
  ∧ (dependencies c1 ≠ [] →
     os_path_exists (install_prefix (self s) +:+ "/lib/pkgconfig") (world s) = true →
     ∃ v, environ s1 !! "PKG_CONFIG_PATH" = Some v
          ∧ PyStr.contains (install_prefix (self s) +:+ "/lib/pkgconfig") v = true)
  ∧ ((∃ v, environ s2 !! "PKG_CONFIG_PATH" = Some v
           ∧ PyStr.contains (install_prefix (self s2) +:+ "/lib/pkgconfig") v = true) →
     snd (generate_cmake_args c2 s2) = s2).
Proof.
  assert (∀ c st, dependencies c ≠ [] →
            snd (generate_cmake_args c st) = snd (add_pkgconfig_path st)) as Hsnd.
  { intros c st Hdeps. unfold generate_cmake_args. destruct (dependencies c); [done|].
    by destruct (add_pkgconfig_path st). }
  assert (∀ c st, dependencies c = [] → snd (generate_cmake_args c st) = st) as Hnone.
  { intros c st Hdeps. unfold generate_cmake_args. by rewrite Hdeps. }
  cbn zeta. split_and!.
  - destruct (dependencies c1) as [|d deps] eqn:Hdeps.
    { left. by apply Hnone. }
    rewrite Hsnd by (by rewrite Hdeps).
    destruct (add_pkgconfig_path_cases s) as [Hsame|(Hex & Hnot & v & Hs1 & Hv)];
      [by left|].
    right. split_and!; [done|exact Hex|exact Hnot|]. exists v. split; [exact Hs1|].
    destruct Hv as [->|(current & Hcur & ->)]; [by left|right; eauto].
  - intros Hdeps Hex. rewrite Hsnd by done.
    destruct (add_pkgconfig_path_puts s Hex) as (v & Hv & Hc).
    exists v. split; [done|]. unfold pkgconfig_dir in Hc.
    destruct (add_pkgconfig_path_frame s) as [Hself _]. simpl in Hself.
    by rewrite Hself in Hc.
  - intros Hon. destruct (dependencies c2) as [|d deps] eqn:Hdeps.
    { by apply Hnone. }
    rewrite Hsnd by (by rewrite Hdeps).
    by rewrite (add_pkgconfig_path_on_search_path s2 Hon).
Qed.

(** ** The set of built packages *)

(** A computation that leaves the [Builder] object as it is. *)
Definition keeps_self {A} (m : M A) : Prop := ∀ s, self (snd (m s)) = self s.

Lemma keeps_self_ret {A} (a : A) : keeps_self (ret a).
Proof. by intros s. Qed.

Lemma keeps_self_raise {A} e : keeps_self (@raise A e).
Proof. by intros s. Qed.

Lemma keeps_self_bind {A B} (m : M A) (k : A → M B) :
  keeps_self m → (∀ a, keeps_self (k a)) → keeps_self (bind m k).
Proof.
  intros Hm Hk s. unfold bind. specialize (Hm s).
  destruct (m s) as [[e|a] s1]; simpl in *; [done|]. by rewrite Hk.
Qed.

Lemma keeps_self_try_except {A} (body : M A) handler :
  keeps_self body → (∀ e, keeps_self (handler e)) → keeps_self (try_except body handler).
Proof.
  intros Hb Hh s. unfold try_except. specialize (Hb s).
  destruct (body s) as [[e|a] s1]; simpl in *; [|done].
  destruct (is_Exception e); [|done]. by rewrite Hh.
Qed.

Lemma keeps_self_in_world f : keeps_self (in_world f).
Proof. intros s. unfold in_world. by destruct (f (world s)). Qed.

Lemma keeps_self_system cmd : keeps_self (system cmd).
Proof. intros s. unfold system. by destruct (os_system cmd (environ s) (world s)). Qed.

Lemma keeps_self_add_pkgconfig_path : keeps_self add_pkgconfig_path.
Proof. intros s. by destruct (add_pkgconfig_path_frame s) as [-> _]. Qed.

Lemma keeps_self_generate_cmake_args config : keeps_self (generate_cmake_args config).
Proof. intros s. by destruct (generate_cmake_args_frame config s) as [-> _]. Qed.

(** Splits a goal [keeps_self m] along the structure of [m]. *)
Ltac keeps_self :=
  repeat first
    [ apply keeps_self_bind; [|intros ?]
    | apply keeps_self_try_except; [|intros ?]
    | apply keeps_self_ret
    | apply keeps_self_raise
    | apply keeps_self_in_world
    | apply keeps_self_system
    | apply keeps_self_add_pkgconfig_path
    | apply keeps_self_generate_cmake_args
    | assumption
    | match goal with
      | |- keeps_self (match ?x with _ => _ end) => destruct x
      end
    | (intros ?; reflexivity) ].

Lemma keeps_self_run_command cmd cwd check : keeps_self (run_command cmd cwd check).
Proof. unfold run_command. keeps_self. Qed.

Lemma keeps_self_generate_report output_dir : keeps_self (generate_report output_dir).
Proof. unfold generate_report, exists_. keeps_self. Qed.

Lemma keeps_self_clone_repository url branch target_dir :
  keeps_self (clone_repository url branch target_dir).
Proof. unfold clone_repository, exists_. pose proof keeps_self_run_command. keeps_self. Qed.

Lemma keeps_self_install_apt_packages : keeps_self install_apt_packages.
Proof. unfold install_apt_packages. pose proof keeps_self_run_command. keeps_self. Qed.

Lemma keeps_self_setup_compiler_environment : keeps_self setup_compiler_environment.
Proof. unfold setup_compiler_environment, setenv, warn. keeps_self. Qed.

(** [m] adds [name] to [self.built_packages] exactly when it returns a
    value that [ok] accepts, and touches nothing else of the builder. *)
Definition marks_built {A} (name : string) (ok : A → bool) (m : M A) : Prop :=
  ∀ s, self (snd (m s))
       = if match fst (m s) with inr a => ok a | inl _ => false end
         then set_built_packages (built_packages (self s) ∪ {[name]}) (self s)
         else self s.

Lemma marks_built_ret {A} name (ok : A → bool) a :
  ok a = false → marks_built name ok (ret a).
Proof. intros Ha s. simpl. by rewrite Ha. Qed.

Lemma marks_built_bind {A B} name (ok : B → bool) (m : M A) (k : A → M B) :
  keeps_self m → (∀ a, marks_built name ok (k a)) → marks_built name ok (bind m k).
Proof.
  intros Hm Hk s. unfold bind. specialize (Hm s).
  destruct (m s) as [[e|a] s1]; simpl in *; [done|].
  rewrite (Hk a s1). by rewrite Hm.
Qed.

Lemma marks_built_done {A} name (ok : A → bool) a :
  ok a = true → marks_built name ok (mark_built name ;;; ret a).
Proof. intros Ha s. simpl. by rewrite Ha. Qed.

Lemma marks_built_try_except {A} name (ok : A → bool) (body : M A) b :
  ok b = false → marks_built name ok body →
  marks_built name ok (try_except body (λ _, ret b)).
Proof.
  intros Hb Hbody s. unfold try_except. specialize (Hbody s).
  destruct (body s) as [[e|a] s1]; simpl in *; [|done].
  destruct (is_Exception e); simpl; [by rewrite Hb|done].
Qed.

Lemma marks_built_report {A} name (ok : A → bool) (m : M bool) x y :
  ok x = true → ok y = false → marks_built name (λ b, b) m →
  marks_built name ok (success <- m ;; if success : bool then ret x else ret y).
Proof.
  intros Hx Hy Hm s. unfold bind. specialize (Hm s).
  destruct (m s) as [[e|[]] s1]; simpl in *; by rewrite ?Hx, ?Hy.
Qed.

(** Splits a goal [marks_built name ok m] for a computation that ends in
    [mark_built name]. *)
Ltac marks_built :=
  repeat first
    [ apply marks_built_done; reflexivity
    | apply marks_built_ret; reflexivity
    | apply marks_built_try_except; [reflexivity|]
    | apply marks_built_bind; [keeps_self|intros ?]
    | assumption
    | match goal with
      | |- marks_built _ _ (match ?x with _ => _ end) => destruct x
      end ].

Lemma marks_built_build_cmake_project source_dir package_name config :
  marks_built package_name (λ b, b) (build_cmake_project source_dir package_name config).
Proof.
  unfold build_cmake_project. pose proof keeps_self_run_command. marks_built.
Qed.

Lemma marks_built_build_autotools_project source_dir package_name config :
  marks_built package_name (λ b, b)
    (build_autotools_project source_dir package_name config).
Proof.
  unfold build_autotools_project, exists_, getenv.
  pose proof keeps_self_run_command. marks_built.
Qed.

Lemma marks_built_build_package url config :
  marks_built (get_package_name url) (λ r : string * bool * string, snd (fst r))
    (build_package url config).
Proof.
  unfold build_package.
  pose proof keeps_self_run_command. pose proof keeps_self_clone_repository.
  pose proof marks_built_build_cmake_project as Hc.
  pose proof marks_built_build_autotools_project as Ha.
  apply marks_built_bind; [keeps_self|intros source_dir].
  apply marks_built_bind; [keeps_self|intros cloned].
  destruct cloned; simpl; [|by apply marks_built_ret].
  apply marks_built_bind; [keeps_self|intros _].
  apply marks_built_bind; [unfold exists_; keeps_self|intros has_cmake].
  apply marks_built_report; [done..|].
  destruct has_cmake; [apply Hc|].
  apply marks_built_bind; [unfold exists_; keeps_self|intros has_configure].
  apply marks_built_bind; [unfold exists_; keeps_self|intros has_autogen].
  destruct (has_configure || has_autogen); [apply Ha|].
  apply marks_built_bind; [unfold warn; keeps_self|intros _]. apply Hc.
Qed.

(** X6. [build_package] changes the builder in one way only: a package reported
    as built has its name added to [built_packages]; a package reported as
    failed, or an exception, leaves the builder as it was. *)
Theorem build_package_marks_built url config (s : State) :
  self (snd (build_package url config s))
  = match fst (build_package url config s) with
    | inr (_, true, _) =>
        set_built_packages (built_packages (self s) ∪ {[get_package_name url]}) (self s)
    | _ => self s
    end.
Proof.
  rewrite (marks_built_build_package url config s).
  by destruct (fst (build_package url config s)) as [e|[[n []] m]].
Qed.

(** ** Exceptions that leave [build_package] *)

Lemma bind_inl {A B} (m : M A) (k : A → M B) s e s' :
  bind m k s = (inl e, s') →
  m s = (inl e, s') ∨ ∃ a s1, m s = (inr a, s1) ∧ k a s1 = (inl e, s').
Proof.
  unfold bind. destruct (m s) as [[e1|a] s1]; intros H.
  - injection H as -> ->. by left.
  - right. exists a, s1. split; [reflexivity|exact H].
Qed.

(** [try: ... except Exception: return b] around a body without [sys.exit]
    always returns. *)
Lemma try_except_returns {A} (body : M A) b s :
  raises_exceptions body → ∃ a s', try_except body (λ _, ret b) s = (inr a, s').
Proof.
  intros Hbody. unfold try_except. specialize (Hbody s).
  destruct (body s) as [[e|a] s1]; [|eauto].
  rewrite (Hbody e s1 eq_refl). unfold ret. eauto.
Qed.

Lemma clone_repository_returns url branch target_dir s :
  ∃ a s', clone_repository url branch target_dir s = (inr a, s').
Proof.
  apply try_except_returns. unfold exists_. pose proof exceptions_run_command.
  exceptions.
Qed.

Lemma build_cmake_project_returns source_dir package_name config s :
  ∃ a s', build_cmake_project source_dir package_name config s = (inr a, s').
Proof.
  apply try_except_returns. unfold mark_built. pose proof exceptions_run_command.
  exceptions.
Qed.

Lemma build_autotools_project_returns source_dir package_name config s :
  ∃ a s', build_autotools_project source_dir package_name config s = (inr a, s').
Proof.
  apply try_except_returns. unfold mark_built, exists_, getenv.
  pose proof exceptions_run_command. exceptions.
Qed.

(** X7. The only exception that leaves [build_package] is the
    [CalledProcessError] of the [ldconfig] it runs after a successful clone,
    outside every [try]: clone and build failures come back as a result
    triple, a failing [ldconfig] does not. *)
Theorem build_package_raises_only_ldconfig url config (s s' : State) e :
  build_package url config s = (inl e, s') →
  ∃ returncode, e = CalledProcessError returncode "ldconfig" ∧ returncode ≠ 0%Z.
Proof.
  unfold build_package. intros H.
  apply bind_inl in H as [H|(source_dir & s1 & _ & H)]; [done|].
  apply bind_inl in H as [H|(cloned & s2 & _ & H)].
  { destruct (clone_repository_returns url (default "master" (branch config))
                source_dir s1) as (a & s'' & Heq). congruence. }
  destruct cloned; simpl in H; [|done].
  apply bind_inl in H as [H|(code & s3 & _ & H)].
  { unfold run_command, bind, system in H.
    destruct (os_system "ldconfig" (environ s2) (world s2)) as [result w].
    simpl in H. destruct (result =? 0)%Z eqn:Hr; simpl in H; [done|].
    injection H as <- _. exists result. split; [done|]. by apply Z.eqb_neq. }
  apply bind_inl in H as [H|(has_cmake & s4 & _ & H)]; [done|].
  apply bind_inl in H as [H|(ok & s5 & _ & H)]; [|by destruct ok].
  exfalso. destruct has_cmake.
  - destruct (build_cmake_project_returns source_dir (get_package_name url) config s4)
      as (a & s'' & Heq). congruence.
  - apply bind_inl in H as [H|(has_configure & s6 & _ & H)]; [done|].
    apply bind_inl in H as [H|(has_autogen & s7 & _ & H)]; [done|].
    destruct (has_configure || has_autogen).
    + destruct (build_autotools_project_returns source_dir (get_package_name url)
                  config s7) as (a & s'' & Heq). congruence.
    + apply bind_inl in H as [H|([] & s8 & _ & H)]; [done|].
      destruct (build_cmake_project_returns source_dir (get_package_name url) config s8)
        as (a & s'' & Heq). congruence.
Qed.

(** ** The result map and the built set after a run *)

Lemma build_loop_built packs : ∀ order s r s',
  NoDup (map get_package_name order) →
  (∀ u, u ∈ order → get_package_name u ∉ Dict.keys (build_results (self s))) →
  build_loop packs order s = (r, s') →
  ∃ pre tail,
    build_results (self s') = build_results (self s) ++ map ok_entry pre ++ tail
    ∧ built_packages (self s')
      = built_packages (self s) ∪ list_to_set (map get_package_name pre)
    ∧ (tail = [] ∨ ∃ b message, tail = [failed_entry b message]).
Proof.
  clear write_file shutil_copy path_of parse_args.
  induction order as [|url rest IH]; intros s r s' Hnd Hfresh Hrun.
  - injection Hrun as _ <-. exists [], []. simpl. rewrite app_nil_r.
    split_and!; [done|set_solver|by left].
  - apply NoDup_cons in Hnd as [Hurl Hnd]. cbn [build_loop] in Hrun.
    destruct (Dict.get packs url) as [config|].
    2:{ injection Hrun as _ <-. exists [], []. simpl. rewrite app_nil_r.
        split_and!; [done|set_solver|by left]. }
    unfold bind at 1 in Hrun.
    assert (self (snd (build_package url config s))
            = match fst (build_package url config s) with
              | inr (_, true, _) =>
                  set_built_packages
                    (built_packages (self s) ∪ {[get_package_name url]}) (self s)
              | _ => self s
              end) as Hself.
    { rewrite (marks_built_build_package url config s).
      by destruct (fst (build_package url config s)) as [e|[[n []] m]]. }
    destruct (build_package url config s)
      as [[e|[[package_name success] message]] s1] eqn:Hbp; cbn [fst snd] in Hself.
    { injection Hrun as _ <-. exists [], []. simpl. rewrite app_nil_r, Hself.
      split_and!; [done|set_solver|by left]. }
    apply build_package_returns in Hbp as (-> & Hok & Hfail).
    destruct success; [pose proof (Hok eq_refl) as ->|];
      unfold bind at 1 in Hrun; unfold record_result at 1 in Hrun;
      cbn [negb] in Hrun; set (s2 := set_self _ s1) in Hrun.
    + assert (build_results (self s2) = build_results (self s) ++ [ok_entry url]) as Hres.
      { unfold s2. simpl. rewrite Hself. simpl. apply dict_set_fresh, Hfresh. left. }
      assert (built_packages (self s2)
              = built_packages (self s) ∪ {[get_package_name url]}) as Hbuilt.
      { unfold s2. simpl. by rewrite Hself. }
      destruct (IH s2 r s' Hnd) as (pre & tail & Hr & Hb & Htail); [|done|].
      { intros u Hu. rewrite Hres. unfold Dict.keys. rewrite map_app. simpl.
        intros [Hin|Hin%list_elem_of_singleton]%elem_of_app.
        - apply (Hfresh u); [by right|done].
        - apply Hurl. rewrite <- Hin. by apply list_elem_of_fmap_2. }
      exists (url :: pre), tail. split_and!; [| |done].
      * rewrite Hr, Hres, <- app_assoc. done.
      * rewrite Hb, Hbuilt. simpl. set_solver.
    + injection Hrun as _ <-.
      exists [], [failed_entry url message]. split_and!.
      * unfold s2. simpl. rewrite Hself. apply dict_set_fresh, Hfresh. left.
      * unfold s2. simpl. rewrite Hself. set_solver.
      * right. eauto.
Qed.

Lemma filter_ok_entries pre tail :
  (tail = [] ∨ ∃ b message, tail = [failed_entry b message]) →
  map fst (filter (λ item : string * BuildResult.t, BuildResult.success (snd item) = true)
             (map ok_entry pre ++ tail))
  = map get_package_name pre.
Proof.
  intros Htail. rewrite filter_app, map_app.
  assert (filter (λ item : string * BuildResult.t, BuildResult.success (snd item) = true)
            tail = []) as ->.
  { destruct Htail as [->|(b & message & ->)]; [done|]. rewrite filter_cons. done. }
  rewrite app_nil_r. induction pre as [|u pre IH]; [done|].
  cbn [map]. rewrite filter_cons. simpl. by rewrite IH.
Qed.

(** X8. After [build_all_packages] on a fresh builder, [built_packages] is
    exactly the set of names whose entry in the returned map is a success:
    a name enters the set when its package is built and at no other time,
    also when resolution fails and nothing is built. *)
Theorem build_all_packages_built_packages (packs : Packs) (s s' : State) results :
  NoDup (map get_package_name (Dict.keys packs)) →
  build_results (self s) = [] →
  built_packages (self s) = ∅ →
  build_all_packages packs s = (inr results, s') →
  built_packages (self s')
  = list_to_set
      (map fst (filter (λ item : string * BuildResult.t,
                          BuildResult.success (snd item) = true) results)).
Proof.
  clear write_file shutil_copy path_of parse_args.
  intros Hnames Hres0 Hbuilt0 Hrun. unfold build_all_packages in Hrun.
  apply bind_inr in Hrun as ([] & s1 & Hapt & Hrun).
  apply bind_inr in Hrun as ([] & s2 & Hsetup & Hrun).
  pose proof (keeps_self_install_apt_packages s) as K1. rewrite Hapt in K1.
  pose proof (keeps_self_setup_compiler_environment s1) as K2. rewrite Hsetup in K2.
  simpl in K1, K2.
  unfold run_resolve_dependencies in Hrun.
  pose proof (resolve_dependencies_spec packs) as Hspec.
  destruct (resolve_dependencies packs) as [[w [e|order]]|] eqn:Hresolve; [| |done].
  - destruct Hspec as (u & -> & _). injection Hrun as <- <-. simpl.
    rewrite K2, K1, Hbuilt0. done.
  - apply bind_inr in Hrun as ([] & s4 & Hloop & Hrun).
    apply bind_inr in Hrun as (code & s5 & Hld & Hrun).
    injection Hrun as <- <-.
    pose proof (keeps_self_run_command "ldconfig" None true s4) as K3.
    rewrite Hld in K3. simpl in K3. rewrite K3.
    assert (NoDup (map get_package_name order)) as Hnd.
    { rewrite (resolve_returns_keys packs w order); [done| |done].
      unfold dict_wf. by eapply NoDup_fmap_1. }
    set (s3 := set_logged (logged s2 ++ w) s2) in *.
    assert (self s3 = self s) as K by (simpl; congruence).
    assert (∀ u, u ∈ order → get_package_name u ∉ Dict.keys (build_results (self s3)))
      as Hfresh by (intros u _; rewrite K, Hres0; apply not_elem_of_nil).
    destruct (build_loop_built packs order s3 _ _ Hnd Hfresh Hloop)
      as (pre & tail & Hr & Hb & Htail).
    rewrite K, Hres0 in Hr. rewrite K, Hbuilt0 in Hb. cbn [app] in Hr.
    rewrite Hr, Hb, (filter_ok_entries pre tail Htail). set_solver.
Qed.

(** X9. When [build_all_packages] returns a map without a failure, and
    resolution has returned a build order, the map holds one success entry
    for every package of the registry, in build order. *)
Theorem build_all_packages_all_built (packs : Packs) (s s' : State) results w order :
  NoDup (map get_package_name (Dict.keys packs)) →
  build_results (self s) = [] →
  resolve_dependencies packs = Some (w, inr order) →
  build_all_packages packs s = (inr results, s') →
  (∀ item, item ∈ results → BuildResult.success (snd item) = true) →
  results = map ok_entry order ∧ order ≡ₚ Dict.keys packs.
Proof.
  intros Hnames Hres0 Hresolve Hrun Hall.
  assert (order ≡ₚ Dict.keys packs) as Hperm.
  { apply (resolve_returns_keys packs w order); [|done].
    unfold dict_wf. by eapply NoDup_fmap_1. }
  split; [|done].
  unfold build_all_packages in Hrun.
  apply bind_inr in Hrun as ([] & s1 & Hapt & Hrun).
  apply bind_inr in Hrun as ([] & s2 & Hsetup & Hrun).
  unfold run_resolve_dependencies in Hrun. rewrite Hresolve in Hrun.
  apply bind_inr in Hrun as ([] & s4 & Hloop & Hrun).
  apply bind_inr in Hrun as (code & s5 & Hld & Hrun).
  injection Hrun as <- <-.
  pose proof (keeps_install_apt_packages s) as K1. rewrite Hapt in K1.
  pose proof (keeps_setup_compiler_environment s1) as K2. rewrite Hsetup in K2.
  pose proof (keeps_run_command "ldconfig" None true s4) as K3. rewrite Hld in K3.
  simpl in K1, K2, K3.
  set (s3 := set_logged (logged s2 ++ w) s2) in *.
  assert (build_results (self s3) = []) as Hs3 by (simpl; congruence).
  assert (∀ u, u ∈ order → get_package_name u ∉ Dict.keys (build_results (self s3)))
    as Hfresh by (intros u _; rewrite Hs3; apply not_elem_of_nil).
  assert (NoDup (map get_package_name order)) as Hnd by (by rewrite Hperm).
  pose proof (build_loop_spec packs order s3 _ _ Hnd Hfresh Hloop) as Hspec.
  rewrite Hs3, <- K3 in Hspec. cbn [app] in Hspec.
  inversion Hspec as [Hr Heq|pre b post message Horder Hmsg Hr Heq|]; [done|].
  exfalso. rewrite <- Heq in Hall.
  specialize (Hall (failed_entry b message)).
  assert (failed_entry b message ∈ map ok_entry pre ++ [failed_entry b message]) as Hin
    by (apply elem_of_app; right; left).
  by specialize (Hall Hin).
Qed.


(** On a builder without results the map that [build_all_packages] returns
    is [self.build_results], also when resolution fails and the map returned
    is the literal [{}]. *)
Lemma build_all_packages_returns_results (packs : Packs) (s s' : State) results :
  build_results (self s) = [] →
  build_all_packages packs s = (inr results, s') →
  build_results (self s') = results.
Proof.
  clear write_file shutil_copy path_of parse_args.
  intros Hres0 Hrun. unfold build_all_packages in Hrun.
  apply bind_inr in Hrun as ([] & s1 & Hapt & Hrun).
  apply bind_inr in Hrun as ([] & s2 & Hsetup & Hrun).
  pose proof (keeps_install_apt_packages s) as K1. rewrite Hapt in K1.
  pose proof (keeps_setup_compiler_environment s1) as K2. rewrite Hsetup in K2.
  simpl in K1, K2. unfold run_resolve_dependencies in Hrun.
  destruct (resolve_dependencies packs) as [[w [e|order]]|].
  - destruct e; try done. injection Hrun as <- <-. simpl. congruence.
  - apply bind_inr in Hrun as ([] & s4 & Hloop & Hrun).
    apply bind_inr in Hrun as (code & s5 & Hld & Hrun).
    by injection Hrun as <- <-.
  - injection Hrun as <- <-. simpl. congruence.
Qed.

(** ** The exit status *)

Lemma main_cases (args : Args) (packs : Packs) environ0 w0 :
  main_try args packs environ0 w0 = 1%Z
  ∨ (main_try args packs environ0 w0 = 0%Z
     ∧ ∃ s results s',
         build_all_packages packs s = (inr results, s')
         ∧ install_prefix (self s) = arg_install_prefix args
         ∧ build_results (self s) = [] ∧ built_packages (self s) = ∅
         ∧ ∀ item, item ∈ results → BuildResult.success (snd item) = true).
Proof.
  remember (main_try args packs environ0 w0) as code eqn:Hcode.
  unfold main_try in Hcode. destruct (path_mkdir false _ w0) as [w1|]; [|by left].
  set (s := {| self := _; environ := environ0; logged := []; world := w1 |}) in Hcode.
  unfold try_except, main_body in Hcode. unfold bind at 1 in Hcode.
  pose proof (exceptions_build_all_packages packs s) as Hex.
  destruct (build_all_packages packs s) as [[e|results] s1] eqn:Hrun.
  { rewrite (Hex e s1 eq_refl) in Hcode. by left. }
  unfold bind at 1 in Hcode.
  pose proof (exceptions_generate_report (path_of (arg_output_dir args)) s1) as Hex2.
  destruct (generate_report _ s1) as [[e|[]] s2].
  { rewrite (Hex2 e s2 eq_refl) in Hcode. by left. }
  destruct (count_successful results =? length results)%nat eqn:Hc; [|by left].
  right. split; [done|]. exists s, results, s1. split_and!; [done..|].
  apply count_successful_all. by apply Nat.eqb_eq.
Qed.

(** X11. When [parse_args] leaves the process ([--help], or arguments it
    refuses), [main] ends with the status [parse_args] gives and nothing is
    run. Once the arguments are parsed, [main] leaves with status 0 or 1 and
    nothing else: every exception of the run ends in [sys.exit(1)]; and
    status 0 then needs a result map, returned by [build_all_packages] on a
    fresh builder, without a failure in it. *)
Theorem main_exit_status (argv : list string) (packs : Packs) environ0 w0 :
  match parse_args argv with
  | inl status => main argv packs environ0 w0 = status
  | inr args =>
      (main argv packs environ0 w0 = 0%Z ∨ main argv packs environ0 w0 = 1%Z)
      ∧ (main argv packs environ0 w0 = 0%Z →
         ∃ s results s',
           build_all_packages packs s = (inr results, s')
           ∧ install_prefix (self s) = arg_install_prefix args
           ∧ build_results (self s) = [] ∧ built_packages (self s) = ∅
           ∧ ∀ item, item ∈ results → BuildResult.success (snd item) = true)
  end.
Proof.
  unfold main. destruct (parse_args argv) as [status|args]; [done|].
  destruct (main_cases args packs environ0 w0) as [H1|[H0 H]].
  - split; [by right|]. rewrite H1. done.
  - split; [by left|done].
Qed.

(** ** The compilers *)

(** What [setup_compiler_environment] may put into [CC] or [CXX]: the path
    of the named compiler under one of [paths], found to exist and to be
    executable. *)
Definition compiler_found (w : World) (name : string) (paths : list string)
    (found : option string) : Prop :=
  match found with
  | None => True
  | Some p =>
      ∃ dir, dir ∈ paths ∧ p = path_join dir name
             ∧ os_path_exists p w = true ∧ os_access_x p w = true
  end.

Lemma find_compilers_found w all : ∀ paths gcc gxx,
  (∀ dir, dir ∈ paths → dir ∈ all) →
  compiler_found w "gcc-10" all gcc → compiler_found w "g++-10" all gxx →
  compiler_found w "gcc-10" all (fst (find_compilers w paths gcc gxx))
  ∧ compiler_found w "g++-10" all (snd (find_compilers w paths gcc gxx)).
Proof.
  induction paths as [|path rest IH]; intros gcc gxx Hsub Hgcc Hgxx; [done|].
  cbn [find_compilers].
  set (gcc' := if os_path_exists (path_join path "gcc-10") w
                  && os_access_x (path_join path "gcc-10") w
               then Some (path_join path "gcc-10") else gcc).
  set (gxx' := if os_path_exists (path_join path "g++-10") w
                  && os_access_x (path_join path "g++-10") w
               then Some (path_join path "g++-10") else gxx).
  assert (compiler_found w "gcc-10" all gcc') as Hgcc'.
  { unfold gcc'. destruct (os_path_exists (path_join path "gcc-10") w) eqn:H1; [|done].
    destruct (os_access_x (path_join path "gcc-10") w) eqn:H2; [|done]. simpl.
    exists path. split_and!; [apply Hsub; left|done..]. }
  assert (compiler_found w "g++-10" all gxx') as Hgxx'.
  { unfold gxx'. destruct (os_path_exists (path_join path "g++-10") w) eqn:H1; [|done].
    destruct (os_access_x (path_join path "g++-10") w) eqn:H2; [|done]. simpl.
    exists path. split_and!; [apply Hsub; left|done..]. }
  assert (∀ dir, dir ∈ rest → dir ∈ all) as Hsub' by (intros d Hd; apply Hsub; by right).
  destruct (path_found gcc'), (path_found gxx'); try done; by apply IH.
Qed.

Lemma path_found_found w name all found :
  compiler_found w name all found → compiler_found w name all (path_found found).
Proof. destruct found as [p|]; [|done]. simpl. by destruct (PyStr.truthy p). Qed.

#[local] Opaque find_compilers.

(** X12. [setup_compiler_environment] never raises and leaves the builder alone.
    Of the environment it can change [CC] and [CXX] only, and it sets [CC]
    only to the path of a [gcc-10], [CXX] only to the path of a [g++-10],
    that it has found to exist and to be executable under one of its three
    directories. *)
Theorem setup_compiler_environment_sets_found_compilers (s : State) :
  let paths := ["/usr/bin"; "/usr/local/bin"; "/opt/gcc/bin"] in
  let s' := snd (setup_compiler_environment s) in
  fst (setup_compiler_environment s) = inr tt
  ∧ self s' = self s
  ∧ (∀ key, key ≠ "CC" → key ≠ "CXX" → environ s' !! key = environ s !! key)
  ∧ (environ s' !! "CC" = environ s !! "CC"
     ∨ ∃ p, environ s' !! "CC" = Some p
            ∧ compiler_found (world s) "gcc-10" paths (Some p))
  ∧ (environ s' !! "CXX" = environ s !! "CXX"
     ∨ ∃ p, environ s' !! "CXX" = Some p
            ∧ compiler_found (world s) "g++-10" paths (Some p)).
Proof.
  intros paths s'. subst s'.
  destruct (find_compilers_found (world s) paths paths None None) as [Hgcc Hgxx];
    [done..|].
  apply (path_found_found _ _ _) in Hgcc. apply (path_found_found _ _ _) in Hgxx.
  destruct (setup_compiler_environment s) as [r s'] eqn:Hrun. cbn [fst snd].
  unfold setup_compiler_environment in Hrun. fold paths in Hrun.
  unfold bind at 1 in Hrun.
  destruct (path_found (fst (find_compilers (world s) paths None None))) as [gcc|],
           (path_found (snd (find_compilers (world s) paths None None))) as [gxx|];
    unfold bind, setenv, warn, system, ret in Hrun; simpl in Hrun;
    repeat match type of Hrun with
           | context [os_system ?c ?e ?w] => destruct (os_system c e w)
           end; simpl in Hrun; injection Hrun as <- <-;
    cbn [self environ set_environ set_logged set_world];
    (split_and!;
     [ done | done
     | intros key H1 H2; by rewrite ?lookup_insert_ne by done
     | first [ left; by rewrite ?lookup_insert_ne by done
             | right; eexists; split;
               [by rewrite ?lookup_insert_ne, ?lookup_insert_eq by done|eassumption] ]
     | first [ left; by rewrite ?lookup_insert_ne by done
             | right; eexists; split;
               [by rewrite ?lookup_insert_ne, ?lookup_insert_eq by done|eassumption] ] ]).
Qed.

#[local] Transparent find_compilers.

(** ** The working directory around a command *)


End Orchestrator.

(** ** Concrete runs *)

(** A world that only records the files written to it: a command succeeds
    unless [fails] says otherwise, a path exists when [present] says so,
    every other call succeeds. *)
Module Run.

Definition World : Type := list (string * string).

Definition os_system (fails : string -> bool) (cmd : string) (_ : gmap string string)
    (w : World) : Z * World :=
  (if fails cmd then 1%Z else 0%Z, w).
Definition os_getcwd (_ : World) : string := "/work".
Definition os_chdir (_ : string) (w : World) : option World := Some w.
Definition os_path_exists (present : string -> bool) (path : string) (_ : World) : bool :=
  present path.
Definition os_access_x (_ : string) (_ : World) : bool := true.
Definition path_mkdir (_ : bool) (_ : string) (w : World) : option World := Some w.
Definition write_file (path content : string) (w : World) : option World :=
  Some (w ++ [(path, content)]).
Definition shutil_copy (_ _ : string) (w : World) : option World := Some w.
Definition path_of (p : string) : string := p.
Definition path_join (a b : string) : string := a +:+ "/" +:+ b.

Definition nothing (_ : string) : bool := false.
Definition everything (_ : string) : bool := true.

Definition builder : Builder :=
  {| install_prefix := "/output"; build_dir := "build"; max_workers := 4;
     build_results := []; built_packages := ∅ |}.

Definition state (b : Builder) (env : gmap string string) : State World :=
  {| self := b; environ := env; logged := []; world := [] |}.

Definition args : Args :=
  {| arg_install_prefix := "/output"; arg_build_dir := "build";
     arg_output_dir := "output"; arg_max_workers := 4 |}.

Definition generate_cmake_args (present : string -> bool) :=
  generate_cmake_args World (os_path_exists present).

Definition build_all_packages (fails present : string -> bool) :=
  build_all_packages World (os_system fails) os_getcwd os_chdir (os_path_exists present)
    os_access_x path_mkdir path_join.

(** The runs of the examples take no arguments, or ask for the help. *)
Definition parse_args (argv : list string) : Z + Args :=
  match argv with
  | [] => inr args
  | ["-h"] | ["--help"] => inl 0%Z
  | _ => inl 2%Z
  end.

Definition main (fails present : string -> bool) :=
  main World (os_system fails) os_getcwd os_chdir (os_path_exists present) os_access_x
    path_mkdir write_file shutil_copy path_of path_join parse_args.

End Run.

Definition glog_config : Config := default empty_config (Dict.get PACKS url_glog).

Example generate_cmake_args_glog :
  fst (Run.generate_cmake_args Run.nothing glog_config
         (Run.state (set_built_packages {["gflags"]} Run.builder) ∅))
  = inr (PyStr.join args_separator
           [ "-DCMAKE_BUILD_TYPE=Release";
             "-DCMAKE_INSTALL_PREFIX=/output";
             "-DCMAKE_PREFIX_PATH=/output";
             "-DCMAKE_CXX_FLAGS='-std=c++17 -I/output/include'";
             "-DCMAKE_EXE_LINKER_FLAGS='-L/output/lib'";
             "-DCMAKE_SHARED_LINKER_FLAGS='-L/output/lib'";
             "-Dgflags_DIR=/output"; "-Dgflags_ROOT=/output";
             "-Dgflags_DIR=/output"; "-Dgflags_ROOT=/output";
             "-DWITH_GFLAGS=ON"; "-DBUILD_SHARED_LIBS=OFF"; "-DBUILD_STATIC_LIBS=ON";
             "-DBUILD_TESTING=OFF" ]).
Proof. vm_compute. reflexivity. Qed.

(** C4 (as stated) fails: with the same config, built set and install
    prefix, the string returned changes with the variable [CC] of the
    process environment, and a call on a package with dependencies writes
    [PKG_CONFIG_PATH] into that environment. *)
Lemma generate_cmake_args_reads_and_writes_environ :
  let s1 := Run.state Run.builder ∅ in
  let s2 := Run.state Run.builder {["CC" := "/usr/bin/gcc-10"]} in
  self Run.World s1 = self Run.World s2
  ∧ fst (Run.generate_cmake_args Run.everything glog_config s1)
    ≠ fst (Run.generate_cmake_args Run.everything glog_config s2)
  ∧ environ Run.World (snd (Run.generate_cmake_args Run.everything glog_config s1))
    ≠ environ Run.World s1.
Proof.
  split_and!.
  - reflexivity.
  - vm_compute. intros H. discriminate H.
  - intros H. apply (f_equal (λ e : gmap string string, e !! "PKG_CONFIG_PATH")) in H.
    vm_compute in H. discriminate H.
Qed.

Lemma generate_cmake_args_deterministic_witness :
  let s1 := Run.state Run.builder {["CC" := "gcc"; "HOME" := "/root"]} in
  let s2 := Run.state Run.builder {["CC" := "gcc"; "HOME" := "/home/dev"]} in
  fst (Run.generate_cmake_args Run.everything glog_config s1)
  = fst (Run.generate_cmake_args Run.everything glog_config s2)
  ∧ self Run.World (snd (Run.generate_cmake_args Run.everything glog_config s1)) = self Run.World s1
  ∧ world Run.World (snd (Run.generate_cmake_args Run.everything glog_config s1)) = world Run.World s1
  ∧ (∀ k, k ≠ "PKG_CONFIG_PATH" →
          environ Run.World (snd (Run.generate_cmake_args Run.everything glog_config s1)) !! k
          = environ Run.World s1 !! k)
  ∧ logged Run.World (snd (Run.generate_cmake_args Run.everything glog_config s1))
    = logged Run.World s1
  ∧ (dependencies glog_config = [] →
     snd (Run.generate_cmake_args Run.everything glog_config s1) = s1).
Proof.
  apply (generate_cmake_args_deterministic Run.World (Run.os_path_exists Run.everything)
           glog_config
           (Run.state Run.builder {["CC" := "gcc"; "HOME" := "/root"]})
           (Run.state Run.builder {["CC" := "gcc"; "HOME" := "/home/dev"]}));
    vm_compute; reflexivity.
Defined.

(** ** Properties of the report *)

Lemma append_assoc (a b c : string) : (a +:+ b) +:+ c = a +:+ (b +:+ c).
Proof.
  induction a as [|x a IH]; [reflexivity|].
  change (String x ((a +:+ b) +:+ c) = String x (a +:+ b +:+ c)). by f_equal.
Qed.

Lemma append_nil_r (a : string) : a +:+ EmptyString = a.
Proof.
  induction a as [|x a IH]; [reflexivity|].
  change (String x (a +:+ EmptyString) = String x a). by f_equal.
Qed.

(** What the text report says about one package. *)
Definition report_entry (item : string * BuildResult.t) : string :=
  fst item +:+ ": " +:+ (if BuildResult.success (snd item) then "SUCCESS" else "FAILED")
    +:+ newline
    +:+ "  URL: " +:+ BuildResult.url (snd item) +:+ newline
    +:+ "  Message: " +:+ BuildResult.message (snd item) +:+ newline +:+ newline.

Definition successes (results : list (string * BuildResult.t)) : nat :=
  length (filter (λ item, BuildResult.success (snd item) = true) results).

Definition failures (results : list (string * BuildResult.t)) : nat :=
  length (filter (λ item, BuildResult.success (snd item) = false) results).

(** The loop of [generate_report] writes one entry per item and counts each
    item once. *)
Lemma report_loop results : ∀ f successful failed,
  fold_left report_step results (f, successful, failed)
  = (f +:+ String.concat EmptyString (map report_entry results),
     (successful + successes results)%nat, (failed + failures results)%nat).
Proof.
  unfold successes, failures.
  induction results as [|[package result] results IH]; intros f a b.
  - simpl. by rewrite append_nil_r, !Nat.add_0_r.
  - cbn [fold_left report_step]. rewrite !filter_cons. cbn [snd].
    assert (String.concat EmptyString (map report_entry ((package, result) :: results))
            = report_entry (package, result)
              +:+ String.concat EmptyString (map report_entry results)) as ->.
    { cbn [map String.concat]. destruct (map report_entry results); [|done].
      simpl. by rewrite append_nil_r. }
    destruct (BuildResult.success result) eqn:Hs.
    + rewrite IH. rewrite decide_True by done. rewrite decide_False by done.
      rewrite Nat.add_succ_comm. unfold report_entry. cbn [fst snd length].
      rewrite Hs, !append_assoc. reflexivity.
    + rewrite IH. rewrite decide_False by done. rewrite decide_True by done.
      rewrite Nat.add_succ_comm. unfold report_entry. cbn [fst snd length].
      rewrite Hs, !append_assoc. reflexivity.
Qed.

Lemma successes_failures results :
  (successes results + failures results = length results)%nat.
Proof.
  unfold successes, failures.
  induction results as [|[package result] results IH]; [done|].
  rewrite !filter_cons. cbn [snd].
  destruct (BuildResult.success result); simpl; lia.
Qed.

(** The text report: the header, the entries, the summary line. *)
Lemma text_report_entries results :
  text_report results
  = report_header
    +:+ String.concat EmptyString (map report_entry results)
    +:+ "Summary: " +:+ pretty (successes results) +:+ " successful, "
    +:+ pretty (failures results) +:+ " failed" +:+ newline.
Proof.
  unfold text_report. rewrite report_loop. simpl fst.
  change (0 + successes results)%nat with (successes results).
  change (0 + failures results)%nat with (failures results).
  by rewrite !append_assoc.
Qed.

(** A string that [json.dump] writes as it is between double quotes:
    characters from the space to the tilde, without the double quote and
    the backslash. *)
Definition json_plain_char (c : ascii) : bool :=
  let n := nat_of_ascii c in
  ((32 <=? n) && (n <=? 126) && negb (n =? 34) && negb (n =? 92))%nat.

Fixpoint json_plain (s : string) : bool :=
  match s with
  | EmptyString => true
  | String c s' => json_plain_char c && json_plain s'
  end.

Lemma json_escape_char_plain c :
  json_plain_char c = true → json_escape_char c = String c EmptyString.
Proof. destruct c as [[] [] [] [] [] [] [] []]; vm_compute; done. Qed.

Lemma json_string_plain s :
  json_plain s = true
  → json_string s = String PyRepr.dquote (s +:+ String PyRepr.dquote EmptyString).
Proof.
  intros Hs. unfold json_string. f_equal. f_equal.
  induction s as [|c s IH]; [done|].
  cbn [json_plain] in Hs. apply andb_true_iff in Hs as [Hc Hs].
  cbn [json_escape]. rewrite (json_escape_char_plain c Hc), (IH Hs). reflexivity.
Qed.

(** The member of the JSON document for one entry of the result map. *)
Definition json_member (item : string * BuildResult.t) : string :=
  json_string (fst item) +:+ ": {" +:+ newline
  +:+ "    " +:+ json_string "url" +:+ ": " +:+ json_string (BuildResult.url (snd item))
  +:+ "," +:+ newline
  +:+ "    " +:+ json_string "success" +:+ ": "
  +:+ (if BuildResult.success (snd item) then "true" else "false") +:+ "," +:+ newline
  +:+ "    " +:+ json_string "message" +:+ ": "
  +:+ json_string (BuildResult.message (snd item)) +:+ newline
  +:+ "  }".

Lemma json_encode_members level field fields :
  json_encode level (JObj (field :: fields))
  = "{" +:+ (newline +:+ repeat_string "  " (S level))
    +:+ PyStr.join ("," +:+ (newline +:+ repeat_string "  " (S level)))
          (map (λ member : string * Json,
                  let (key, value) := member in
                  json_string key +:+ ": " +:+ json_encode (S level) value)
               (field :: fields))
    +:+ newline +:+ repeat_string "  " level +:+ "}".
Proof. reflexivity. Qed.

(** [json.dump(self.build_results, f, indent=2)] member by member. *)
Lemma json_dumps_report results :
  json_dumps (json_report results)
  = match results with
    | [] => "{}"
    | _ => "{" +:+ newline +:+ "  "
           +:+ PyStr.join ("," +:+ newline +:+ "  ") (map json_member results)
           +:+ newline +:+ "}"
    end.
Proof.
  destruct results as [|item results]; [reflexivity|].
  unfold json_dumps, json_report.
  set (entry := λ item : string * BuildResult.t,
         let (package, result) := item in
         (package, JObj [ ("url", JStr (BuildResult.url result));
                          ("success", JBool (BuildResult.success result));
                          ("message", JStr (BuildResult.message result)) ])).
  change (map entry (item :: results)) with (entry item :: map entry results).
  rewrite json_encode_members.
  change (entry item :: map entry results) with (map entry (item :: results)).
  generalize (item :: results). intros l. rewrite map_map. unfold entry.
  assert (∀ f g : string * BuildResult.t → string, (∀ x, f x = g x) → map f l = map g l)
    as Hext by (intros f g Hfg; apply map_ext, Hfg).
  rewrite (Hext _ json_member); [reflexivity|].
  intros [package result]. rewrite json_encode_members.
  unfold json_member. cbn [map PyStr.join fst snd].
  change (json_encode 2 (JStr ?t)) with (json_string t).
  change (json_encode 2 (JBool ?b)) with (if b then "true" else "false").
  rewrite !append_assoc. reflexivity.
Qed.

(** C9. When [generate_report] returns, it has created the output
    directory and written two documents made from [self.build_results],
    which it leaves as it is: [build_report.json] and then
    [build_report.txt]. The JSON text holds one member per entry, in the
    order of the map, under the package name, with the entry's [url],
    [success] and [message]; a name, URL or message of plain characters
    stands in it as it is between double quotes. The text document is the
    header, then for every entry in the same order its name, status, URL and
    message as they are, then a summary line whose two counts are the
    number of entries that succeeded and the number that did not; the
    counts add up to the number of entries. *)
Theorem generate_report_preserves_results {World : Type}
    (os_path_exists : string → World → bool)
    (path_mkdir : bool → string → World → option World)
    (write_file shutil_copy : string → string → World → option World)
    (path_join : string → string → string)
    (output_dir : string) (s s' : State World) :
  generate_report World os_path_exists path_mkdir write_file shutil_copy path_join
    output_dir s = (inr tt, s') →
  let results := build_results (self World s) in
  let quoted (t : string) := String PyRepr.dquote (t +:+ String PyRepr.dquote EmptyString) in
  let member (item : string * BuildResult.t) :=
    json_string (fst item) +:+ ": {" +:+ newline
    +:+ "    " +:+ quoted "url" +:+ ": " +:+ json_string (BuildResult.url (snd item))
    +:+ "," +:+ newline
    +:+ "    " +:+ quoted "success" +:+ ": "
    +:+ (if BuildResult.success (snd item) then "true" else "false") +:+ "," +:+ newline
    +:+ "    " +:+ quoted "message" +:+ ": "
    +:+ json_string (BuildResult.message (snd item)) +:+ newline
    +:+ "  }" in
  let json_text :=
    match results with
    | [] => "{}"
    | _ => "{" +:+ newline +:+ "  "
           +:+ PyStr.join ("," +:+ newline +:+ "  ") (map member results)
           +:+ newline +:+ "}"
    end in
  let text :=
    report_header
    +:+ String.concat EmptyString
          (map (λ item : string * BuildResult.t,
                  fst item +:+ ": "
                  +:+ (if BuildResult.success (snd item) then "SUCCESS" else "FAILED")
                  +:+ newline
                  +:+ "  URL: " +:+ BuildResult.url (snd item) +:+ newline
                  +:+ "  Message: " +:+ BuildResult.message (snd item)
                  +:+ newline +:+ newline)
               results)
    +:+ "Summary: " +:+ pretty (successes results) +:+ " successful, "
    +:+ pretty (failures results) +:+ " failed" +:+ newline in
  (∃ w1 w2 w3,
     path_mkdir true output_dir (world World s) = Some w1
     ∧ write_file (path_join output_dir "build_report.json") json_text w1 = Some w2
     ∧ write_file (path_join output_dir "build_report.txt") text w2 = Some w3
     ∧ (world World s' = w3
        ∨ shutil_copy "build.log" (path_join output_dir "build.log") w3
          = Some (world World s')))
  ∧ self World s' = self World s
  ∧ (∀ t, json_plain t = true → json_string t = quoted t)
  ∧ (successes results + failures results = length results)%nat.
Proof.
  intros Hrun. cbn zeta. split_and!.
  - apply generate_report_returns in Hrun as (w1 & w2 & w3 & H1 & H2 & H3 & H4).
    rewrite json_dumps_report in H2. rewrite text_report_entries in H3.
    exists w1, w2, w3. split_and!; [exact H1|exact H2|exact H3|exact H4].
  - pose proof (keeps_self_generate_report World os_path_exists path_mkdir write_file
                  shutil_copy path_join output_dir s) as H.
    by rewrite Hrun in H.
  - apply json_string_plain.
  - apply successes_failures.
Qed.

Example text_report_sample :
  text_report
    [ ("A", {| BuildResult.url := "https://example.org/A"; BuildResult.success := true;
               BuildResult.message := "Built successfully" |});
      ("B", {| BuildResult.url := "https://example.org/B"; BuildResult.success := false;
               BuildResult.message := "Build failed" |}) ]
  = "Build Report" +:+ newline
    +:+ "==================================================" +:+ newline +:+ newline
    +:+ "A: SUCCESS" +:+ newline
    +:+ "  URL: https://example.org/A" +:+ newline
    +:+ "  Message: Built successfully" +:+ newline +:+ newline
    +:+ "B: FAILED" +:+ newline
    +:+ "  URL: https://example.org/B" +:+ newline
    +:+ "  Message: Build failed" +:+ newline +:+ newline
    +:+ "Summary: 1 successful, 1 failed" +:+ newline.
Proof. vm_compute. reflexivity. Qed.

(** ** The example runs of the orchestrator *)

Definition url_A := "https://example.org/A".
Definition url_B := "https://example.org/B".
Definition url_C := "https://example.org/C".

(** Every command that mentions the repository of [B] fails. *)
Definition B_fails (cmd : string) : bool := PyStr.contains url_B cmd.

Definition results_A_B : list (string * BuildResult.t) :=
  [ ok_entry url_A; failed_entry url_B "Failed to clone repository" ].

(** Scenario 4: a run over [A, B, C] in which [B] fails. *)
Example build_all_packages_B_fails :
  fst (Run.build_all_packages B_fails Run.nothing chain_registry
         (Run.state Run.builder ∅))
  = inr results_A_B.
Proof. vm_compute. reflexivity. Qed.

Example main_B_fails :
  Run.main B_fails Run.nothing [] chain_registry ∅ [] = 1%Z.
Proof. vm_compute. reflexivity. Qed.

Example main_all_built :
  Run.main Run.nothing Run.nothing [] chain_registry ∅ [] = 0%Z.
Proof. vm_compute. reflexivity. Qed.

(** The report of the run in which [B] fails: both documents are written,
    the JSON text first, and the builder is as before. *)
Lemma generate_report_preserves_results_witness :
  let s := Run.state (set_build_results results_A_B Run.builder) ∅ in
  let s' := snd (generate_report Run.World (Run.os_path_exists Run.nothing) Run.path_mkdir
                   Run.write_file Run.shutil_copy Run.path_join "output" s) in
  (∃ json_text,
     world _ s'
     = [ ("output/build_report.json", json_text);
         ("output/build_report.txt", text_report results_A_B) ]
     ∧ json_text = json_dumps (json_report results_A_B))
  ∧ self _ s' = self _ s
  ∧ (successes results_A_B + failures results_A_B = length results_A_B)%nat.
Proof.
  intros s s'.
  pose (run := generate_report Run.World (Run.os_path_exists Run.nothing) Run.path_mkdir
                 Run.write_file Run.shutil_copy Run.path_join "output" s).
  assert (run = (inr tt, s')) as Hrun.
  { transitivity (fst run, snd run); [apply surjective_pairing|].
    apply (f_equal (λ r, (r, snd run))). vm_compute. reflexivity. }
  pose proof (generate_report_preserves_results (Run.os_path_exists Run.nothing)
                Run.path_mkdir Run.write_file Run.shutil_copy Run.path_join
                "output" s s' Hrun) as H.
  cbn zeta in H. destruct H as ((w1 & w2 & w3 & H1 & H2 & H3 & H4) & Hself & _ & Hcount).
  split_and!; [|exact Hself|exact Hcount].
  injection H1 as <-. injection H2 as <-. injection H3 as <-.
  exists (json_dumps (json_report results_A_B)). split; [|reflexivity].
  destruct H4 as [H4|_]; [rewrite H4|]; vm_compute; reflexivity.
Defined.

(** C6 (the code departs from the claim). On a registry with a dependency
    cycle [build_all_packages] logs the failed resolution and returns an
    empty result map; [main] then counts zero successes out of zero results
    and leaves with status 0, although no package was attempted. *)
Theorem main_exits_zero_on_cycle :
  resolve_dependencies cyclic_registry
  = Some ([], inl (ValueError "Circular dependency detected involving https://example.org/A"))
  ∧ Run.main Run.nothing Run.nothing [] cyclic_registry ∅ [] = 0%Z.
Proof. split; vm_compute; reflexivity. Qed.

(** ** Unresolved dependency names *)

Section Unresolved.
Variable packages : Packs.













End Unresolved.

(** * Further properties of the code *)

(** ** Package names *)

Fixpoint no_slash (s : string) : bool :=
  match s with
  | EmptyString => true
  | String c s' => negb (Ascii.eqb c "/") && no_slash s'
  end.

Lemma split_no_slash s : no_slash s = true → PyStr.split "/" s = [s].
Proof.
  induction s as [|c s IH]; [done|]. cbn [no_slash PyStr.split].
  destruct (Ascii.eqb c "/"); [done|]. simpl. intros H. by rewrite (IH H).
Qed.

Lemma split_segments_no_slash s : Forall (λ seg, no_slash seg = true) (PyStr.split "/" s).
Proof.
  induction s as [|c s IH]; cbn [PyStr.split]; [by repeat constructor|].
  destruct (Ascii.eqb c "/") eqn:Hc; [by constructor|].
  destruct (PyStr.split "/" s) as [|seg segs]; [repeat constructor; simpl; by rewrite Hc|].
  apply Forall_cons in IH as [Hseg Hsegs]. constructor; [|done].
  simpl. by rewrite Hc.
Qed.

Lemma split_after_slash base name :
  no_slash name = true →
  ∃ seg rest, PyStr.split "/" (base +:+ "/" +:+ name) = seg :: rest
              ∧ rest ≠ [] ∧ List.last rest EmptyString = name.
Proof.
  intros Hname. induction base as [|c base (seg & rest & Heq & Hne & Hlast)].
  - exists EmptyString, [name]. split_and!; [|done..].
    change (EmptyString +:+ "/" +:+ name) with (String "/" name).
    cbn [PyStr.split]. simpl. by rewrite (split_no_slash name Hname).
  - change (String c base +:+ "/" +:+ name) with (String c (base +:+ "/" +:+ name)).
    cbn [PyStr.split]. rewrite Heq. destruct (Ascii.eqb c "/").
    + exists EmptyString, (seg :: rest). split_and!; [done..|].
      destruct rest; [done|]. done.
    + exists (String c seg), rest. done.
Qed.

(** X1. The package name is what follows the last slash of the URL: it holds no
    slash itself and the URL ends with it, after a slash unless the URL has
    none. *)
Theorem get_package_name_last_segment (base name : string) :
  no_slash name = true →
  get_package_name (base +:+ "/" +:+ name) = name
  ∧ get_package_name name = name
  ∧ ∀ url, no_slash (get_package_name url) = true.
Proof.
  intros Hname. unfold get_package_name, PyStr.last_segment. split_and!.
  - destruct (split_after_slash base name Hname) as (seg & rest & -> & Hne & Hlast).
    destruct rest; [done|]. exact Hlast.
  - by rewrite (split_no_slash name Hname).
  - intros url. pose proof (split_segments_no_slash url) as Hall.
    induction Hall as [|seg segs Hseg Hall IH]; [done|].
    destruct segs; [done|]. exact IH.
Qed.

Lemma get_package_name_last_segment_witness :
  get_package_name ("https://github.com/AI-Infra-Team" +:+ "/" +:+ "rdma-core") = "rdma-core"
  ∧ get_package_name "rdma-core" = "rdma-core"
  ∧ ∀ url, no_slash (get_package_name url) = true.
Proof.
  apply (get_package_name_last_segment "https://github.com/AI-Infra-Team" "rdma-core").
  reflexivity.
Defined.

(** ** Termination and the log of dependency resolution *)

(** X2. The search completes on every registry, cyclic or not, as soon as the
    recursion may nest once more than there are packages: [visit] enters a
    package only while it is not in progress. *)
Theorem resolve_dependencies_terminates (packages : Packs) (fuel : nat) :
  (length packages < fuel)%nat →
  ∃ r st, visit_all packages fuel (Dict.keys packages) initial_visit_state = Some (r, st).
Proof.
  intros Hfuel.
  pose proof (visit_all_spec packages fuel (Dict.keys packages) initial_visit_state) as H.
  destruct (visit_all packages fuel (Dict.keys packages) initial_visit_state)
    as [[r st]|]; [eauto|].
  exfalso. apply H; [|apply Inv_initial|done|].
  - intros u Hu. unfold keys_set. by apply elem_of_list_to_set.
  - pose proof (size_keys_set packages). lia.
Qed.

Lemma resolve_dependencies_terminates_witness :
  ∃ r st, visit_all cyclic_registry 3 (Dict.keys cyclic_registry) initial_visit_state
          = Some (r, st).
Proof. apply (resolve_dependencies_terminates cyclic_registry 3). simpl. lia. Defined.

Section WarningLog.
Variable packages : Packs.

(** A message the search may log: the one for a package and a name it
    declares that the lookup does not resolve. *)
Definition unresolved_warning (msg : string) : Prop :=
  ∃ a cfg d, Dict.get packages a = Some cfg ∧ d ∈ dependencies cfg
             ∧ dep_found (find_dep_url packages d) = None
             ∧ msg = not_found_message d a.

Definition sound_log (st : VisitState) : Prop :=
  ∀ msg, msg ∈ warnings st → unresolved_warning msg.

Lemma visit_deps_sound_log rec url cfg :
  Dict.get packages url = Some cfg →
  (∀ u st r st', rec u st = Some (r, st') → sound_log st → sound_log st') →
  ∀ deps st r st', deps ⊆ dependencies cfg →
    visit_deps packages rec url deps st = Some (r, st') →
    sound_log st → sound_log st'.
Proof.
  intros Hget Hrec. induction deps as [|d deps IH]; intros st r st' Hsub Hrun Hsound.
  - by injection Hrun as _ <-.
  - assert (deps ⊆ dependencies cfg) as Hsub' by (intros x Hx; apply Hsub; by right).
    cbn [visit_deps] in Hrun.
    destruct (dep_found (find_dep_url packages d)) as [b|] eqn:Hf.
    + destruct (rec b st) as [[[e|[]] s1]|] eqn:Hb; [|eauto|done].
      injection Hrun as _ <-. eauto.
    + eapply IH; [done..|].
      intros msg [Hin|Hin%list_elem_of_singleton]%elem_of_app; [auto|].
      exists url, cfg, d. split_and!; [done| |done..]. apply Hsub. left.
Qed.

Lemma visit_sound_log fuel : ∀ url st r st',
  visit packages fuel url st = Some (r, st') → sound_log st → sound_log st'.
Proof.
  induction fuel as [|fuel IH]; intros url st r st' Hrun Hsound; [done|].
  cbn [visit] in Hrun.
  destruct (decide (url ∈ temp_visited st)); [by injection Hrun as _ <-|].
  destruct (decide (url ∈ visited st)); [by injection Hrun as _ <-|].
  destruct (Dict.get packages url) as [cfg|] eqn:Hget; simpl in Hrun.
  - destruct (visit_deps packages (visit packages fuel) url (dependencies cfg) _)
      as [[[e|[]] s2]|] eqn:Hdeps; [| |done].
    + injection Hrun as _ <-.
      eapply (visit_deps_sound_log _ url cfg Hget IH); [|exact Hdeps|done]. done.
    + injection Hrun as _ <-.
      pose proof (visit_deps_sound_log _ url cfg Hget IH _ _ _ _
                    ltac:(done) Hdeps Hsound) as H.
      exact H.
  - by injection Hrun as _ <-.
Qed.

Lemma visit_all_sound_log fuel : ∀ urls st r st',
  visit_all packages fuel urls st = Some (r, st') → sound_log st → sound_log st'.
Proof.
  induction urls as [|url urls IH]; intros st r st' Hrun Hsound.
  - by injection Hrun as _ <-.
  - cbn [visit_all] in Hrun.
    destruct (visit packages fuel url st) as [[[e|[]] s1]|] eqn:Hv; [| |done].
    + injection Hrun as _ <-. eapply visit_sound_log; eauto.
    + eapply IH; [done|]. eapply visit_sound_log; eauto.
Qed.

End WarningLog.

(** Whatever way resolution ends, every warning it has logged is about a
    declared name that does not resolve. *)
Lemma resolve_dependencies_sound_log (packages : Packs) w r :
  resolve_dependencies packages = Some (w, r) →
  ∀ msg, msg ∈ w → unresolved_warning packages msg.
Proof.
  intros Hres. unfold resolve_dependencies in Hres.
  destruct (visit_all packages _ _ _) as [[[e|[]] st]|] eqn:Hrun; [| |done].
  - injection Hres as <- _.
    eapply (visit_all_sound_log packages); [exact Hrun|]. by intros msg ?%elem_of_nil.
  - injection Hres as <- _.
    eapply (visit_all_sound_log packages); [exact Hrun|]. by intros msg ?%elem_of_nil.
Qed.

(** X3. Whatever way resolution ends, each warning it has logged is about a name
    that a registered package declares and the lookup does not resolve; and
    when resolution returns a list, every such name of every package has its
    warning. A registry whose names all resolve logs nothing. *)
Theorem resolve_dependencies_warnings (packages : Packs) w r :
  resolve_dependencies packages = Some (w, r) →
  (∀ msg, msg ∈ w → unresolved_warning packages msg)
  ∧ (∀ order, r = inr order → ∀ msg, unresolved_warning packages msg → msg ∈ w)
  ∧ ((∀ a cfg d, Dict.get packages a = Some cfg → d ∈ dependencies cfg →
        dep_found (find_dep_url packages d) ≠ None) → w = []).
Proof.
  intros Hres.
  assert (∀ msg, msg ∈ w → unresolved_warning packages msg) as Hsound.
  { unfold resolve_dependencies in Hres.
    destruct (visit_all packages _ _ _) as [[[e|[]] st]|] eqn:Hrun; [| |done].
    - injection Hres as <- _.
      eapply (visit_all_sound_log packages); [exact Hrun|]. by intros msg ?%elem_of_nil.
    - injection Hres as <- _.
      eapply (visit_all_sound_log packages); [exact Hrun|]. by intros msg ?%elem_of_nil. }
  split_and!; [done| |].
  - intros order -> msg (a & cfg & d & Hget & Hd & Hf & ->).
    pose proof (resolve_dependencies_spec packages) as H. rewrite Hres in H.
    destruct H as (_ & _ & _ & Hwarn). eapply Hwarn; [|done..].
    unfold keys_set. apply elem_of_list_to_set. by eapply get_Some_key.
  - intros Hall. destruct w as [|msg w]; [done|]. exfalso.
    destruct (Hsound msg) as (a & cfg & d & Hget & Hd & Hf & _); [left|].
    by apply (Hall a cfg d).
Qed.

Lemma resolve_dependencies_warnings_witness :
  (∀ msg, msg ∈ ["Dependency X not found for D"] →
          unresolved_warning dangling_registry msg)
  ∧ (∀ order, (inr ["https://example.org/D"] : exn + list string) = inr order →
       ∀ msg, unresolved_warning dangling_registry msg →
              msg ∈ ["Dependency X not found for D"])
  ∧ ((∀ a cfg d, Dict.get dangling_registry a = Some cfg → d ∈ dependencies cfg →
        dep_found (find_dep_url dangling_registry d) ≠ None) →
     ["Dependency X not found for D"] = []).
Proof.
  apply (resolve_dependencies_warnings dangling_registry
           ["Dependency X not found for D"] (inr ["https://example.org/D"])).
  vm_compute. reflexivity.
Defined.

(** ** A registry that is already in dependency order *)

Section Ordered.
Variable packages : Packs.

(** Every name a package declares resolves, if at all, to an entry that
    stands before the package in the registry. *)
Definition dependency_ordered : Prop :=
  ∀ pre u c post d b,
    packages = pre ++ (u, c) :: post → d ∈ dependencies c →
    dep_found (find_dep_url packages d) = Some b → b ∈ Dict.keys pre.

Lemma visit_step fuel url st :
  visit packages (S fuel) url st
  = if decide (url ∈ temp_visited st)
    then Some (inl (ValueError (cycle_message url)), st)
    else if decide (url ∈ visited st) then Some (inr tt, st)
    else
      match visit_deps packages (visit packages fuel) url
              (dependencies (default empty_config (Dict.get packages url)))
              {| visited := visited st; temp_visited := temp_visited st ∪ {[url]};
                 result := result st; warnings := warnings st |} with
      | Some (inr tt, st2) =>
          Some (inr tt,
                {| visited := visited st2 ∪ {[url]};
                   temp_visited := temp_visited st2 ∖ {[url]};
                   result := result st2 ++ [url];
                   warnings := warnings st2 |})
      | r => r
      end.
Proof. reflexivity. Qed.

Lemma visit_deps_visited fuel url : ∀ deps st,
  (∀ d b, d ∈ deps → dep_found (find_dep_url packages d) = Some b →
          b ∈ visited st ∧ b ∉ temp_visited st) →
  ∃ ws, visit_deps packages (visit packages (S fuel)) url deps st
        = Some (inr tt, {| visited := visited st; temp_visited := temp_visited st;
                           result := result st; warnings := warnings st ++ ws |}).
Proof.
  induction deps as [|d deps IH]; intros st Hdeps.
  - exists []. rewrite app_nil_r. by destruct st.
  - cbn [visit_deps]. destruct (dep_found (find_dep_url packages d)) as [b|] eqn:Hf.
    + destruct (Hdeps d b) as [Hv Ht]; [left|done|].
      rewrite visit_step. rewrite decide_False by done. rewrite decide_True by done.
      apply IH. intros d' b' Hd'. apply Hdeps. by right.
    + destruct (IH (log_warning (not_found_message d url) st)) as [ws Hws].
      { intros d' b' Hd'. apply Hdeps. by right. }
      exists ([not_found_message d url] ++ ws). rewrite Hws. simpl.
      by rewrite <- app_assoc.
Qed.

Lemma visit_ready fuel url cfg st :
  Dict.get packages url = Some cfg →
  url ∉ temp_visited st → url ∉ visited st →
  (∀ d b, d ∈ dependencies cfg → dep_found (find_dep_url packages d) = Some b →
          b ∈ visited st ∧ b ∉ temp_visited st) →
  ∃ ws, visit packages (S (S fuel)) url st
        = Some (inr tt, {| visited := visited st ∪ {[url]};
                           temp_visited := (temp_visited st ∪ {[url]}) ∖ {[url]};
                           result := result st ++ [url];
                           warnings := warnings st ++ ws |}).
Proof.
  intros Hget Ht Hv Hdeps. rewrite visit_step.
  rewrite decide_False by done. rewrite decide_False by done. rewrite Hget.
  change (default empty_config (Some cfg)) with cfg.
  destruct (visit_deps_visited fuel url (dependencies cfg)
              {| visited := visited st; temp_visited := temp_visited st ∪ {[url]};
                 result := result st; warnings := warnings st |}) as [ws Hws].
  { intros d b Hd Hf. destruct (Hdeps d b Hd Hf) as [Hbv Hbt]. simpl. split; [done|].
    intros [Hin| ->%elem_of_singleton]%elem_of_union; done. }
  exists ws. rewrite Hws. reflexivity.
Qed.

Lemma get_app_fresh (pre post : Packs) u c :
  u ∉ Dict.keys pre → Dict.get (pre ++ (u, c) :: post) u = Some c.
Proof.
  induction pre as [|[k v] pre IH]; simpl.
  - by rewrite String.eqb_refl.
  - intros [Hne Hin]%not_elem_of_cons.
    destruct (String.eqb_spec k u) as [->|_]; [done|auto].
Qed.

Lemma visit_all_ordered fuel :
  dict_wf packages → dependency_ordered →
  ∀ post pre st,
    packages = pre ++ post →
    visited st = list_to_set (Dict.keys pre) → temp_visited st = ∅ →
    result st = Dict.keys pre →
    ∃ st', visit_all packages (S (S fuel)) (Dict.keys post) st = Some (inr tt, st')
           ∧ result st' = Dict.keys packages.
Proof.
  intros Hwf Hord. induction post as [|[u c] post IH]; intros pre st Hp Hv Ht Hr.
  - exists st. rewrite app_nil_r in Hp. by subst pre.
  - assert (u ∉ Dict.keys pre) as Hfresh.
    { unfold dict_wf, Dict.keys in Hwf. rewrite Hp, map_app in Hwf. simpl in Hwf.
      apply NoDup_app in Hwf as (_ & Hdisj & _). intros Hin. apply (Hdisj u Hin). left. }
    destruct (visit_ready fuel u c st) as [ws Hws].
    { rewrite Hp. by apply get_app_fresh. }
    { rewrite Ht. set_solver. }
    { rewrite Hv. by rewrite elem_of_list_to_set. }
    { intros d b Hd Hf. rewrite Hv, Ht, elem_of_list_to_set. split; [|set_solver].
      by apply (Hord pre u c post d b). }
    cbn [Dict.keys map fst visit_all]. rewrite Hws.
    apply (IH (pre ++ [(u, c)])).
    + by rewrite <- app_assoc.
    + simpl. rewrite Hv. unfold Dict.keys. rewrite map_app. simpl.
      rewrite list_to_set_app_L. set_solver.
    + simpl. rewrite Ht. set_solver.
    + simpl. rewrite Hr. unfold Dict.keys. by rewrite map_app.
Qed.

End Ordered.

(** X4. On a registry whose entries are already in dependency order,
    [resolve_dependencies] returns the URLs in registry order: it reorders
    nothing that need not move. The registry of [pack.py] is of this
    kind. *)
Theorem resolve_dependencies_keeps_order (packages : Packs) :
  dict_wf packages → dependency_ordered packages →
  ∃ w, resolve_dependencies packages = Some (w, inr (Dict.keys packages)).
Proof.
  intros Hwf Hord. unfold resolve_dependencies, resolve_fuel.
  destruct packages as [|entry rest] eqn:Hp.
  - by exists [].
  - rewrite <- Hp in *.
    destruct (visit_all_ordered packages (length rest) Hwf Hord packages []
                initial_visit_state) as (st' & Hrun & Hres); try done.
    replace (length packages) with (S (length rest)) by (by rewrite Hp).
    rewrite Hrun. exists (warnings st'). by rewrite Hres.
Qed.

(** Deciding [dependency_ordered] entry by entry. *)
Fixpoint ordered_from (packages pre post : Packs) : bool :=
  match post with
  | [] => true
  | (u, c) :: post' =>
      forallb (λ d, match dep_found (find_dep_url packages d) with
                    | Some b => bool_decide (b ∈ Dict.keys pre)
                    | None => true
                    end) (dependencies c)
      && ordered_from packages (pre ++ [(u, c)]) post'
  end.

Lemma ordered_from_sound packages : ∀ post pre,
  packages = pre ++ post → ordered_from packages pre post = true →
  ∀ pre' u c post' d b,
    packages = pre' ++ (u, c) :: post' → (length pre ≤ length pre')%nat →
    d ∈ dependencies c → dep_found (find_dep_url packages d) = Some b →
    b ∈ Dict.keys pre'.
Proof.
  induction post as [|[u0 c0] post IH]; intros pre Hp Hok pre' u c post' d b Hp' Hlen Hd Hf.
  - rewrite app_nil_r in Hp. subst pre. apply (f_equal length) in Hp'.
    rewrite length_app in Hp'. simpl in Hp'. lia.
  - cbn [ordered_from] in Hok. apply andb_true_iff in Hok as [Hhere Hrest].
    destruct (decide (length pre = length pre')) as [Heq|Hne].
    + rewrite Hp in Hp'. apply app_inj_1 in Hp' as [-> [= -> -> ->]]; [|done].
      rewrite forallb_forall in Hhere.
      specialize (Hhere d (proj1 (list_elem_of_In _ _) Hd)).
      rewrite Hf in Hhere. by apply bool_decide_eq_true in Hhere.
    + apply (IH (pre ++ [(u0, c0)])) with (u := u) (c := c) (post' := post') (d := d);
        try done.
      * by rewrite <- app_assoc.
      * rewrite length_app. simpl. lia.
Qed.

Lemma resolve_dependencies_keeps_order_witness :
  ∃ w, resolve_dependencies PACKS = Some (w, inr (Dict.keys PACKS)).
Proof.
  apply (resolve_dependencies_keeps_order PACKS).
  - apply (bool_decide_unpack _). vm_compute. exact I.
  - intros pre u c post d b Hp Hd Hf.
    eapply (ordered_from_sound PACKS PACKS [] eq_refl); [|exact Hp| |exact Hd|exact Hf].
    + vm_compute. reflexivity.
    + simpl. lia.
Defined.

(** ** Runs that show the properties of the orchestrator *)

(** The command [ldconfig] fails, every other command succeeds. *)
Definition ldconfig_fails (cmd : string) : bool := String.eqb cmd "ldconfig".

Definition build_package_in (fails present : string -> bool) :=
  build_package Run.World (Run.os_system fails) Run.os_getcwd Run.os_chdir
    (Run.os_path_exists present) Run.path_mkdir Run.path_join.

Example build_package_ldconfig_fails :
  fst (build_package_in ldconfig_fails Run.nothing url_A (with_deps [])
         (Run.state Run.builder ∅))
  = inl (CalledProcessError 1 "ldconfig").
Proof. vm_compute. reflexivity. Qed.

Lemma build_package_raises_only_ldconfig_witness :
  ∃ returncode,
    CalledProcessError 1 "ldconfig" = CalledProcessError returncode "ldconfig"
    ∧ returncode ≠ 0%Z.
Proof.
  pose (run := build_package_in ldconfig_fails Run.nothing url_A (with_deps [])
                 (Run.state Run.builder ∅)).
  apply (build_package_raises_only_ldconfig Run.World (Run.os_system ldconfig_fails)
           Run.os_getcwd Run.os_chdir (Run.os_path_exists Run.nothing) Run.path_mkdir
           Run.path_join url_A (with_deps []) (Run.state Run.builder ∅) (snd run)).
  transitivity (fst run, snd run); [apply surjective_pairing|].
  apply (f_equal (λ r, (r, snd run))). vm_compute. reflexivity.
Defined.

(** The directory appears only after the first call: the second call puts
    it on [PKG_CONFIG_PATH], the third changes nothing. *)
Example generate_cmake_args_search_path_run :
  let s := Run.state Run.builder ∅ in
  let s1 := snd (Run.generate_cmake_args Run.nothing glog_config s) in
  let s2 := snd (Run.generate_cmake_args Run.everything glog_config s1) in
  let s3 := snd (Run.generate_cmake_args Run.everything glog_config s2) in
  environ _ s1 !! "PKG_CONFIG_PATH" = None
  ∧ environ _ s2 !! "PKG_CONFIG_PATH" = Some "/output/lib/pkgconfig"
  ∧ environ _ s3 !! "PKG_CONFIG_PATH" = Some "/output/lib/pkgconfig".
Proof. vm_compute. done. Qed.

Lemma build_all_packages_built_packages_witness :
  built_packages
    (self Run.World
       (snd (Run.build_all_packages B_fails Run.nothing chain_registry
               (Run.state Run.builder ∅))))
  = list_to_set
      (map fst (filter (λ item : string * BuildResult.t,
                          BuildResult.success (snd item) = true) results_A_B)).
Proof.
  pose (run := Run.build_all_packages B_fails Run.nothing chain_registry
                 (Run.state Run.builder ∅)).
  apply (build_all_packages_built_packages Run.World (Run.os_system B_fails) Run.os_getcwd
           Run.os_chdir (Run.os_path_exists Run.nothing) Run.os_access_x Run.path_mkdir
           Run.path_join chain_registry (Run.state Run.builder ∅) (snd run) results_A_B).
  - apply (bool_decide_unpack _). vm_compute. exact I.
  - reflexivity.
  - reflexivity.
  - transitivity (fst run, snd run); [apply surjective_pairing|].
    apply (f_equal (λ r, (r, snd run))). vm_compute. reflexivity.
Defined.

Lemma build_all_packages_all_built_witness :
  map ok_entry [url_A; url_B; url_C] = map ok_entry [url_A; url_B; url_C]
  ∧ [url_A; url_B; url_C] ≡ₚ Dict.keys chain_registry.
Proof.
  pose (run := Run.build_all_packages Run.nothing Run.nothing chain_registry
                 (Run.state Run.builder ∅)).
  apply (build_all_packages_all_built Run.World (Run.os_system Run.nothing) Run.os_getcwd
           Run.os_chdir (Run.os_path_exists Run.nothing) Run.os_access_x Run.path_mkdir
           Run.path_join chain_registry (Run.state Run.builder ∅) (snd run)
           (map ok_entry [url_A; url_B; url_C]) []).
  - apply (bool_decide_unpack _). vm_compute. exact I.
  - reflexivity.
  - vm_compute. reflexivity.
  - transitivity (fst run, snd run); [apply surjective_pairing|].
    apply (f_equal (λ r, (r, snd run))). vm_compute. reflexivity.
  - intros item Hin. simpl in Hin.
    repeat (apply elem_of_cons in Hin as [->|Hin]; [reflexivity|]).
    by apply elem_of_nil in Hin.
Defined.


(** ** A failure in the middle of the build order *)



(** A world that remembers the commands run in it: a command fails when
    [fails] says so of the commands before it and of the command. *)
Module Trace.

Definition World : Type := list string.

Definition os_system (fails : World -> string -> bool) (cmd : string)
    (_ : gmap string string) (w : World) : Z * World :=
  (if fails w cmd then 1%Z else 0%Z, w ++ [cmd]).
Definition os_getcwd (_ : World) : string := "/work".
Definition os_chdir (_ : string) (w : World) : option World := Some w.
Definition os_path_exists (_ : string) (_ : World) : bool := false.
Definition os_access_x (_ : string) (_ : World) : bool := true.
Definition path_mkdir (_ : bool) (_ : string) (w : World) : option World := Some w.
Definition path_join (a b : string) : string := a +:+ "/" +:+ b.

Definition state (b : Builder) (env : gmap string string) : State World :=
  {| self := b; environ := env; logged := []; world := [] |}.

Definition build_all_packages (fails : World -> string -> bool) :=
  build_all_packages World (os_system fails) os_getcwd os_chdir os_path_exists
    os_access_x path_mkdir path_join.

End Trace.



(** ** The exit status and the report *)

Lemma count_successful_successes results : count_successful results = successes results.
Proof.
  unfold count_successful, successes, Dict.values.
  induction results as [|[package r] results IH]; [done|].
  cbn [map snd]. rewrite !filter_cons. cbn [snd].
  destruct (decide (BuildResult.success r = true)); simpl; by rewrite IH.
Qed.

(** * The container build ([pack_in_container.py])

    [print] is not modelled. A string literal with characters outside ASCII
    stands for its UTF-8 bytes, which is what [open(path, "w")] writes. *)

(** ** Resolution and the run around it *)

Section Outcomes.

Variable World : Type.
Variable os_system : string -> gmap string string -> World -> Z * World.
Variable os_getcwd : World -> string.
Variable os_chdir : string -> World -> option World.
Variable os_path_exists : string -> World -> bool.
Variable os_access_x : string -> World -> bool.
Variable path_mkdir : bool -> string -> World -> option World.
Variable write_file : string -> string -> World -> option World.
Variable shutil_copy : string -> string -> World -> option World.
Variable path_of : string -> string.
Variable path_join : string -> string -> string.
Variable parse_args : list string -> Z + Args.

Notation "x <- m ;; k" := (bind World m (fun x => k))
  (at level 100, m at next level, right associativity).
Notation "m ;;; k" := (bind World m (fun _ => k))
  (at level 100, right associativity).

(** C3 (as amended). On a registry whose dependency graph has a cycle, the
    method raises [ValueError]; the URL in its message lies on a cycle; no
    list is returned. The builder, the environment and the world outside
    are as before the call. The one effect is on the log: the warnings of
    the search up to the cycle are handed to the logger, each about a name
    that a registered package declares and the lookup does not resolve; on a
    registry whose declared names all resolve there is none, and the
    process is as it was. *)
Theorem resolve_dependencies_cycle_error (packages : Packs) (s : State World) :
  (∃ u, on_cycle (dep_edge packages) u) →
  ∃ u warnings s',
    run_resolve_dependencies World packages s = (inl (ValueError (cycle_message u)), s')
    ∧ on_cycle (dep_edge packages) u
    ∧ self World s' = self World s
    ∧ environ World s' = environ World s
    ∧ world World s' = world World s
    ∧ logged World s' = logged World s ++ warnings
    ∧ (∀ msg, msg ∈ warnings → unresolved_warning packages msg)
    ∧ ((∀ a cfg d, Dict.get packages a = Some cfg → d ∈ dependencies cfg →
          dep_found (find_dep_url packages d) ≠ None) →
       s' = s).
Proof.
  intros Hcyc. destruct (resolve_dependencies_cyclic packages Hcyc) as (w & u & Hres & Hu).
  exists u, w, (set_logged World (logged World s ++ w) s).
  pose proof (resolve_dependencies_sound_log packages w _ Hres) as Hsound.
  split_and!; try done.
  - unfold run_resolve_dependencies. by rewrite Hres.
  - intros Hall. destruct w as [|msg w].
    + destruct s. unfold set_logged. simpl. by rewrite app_nil_r.
    + exfalso. destruct (Hsound msg) as (a & cfg & d & Hget & Hd & Hf & _); [left|].
      by apply (Hall a cfg d).
Qed.


(** X13. [main] and [generate_report] count the same result map alike. When
    the body of the [try] of [main], on a builder without results, ends in
    [sys.exit(code)], then [build_all_packages] has returned the results of
    the builder and [generate_report] has written [build_report.txt] from
    them; the summary line of that text gives the number of entries that
    succeeded and the number that did not; and [code] is 0 exactly when the
    number of failures in that line is 0, else 1. It is the exit status of
    [main] on arguments that parse to [args]. *)
Theorem exit_status_agrees_with_report (args : Args) (packs : Packs) (s s' : State World)
    (code : Z) :
  build_results (self World s) = [] →
  main_body World os_system os_getcwd os_chdir os_path_exists os_access_x path_mkdir
    write_file shutil_copy path_of path_join args packs s
  = (inl (SystemExit code), s') →
  ∃ results s1,
    let successful :=
      length (filter (λ item : string * BuildResult.t,
                        BuildResult.success (snd item) = true) results) in
    let failed :=
      length (filter (λ item : string * BuildResult.t,
                        BuildResult.success (snd item) = false) results) in
    build_all_packages World os_system os_getcwd os_chdir os_path_exists os_access_x
      path_mkdir path_join packs s = (inr results, s1)
    ∧ build_results (self World s1) = results
    ∧ generate_report World os_path_exists path_mkdir write_file shutil_copy path_join
        (path_of (arg_output_dir args)) s1 = (inr tt, s')
    ∧ (∃ w w', write_file (path_join (path_of (arg_output_dir args)) "build_report.txt")
                 (text_report results) w = Some w')
    ∧ (∃ entries,
         text_report results
         = report_header +:+ entries
           +:+ "Summary: " +:+ pretty successful +:+ " successful, "
           +:+ pretty failed +:+ " failed" +:+ newline)
    ∧ (successful + failed = length results)%nat
    ∧ (code = 0%Z ↔ failed = 0%nat)
    ∧ (code = 1%Z ↔ failed ≠ 0%nat)
    ∧ (∀ argv environ0 w0 w1,
         parse_args argv = inr args →
         path_mkdir false (path_of (arg_build_dir args)) w0 = Some w1 →
         s = {| self := {| install_prefix := arg_install_prefix args;
                           build_dir := path_of (arg_build_dir args);
                           max_workers := arg_max_workers args;
                           build_results := [];
                           built_packages := ∅ |};
                environ := environ0; logged := []; world := w1 |} →
         main World os_system os_getcwd os_chdir os_path_exists os_access_x path_mkdir
           write_file shutil_copy path_of path_join parse_args argv packs environ0 w0
         = code).
Proof.
  intros Hfresh Hrun. pose proof Hrun as Hbody. unfold main_body in Hrun.
  unfold bind at 1 in Hrun.
  pose proof (exceptions_build_all_packages World os_system os_getcwd os_chdir
                os_path_exists os_access_x path_mkdir path_join packs s) as Hex.
  destruct (build_all_packages _ _ _ _ _ _ _ _ packs s) as [[e|results] s1] eqn:Hbuild.
  { injection Hrun as -> _. by specialize (Hex _ _ eq_refl). }
  unfold bind at 1 in Hrun.
  pose proof (exceptions_generate_report World os_path_exists path_mkdir write_file
                shutil_copy path_join (path_of (arg_output_dir args)) s1) as Hex2.
  destruct (generate_report _ _ _ _ _ _ _ s1) as [[e|[]] s2] eqn:Hreport.
  { injection Hrun as -> _. by specialize (Hex2 _ _ eq_refl). }
  pose proof (build_all_packages_returns_results World os_system os_getcwd os_chdir
                os_path_exists os_access_x path_mkdir path_join packs s s1 results
                Hfresh Hbuild) as Hresults.
  assert (s2 = s'
          ∧ code = if (count_successful results =? length results)%nat then 0%Z else 1%Z)
    as [-> Hcode].
  { destruct (count_successful results =? length results)%nat;
      by injection Hrun as <- <-. }
  clear Hrun. exists results, s1. cbn zeta.
  fold (successes results) (failures results).
  pose proof (successes_failures results) as Hsum.
  rewrite count_successful_successes in Hcode.
  split_and!; try done.
  - apply generate_report_returns in Hreport as (w1 & w2 & w3 & _ & _ & H3 & _).
    rewrite Hresults in H3. eauto.
  - eexists. apply text_report_entries.
  - rewrite Hcode. destruct (Nat.eqb_spec (successes results) (length results)); split;
      (done || lia).
  - rewrite Hcode. destruct (Nat.eqb_spec (successes results) (length results)); split;
      (done || lia).
  - intros argv environ0 w0 w1 Hargs Hmkdir ->.
    unfold main. rewrite Hargs. unfold main_try. rewrite Hmkdir.
    unfold try_except. by rewrite Hbody.
Qed.

End Outcomes.

(** C3 (as stated) fails: resolution has a side effect before it raises. On
    the registry in which [A] declares the unknown name [X] and then [B],
    and [B] declares [A], the warning about [X] is handed to the logger and
    then the cycle is found. *)
Definition warning_before_cycle_registry : Packs :=
  [ ("https://example.org/A", with_deps ["X"; "B"]);
    ("https://example.org/B", with_deps ["A"]) ].

Lemma resolve_dependencies_cycle_logs_warning :
  let s := Run.state Run.builder ∅ in
  let run := run_resolve_dependencies Run.World warning_before_cycle_registry s in
  on_cycle (dep_edge warning_before_cycle_registry) "https://example.org/A"
  ∧ fst run = inl (ValueError (cycle_message "https://example.org/A"))
  ∧ logged Run.World s = []
  ∧ logged Run.World (snd run) = [not_found_message "X" "https://example.org/A"]
  ∧ snd run ≠ s.
Proof.
  split_and!; try (vm_compute; reflexivity).
  - apply t_trans with (y := "https://example.org/B"); apply t_step.
    + exists (with_deps ["X"; "B"]), "B".
      split_and!; [reflexivity | right; left | reflexivity].
    + exists (with_deps ["A"]), "A". split_and!; [reflexivity | left | reflexivity].
  - intros H. apply (f_equal (logged Run.World)) in H. vm_compute in H. discriminate H.
Qed.

Lemma resolve_dependencies_cycle_error_witness :
  ∃ u warnings s',
    run_resolve_dependencies Run.World warning_before_cycle_registry
      (Run.state Run.builder ∅)
    = (inl (ValueError (cycle_message u)), s')
    ∧ on_cycle (dep_edge warning_before_cycle_registry) u
    ∧ self Run.World s' = Run.builder
    ∧ environ Run.World s' = ∅
    ∧ world Run.World s' = []
    ∧ logged Run.World s' = [] ++ warnings
    ∧ (∀ msg, msg ∈ warnings → unresolved_warning warning_before_cycle_registry msg)
    ∧ ((∀ a cfg d, Dict.get warning_before_cycle_registry a = Some cfg →
          d ∈ dependencies cfg →
          dep_found (find_dep_url warning_before_cycle_registry d) ≠ None) →
       s' = Run.state Run.builder ∅).
Proof.
  apply (resolve_dependencies_cycle_error Run.World warning_before_cycle_registry
           (Run.state Run.builder ∅)).
  exists "https://example.org/A".
  apply t_trans with (y := "https://example.org/B"); apply t_step.
  - exists (with_deps ["X"; "B"]), "B".
    split_and!; [reflexivity | right; left | reflexivity].
  - exists (with_deps ["A"]), "A". split_and!; [reflexivity | left | reflexivity].
Defined.




(** The run in which [B] fails ends in [sys.exit(1)], and the report says
    that one package failed. *)
Lemma exit_status_agrees_with_report_witness :
  ∃ results,
    (∃ entries,
       text_report results
       = report_header +:+ entries +:+ "Summary: "
         +:+ pretty (length (filter (λ item : string * BuildResult.t,
                                       BuildResult.success (snd item) = true) results))
         +:+ " successful, "
         +:+ pretty (length (filter (λ item : string * BuildResult.t,
                                       BuildResult.success (snd item) = false) results))
         +:+ " failed" +:+ newline)
    ∧ (1%Z = 0%Z
       ↔ length (filter (λ item : string * BuildResult.t,
                           BuildResult.success (snd item) = false) results) = 0%nat)
    ∧ Run.main B_fails Run.nothing [] chain_registry ∅ [] = 1%Z.
Proof.
  pose (run := main_body Run.World (Run.os_system B_fails) Run.os_getcwd Run.os_chdir
                 (Run.os_path_exists Run.nothing) Run.os_access_x Run.path_mkdir
                 Run.write_file Run.shutil_copy Run.path_of Run.path_join
                 Run.args chain_registry (Run.state Run.builder ∅)).
  destruct (exit_status_agrees_with_report Run.World (Run.os_system B_fails) Run.os_getcwd
              Run.os_chdir (Run.os_path_exists Run.nothing) Run.os_access_x Run.path_mkdir
              Run.write_file Run.shutil_copy Run.path_of Run.path_join Run.parse_args
              Run.args chain_registry (Run.state Run.builder ∅) (snd run) 1%Z)
    as (results & s1 & H).
  - reflexivity.
  - transitivity (fst run, snd run); [apply surjective_pairing|].
    apply (f_equal (λ r, (r, snd run))). vm_compute. reflexivity.
  - cbn zeta in H. destruct H as (_ & _ & _ & _ & Htext & _ & Hcode & _ & Hmain).
    exists results. split_and!; [exact Htext|exact Hcode|].
    apply (Hmain [] ∅ [] []); reflexivity.
Defined.

(** A world that is the working directory of the process and nothing else,
    an absolute path: a relative directory is entered from where the
    process is; every command fails with status 1 and leaves it alone. *)
Module Shell.

Definition World : Type := string.

Definition os_system (_ : string) (_ : gmap string string) (w : World) : Z * World :=
  (1%Z, w).
Definition os_getcwd (w : World) : string := w.
Definition os_chdir (dir : string) (w : World) : option World :=
  Some (if String.prefix "/" dir then dir else w +:+ "/" +:+ dir).

Definition state : State World :=
  {| self := Run.builder; environ := ∅; logged := []; world := "/work" |}.

Definition run_command := run_command World os_system os_getcwd os_chdir.

End Shell.


(** In that world the command runs in [/work/build/gflags], and the failed
    [git pull] leaves the process in [/work]. *)
Example run_command_git_pull_fails :
  let run := Shell.run_command "git pull" (Some "build/gflags") true Shell.state in
  Shell.os_chdir "build/gflags" "/work" = Some "/work/build/gflags"
  ∧ fst run = inl (CalledProcessError 1 "git pull")
  ∧ world _ (snd run) = "/work".
Proof. vm_compute. done. Qed.

Module Container.

(** The fields of a [ContainerBuilder] after [__init__]; a [Path] is its
    string. *)
Record ContainerBuilder : Type := mkContainerBuilder {
  image : string;
  mount_dir : string;
  logs_dir : string;
  container_workspace : string;
  container_output : string;
  container_logs : string;
  container_name : string;
  build_image_name : string;
  build_dir : string
}.

Definition proxy_vars : list string :=
  [ "http_proxy"; "https_proxy"; "ftp_proxy"; "HTTP_PROXY"; "HTTPS_PROXY"; "FTP_PROXY";
    "no_proxy"; "NO_PROXY" ].

Section Container.

(** The environment of the process, which this script only reads, and the
    world outside with the library calls made on it. [docker_version] is
    [subprocess.run(["docker", "--version"], check=True, ...)], true when it
    returns; [write_summary] stands for [generate_summary], which reads the
    clock, parses the JSON report and lists a directory, and may raise. *)
Variable World : Type.
Variable environ : gmap string string.
Variable os_system : string -> gmap string string -> World -> Z * World.
Variable path_exists : string -> World -> bool.
Variable path_mkdir : bool -> string -> World -> option World.
Variable shutil_rmtree : string -> World -> option World.
Variable shutil_copy : string -> string -> World -> option World.
Variable write_file : string -> string -> World -> option World.
Variable path_join : string -> string -> string.
Variable path_resolve : string -> string.
Variable docker_version : World -> bool * World.
Variable write_summary : ContainerBuilder -> World -> option World.

(** A step of the script: the exception or the value, and the world it
    leaves. *)
Definition C (A : Type) : Type := World -> (exn + A) * World.

Definition ret {A} (a : A) : C A := fun w => (inr a, w).

Definition bind {A B} (m : C A) (k : A -> C B) : C B :=
  fun w => match m w with
           | (inl e, w') => (inl e, w')
           | (inr a, w') => k a w'
           end.

Notation "x <- m ;; k" := (bind m (fun x => k))
  (at level 100, m at next level, right associativity).
Notation "m ;;; k" := (bind m (fun _ => k))
  (at level 100, right associativity).

Definition raise {A} (e : exn) : C A := fun w => (inl e, w).

Definition is_Exception (e : exn) : bool :=
  match e with SystemExit _ => false | _ => true end.

Definition step (f : World -> option World) : C unit :=
  fun w => match f w with
           | Some w' => (inr tt, w')
           | None => (inl OSError, w)
           end.

Definition system (cmd : string) : C Z :=
  fun w => let (r, w') := os_system cmd environ w in (inr r, w').

Variable self : ContainerBuilder.

(** [ContainerBuilder.run_command] *)
Definition run_command (cmd : string) (check : bool) : C Z :=
  result <- system cmd ;;
  if check && negb (result =? 0)%Z then raise (CalledProcessError result cmd)
  else ret result.

(** [ContainerBuilder.prepare_build_context] *)
Definition prepare_build_context : C unit :=
  (fun w => if path_exists (build_dir self) w
            then step (shutil_rmtree (build_dir self)) w else (inr tt, w)) ;;;
  step (path_mkdir false (build_dir self)) ;;;
  step (shutil_copy "pack.py" (path_join (build_dir self) "pack.py")).

Definition dq : string := String "034"%char EmptyString.

(** The text of the Dockerfile. *)
Definition dockerfile_content : string :=
  let apt_install_commands := map (fun package => "RUN apt-get install -y " +:+ package) APT in
  let apt_installs := PyStr.join newline apt_install_commands in
  PyStr.join newline
    [ "FROM " +:+ image self;
      "";
      "# 设置环境变量";
      "ENV DEBIAN_FRONTEND=noninteractive";
      "ENV TZ=Asia/Shanghai";
      "";
      "# 设置时区";
      "RUN ln -snf /usr/share/zoneinfo/$TZ /etc/localtime && echo $TZ > /etc/timezone";
      "";
      "# 更新包列表";
      "RUN apt-get update";
      "";
      "# 安装所有依赖包（每个包一个RUN指令）";
      apt_installs;
      "";
      "# 清理apt缓存";
      "RUN rm -rf /var/lib/apt/lists/*";
      "";
      "# 创建工作目录";
      "WORKDIR " +:+ container_workspace self;
      "";
      "# 复制构建脚本和配置文件";
      "COPY pack.py .";
      "";
      "# 设置Python路径";
      "ENV PYTHONPATH=" +:+ container_workspace self;
      "";
      "# 创建输出目录";
      "RUN mkdir -p " +:+ container_output self;
      "";
      "# 创建日志目录";
      "RUN mkdir -p " +:+ container_logs self;
      "";
      "# 设置构建环境变量，让后续构建能找到已安装的库";
      "ENV PKG_CONFIG_PATH=" +:+ container_output self +:+ "/lib/pkgconfig:"
        +:+ container_output self +:+ "/lib64/pkgconfig:$PKG_CONFIG_PATH";
      "ENV LD_LIBRARY_PATH=" +:+ container_output self +:+ "/lib:"
        +:+ container_output self +:+ "/lib64:$LD_LIBRARY_PATH";
      "ENV PATH=" +:+ container_output self +:+ "/bin:$PATH";
      "ENV CPPFLAGS=" +:+ dq +:+ "-I" +:+ container_output self +:+ "/include $CPPFLAGS" +:+ dq;
      "ENV LDFLAGS=" +:+ dq +:+ "-L" +:+ container_output self +:+ "/lib -L"
        +:+ container_output self +:+ "/lib64 $LDFLAGS" +:+ dq;
      "";
      "# 默认执行构建脚本";
      "CMD [" +:+ dq +:+ "python3" +:+ dq +:+ ", " +:+ dq +:+ "pack.py" +:+ dq +:+ ", "
        +:+ dq +:+ "--install-prefix" +:+ dq +:+ ", "
        +:+ dq +:+ container_output self +:+ dq +:+ ", "
        +:+ dq +:+ "--output-logs-dir" +:+ dq +:+ ", "
        +:+ dq +:+ container_logs self +:+ dq +:+ "]";
      "" ].

(** [ContainerBuilder.create_dockerfile] *)
Definition create_dockerfile : C unit :=
  step (write_file (path_join (build_dir self) "Dockerfile") dockerfile_content).

(** The command of [build_docker_image]. *)
Definition docker_build_command : string :=
  let platform_arg :=
    match environ !! "DOCKER_DEFAULT_PLATFORM" with
    | Some platform => "--platform " +:+ platform
    | None => EmptyString
    end in
  "docker build " +:+ platform_arg +:+ " -t " +:+ build_image_name self +:+ " "
    +:+ build_dir self.

(** [ContainerBuilder.build_docker_image] *)
Definition build_docker_image : C unit :=
  prepare_build_context ;;;
  create_dockerfile ;;;
  run_command docker_build_command true ;;;
  ret tt.

(** The loop of [get_proxy_env_vars] over [proxy_vars]. *)
Fixpoint proxy_env_args (vars : list string) : list string :=
  match vars with
  | [] => []
  | var :: rest =>
      match environ !! var with
      | Some value => ("-e " +:+ var +:+ "='" +:+ value +:+ "'") :: proxy_env_args rest
      | None => proxy_env_args rest
      end
  end.

(** [ContainerBuilder.get_proxy_env_vars] *)
Definition get_proxy_env_vars : string := PyStr.join " " (proxy_env_args proxy_vars).

(** The command of [run_container]. *)
Definition docker_run_command : string :=
  let proxy_env := get_proxy_env_vars in
  let proxy_args := if PyStr.truthy proxy_env then " " +:+ proxy_env else EmptyString in
  let platform_arg :=
    match environ !! "DOCKER_DEFAULT_PLATFORM" with
    | Some platform => " --platform " +:+ platform
    | None => EmptyString
    end in
  "docker run --rm" +:+ platform_arg +:+ proxy_args
    +:+ " --mount type=bind,source=" +:+ mount_dir self +:+ ",target=" +:+ container_output self
    +:+ " --mount type=bind,source=" +:+ logs_dir self +:+ ",target=" +:+ container_logs self
    +:+ " --privileged " +:+ build_image_name self.

(** [ContainerBuilder.run_container] *)
Definition run_container : C bool :=
  result <- system docker_run_command ;;
  ret (result =? 0)%Z.

(** [ContainerBuilder.cleanup_image] *)
Definition cleanup_image : C unit :=
  system ("docker rmi " +:+ build_image_name self +:+ " 2>/dev/null || true") ;;;
  ret tt.

(** [ContainerBuilder.cleanup_build_dir] *)
Definition cleanup_build_dir : C unit :=
  fun w => if path_exists (build_dir self) w
           then step (shutil_rmtree (build_dir self)) w else (inr tt, w).

(** [ContainerBuilder.generate_summary] *)
Definition generate_summary : C unit := step (write_summary self).

(** The [try] block of [build_and_run] with its [except Exception]. *)
Definition build_and_run_try : C bool :=
  fun w =>
    match (build_docker_image ;;;
           success <- run_container ;;
           generate_summary ;;;
           ret success) w with
    | (inl e, w') => if is_Exception e then (inr false, w') else (inl e, w')
    | r => r
    end.

(** [ContainerBuilder.build_and_run]: the [finally] block runs whatever the
    [try] block has come to, and an exception in it replaces the value to
    return. *)
Definition build_and_run (cleanup_after : bool) : C bool :=
  fun w =>
    let (r, w1) := build_and_run_try w in
    if cleanup_after then
      match (cleanup_image ;;; cleanup_build_dir) w1 with
      | (inl e, w2) => (inl e, w2)
      | (inr _, w2) => (r, w2)
      end
    else (r, w1).

(** ** Properties of the container build *)

Lemma returns_bind {A B} (m : C A) (k : A → C B) w b w' :
  bind m k w = (inr b, w') → ∃ a w1, m w = (inr a, w1) ∧ k a w1 = (inr b, w').
Proof. unfold bind. destruct (m w) as [[e|a] w1]; [done|]. eauto. Qed.

(** A step that raises nothing but subclasses of [Exception]. *)
Definition raises_only_exceptions {A} (m : C A) : Prop :=
  ∀ w e w', m w = (inl e, w') → is_Exception e = true.

Lemma only_exceptions_bind {A B} (m : C A) (k : A → C B) :
  raises_only_exceptions m → (∀ a, raises_only_exceptions (k a)) → raises_only_exceptions (bind m k).
Proof.
  intros Hm Hk w e w'. unfold bind. specialize (Hm w).
  destruct (m w) as [[e1|a] w1].
  - intros [= <- <-]. by eapply Hm.
  - apply Hk.
Qed.

Lemma only_exceptions_ret {A} (a : A) : raises_only_exceptions (ret a).
Proof. by intros w e w'. Qed.

Lemma only_exceptions_step f : raises_only_exceptions (step f).
Proof. intros w e w'. unfold step. destruct (f w); [done|]. by intros [= <- _]. Qed.

Lemma only_exceptions_system cmd : raises_only_exceptions (system cmd).
Proof. intros w e w'. unfold system. by destruct (os_system cmd environ w). Qed.

Lemma only_exceptions_run_command cmd check : raises_only_exceptions (run_command cmd check).
Proof.
  unfold run_command. apply only_exceptions_bind; [apply only_exceptions_system|].
  intros result. destruct (check && negb (result =? 0)%Z); [|apply only_exceptions_ret].
  by intros w e w' [= <- _].
Qed.

Lemma only_exceptions_build_and_run_body :
  raises_only_exceptions (build_docker_image ;;;
                     success <- run_container ;;
                     generate_summary ;;;
                     ret success).
Proof.
  unfold build_docker_image, prepare_build_context, create_dockerfile, run_container,
    generate_summary.
  repeat first
    [ apply only_exceptions_run_command
    | apply only_exceptions_ret
    | apply only_exceptions_step
    | apply only_exceptions_system
    | apply only_exceptions_bind; [|intros ?] ].
  intros w e w'. destruct (path_exists (build_dir self) w); [apply only_exceptions_step|done].
Qed.

(** X14. Without the cleanup, [build_and_run] never raises: whatever goes wrong
    while the image is built, the container runs or the summary is written
    comes back as the value [False]. *)
Theorem build_and_run_returns (w : World) :
  ∃ success w', build_and_run false w = (inr success, w').
Proof.
  unfold build_and_run, build_and_run_try.
  pose proof (only_exceptions_build_and_run_body w) as Hex.
  destruct ((build_docker_image ;;; success <- run_container ;; generate_summary ;;;
             ret success) w) as [[e|success] w1]; [|eauto].
  rewrite (Hex e w1 eq_refl). eauto.
Qed.

Lemma build_and_run_true (cleanup_after : bool) (w w' : World) :
  build_and_run cleanup_after w = (inr true, w') →
  ∃ w0, build_and_run_try w = (inr true, w0).
Proof.
  intros Hrun.
  unfold build_and_run in Hrun. destruct (build_and_run_try w) as [r w1].
  destruct cleanup_after.
  - destruct ((cleanup_image ;;; cleanup_build_dir) w1) as [[e|[]] w2]; [done|].
    injection Hrun as -> _. eauto.
  - injection Hrun as -> _. eauto.
Qed.

Lemma build_and_run_try_true (w w0 : World) :
  build_and_run_try w = (inr true, w0) →
  ∃ w1 w2 w3 w4,
    os_system docker_build_command environ w1 = (0%Z, w2)
    ∧ os_system docker_run_command environ w2 = (0%Z, w3)
    ∧ write_summary self w3 = Some w4.
Proof.
  intros Htry.
  unfold build_and_run_try in Htry.
  destruct ((build_docker_image ;;; success <- run_container ;; generate_summary ;;;
             ret success) w) as [[e|success] wa] eqn:Hbody.
  { by destruct (is_Exception e). }
  injection Htry as -> ->.
  apply returns_bind in Hbody as ([] & wb & Hbuild & Hbody).
  apply returns_bind in Hbody as (success & wc & Hcontainer & Hbody).
  apply returns_bind in Hbody as ([] & wd & Hsum & Hbody).
  injection Hbody as -> ->.
  unfold build_docker_image in Hbuild.
  apply returns_bind in Hbuild as ([] & w1 & _ & Hbuild).
  apply returns_bind in Hbuild as ([] & w2 & _ & Hbuild).
  apply returns_bind in Hbuild as (code & w3 & Hcmd & Hbuild).
  injection Hbuild as <-.
  unfold run_command, bind, system in Hcmd.
  destruct (os_system docker_build_command environ w2) as [r1 w2'] eqn:H1.
  simpl in Hcmd. destruct (r1 =? 0)%Z eqn:Hr1; simpl in Hcmd; [|done].
  injection Hcmd as _ <-. apply Z.eqb_eq in Hr1 as ->.
  unfold run_container, bind, system in Hcontainer.
  destruct (os_system docker_run_command environ w2') as [r2 w3'] eqn:H2.
  injection Hcontainer as Hr2 <-. apply Z.eqb_eq in Hr2 as ->.
  unfold generate_summary, step in Hsum.
  destruct (write_summary self w3') as [w4|] eqn:H3; [|done].
  exists w2, w2', w3', w4. done.
Qed.

(** X15. [build_and_run] returns [True] only after [docker build] has returned
    status 0, then [docker run] has returned status 0 in the world the build
    left, then the summary has been written. *)
Theorem build_and_run_success (cleanup_after : bool) (w w' : World) :
  build_and_run cleanup_after w = (inr true, w') →
  ∃ w1 w2 w3 w4,
    os_system docker_build_command environ w1 = (0%Z, w2)
    ∧ os_system docker_run_command environ w2 = (0%Z, w3)
    ∧ write_summary self w3 = Some w4.
Proof.
  intros [w0 Htry]%build_and_run_true. by eapply build_and_run_try_true.
Qed.

Lemma proxy_env_args_nil vars :
  proxy_env_args vars = [] ↔ ∀ var, var ∈ vars → environ !! var = None.
Proof.
  induction vars as [|v vars IH]; simpl.
  - split; [|done]. by intros _ var ?%elem_of_nil.
  - destruct (environ !! v) eqn:Hv.
    + split; [done|]. intros H. specialize (H v ltac:(left)). congruence.
    + rewrite IH. split.
      * intros H var [->|Hin]%elem_of_cons; auto.
      * intros H var Hin. apply H. by right.
Qed.

Lemma proxy_env_args_nonempty vars :
  Forall (λ arg, PyStr.truthy arg = true) (proxy_env_args vars).
Proof.
  induction vars as [|v vars IH]; simpl; [done|].
  destruct (environ !! v); [|done]. by constructor.
Qed.

Lemma join_empty sep l :
  Forall (λ x, PyStr.truthy x = true) l → PyStr.join sep l = EmptyString → l = [].
Proof.
  destruct l as [|x l]; [done|]. intros [Hx _]%Forall_cons.
  destruct x as [|c x]; [done|]. simpl. by destruct l.
Qed.

(** X16. [get_proxy_env_vars] returns the empty string, so that [run_container]
    passes no [-e] argument, exactly when none of the eight proxy variables
    is set; a variable set to the empty string still counts. *)
Theorem get_proxy_env_vars_empty :
  get_proxy_env_vars = EmptyString ↔ ∀ var, var ∈ proxy_vars → environ !! var = None.
Proof.
  unfold get_proxy_env_vars. rewrite <- proxy_env_args_nil. split.
  - apply join_empty, proxy_env_args_nonempty.
  - by intros ->.
Qed.

End Container.

(** [ContainerBuilder.__init__]: the three directories are created, in
    order. *)
Definition init {World : Type} (path_mkdir : bool -> string -> World -> option World)
    (path_resolve : string -> string) (timestamp : string)
    (image_arg mount_dir_arg logs_dir_arg : string) (w : World)
    : option (ContainerBuilder * World) :=
  let b :=
    {| image := image_arg;
       mount_dir := path_resolve mount_dir_arg;
       logs_dir := path_resolve logs_dir_arg;
       container_workspace := "/workspace";
       container_output := path_resolve "output";
       container_logs := path_resolve "output_logs";
       container_name := "kvcache-builder-" +:+ timestamp;
       build_image_name := "kvcache-cxx-builder";
       build_dir := ".img_build" |} in
  match path_mkdir true (mount_dir b) w with
  | None => None
  | Some w1 =>
      match path_mkdir true (logs_dir b) w1 with
      | None => None
      | Some w2 =>
          match path_mkdir false (build_dir b) w2 with
          | None => None
          | Some w3 => Some (b, w3)
          end
      end
  end.

(** Command-line arguments of [main] after [argparse]. *)
Record Args : Type := mkArgs {
  arg_image : string;
  arg_mount_dir : string;
  arg_logs_dir : string;
  arg_keep_image : bool
}.

(** [main]: the exit status of the process. [parse_args] is
    [parser.parse_args()] of [argparse] for the parser that [main] builds:
    it returns the namespace, or leaves the process by [SystemExit] with the
    status given (0 after printing the help, 2 on arguments it refuses),
    before anything else is run. An exception that nothing catches ends the
    process with status 1. *)
Definition main {World : Type} (environ : gmap string string)
    (os_system : string -> gmap string string -> World -> Z * World)
    (path_exists : string -> World -> bool)
    (path_mkdir : bool -> string -> World -> option World)
    (shutil_rmtree : string -> World -> option World)
    (shutil_copy : string -> string -> World -> option World)
    (write_file : string -> string -> World -> option World)
    (path_join : string -> string -> string)
    (path_resolve : string -> string)
    (docker_version : World -> bool * World)
    (write_summary : ContainerBuilder -> World -> option World)
    (parse_args : list string -> Z + Args)
    (timestamp : string) (argv : list string) (w : World) : Z :=
  match parse_args argv with
  | inl status => status
  | inr args =>
      let (available, w1) := docker_version w in
      if negb available then 1%Z
      else if negb (path_exists "pack.py" w1) then 1%Z
      else
        match init path_mkdir path_resolve timestamp
                (arg_image args) (arg_mount_dir args) (arg_logs_dir args) w1 with
        | None => 1%Z
        | Some (builder, w2) =>
            match build_and_run World environ os_system path_exists path_mkdir
                    shutil_rmtree shutil_copy write_file path_join write_summary builder
                    (negb (arg_keep_image args)) w2 with
            | (inr true, _) => 0%Z
            | _ => 1%Z
            end
        end
  end.

(** X17. When [parse_args] leaves the process, [main] ends with its status
    and nothing is run. Once the arguments are parsed, [main] ends with
    status 0 or 1, and with status 0 only if [docker --version] ran,
    [pack.py] is in the current directory, the three directories could be
    created, and the builder made from the arguments had [docker build] and
    then [docker run] return status 0. *)
Theorem container_main_exit_status {World : Type} (environ : gmap string string)
    (os_system : string → gmap string string → World → Z * World)
    (path_exists : string → World → bool)
    (path_mkdir : bool → string → World → option World)
    (shutil_rmtree : string → World → option World)
    (shutil_copy write_file : string → string → World → option World)
    (path_join : string → string → string) (path_resolve : string → string)
    (docker_version : World → bool * World)
    (write_summary : ContainerBuilder → World → option World)
    (parse_args : list string → Z + Args)
    (timestamp : string) (argv : list string) (w : World) :
  let status :=
    main environ os_system path_exists path_mkdir shutil_rmtree shutil_copy write_file
      path_join path_resolve docker_version write_summary parse_args timestamp argv w in
  match parse_args argv with
  | inl code => status = code
  | inr args =>
      (status = 0%Z ∨ status = 1%Z)
      ∧ (status = 0%Z →
         ∃ w1 w2 builder,
           docker_version w = (true, w1)
           ∧ path_exists "pack.py" w1 = true
           ∧ init path_mkdir path_resolve timestamp
               (arg_image args) (arg_mount_dir args) (arg_logs_dir args) w1
             = Some (builder, w2)
           ∧ ∃ wa wb wc,
               os_system (docker_build_command environ builder) environ wa = (0%Z, wb)
               ∧ os_system (docker_run_command environ builder) environ wb = (0%Z, wc))
  end.
Proof.
  unfold main. destruct (parse_args argv) as [code|args]; [done|].
  destruct (docker_version w) as [[] w1]; cbn [negb]; [|by split; [right|]].
  destruct (path_exists "pack.py" w1) eqn:Hfile; cbn [negb]; [|by split; [right|]].
  destruct (init _ _ _ _ _ _ w1) as [[builder w2]|] eqn:Hinit; [|by split; [right|]].
  destruct (build_and_run _ _ _ _ _ _ _ _ _ _ _ _ w2) as [[e|[]] w3] eqn:Hrun;
    try (by split; [right|]).
  split; [by left|]. intros _. exists w1, w2, builder. split_and!; try done.
  apply build_and_run_true in Hrun as [w0 Htry].
  apply build_and_run_try_true in Htry as (wa & wb & wc & wd & Hbuild & Hcontainer & _).
  eauto.
Qed.

(** A world for running the script: every library call succeeds, a command
    fails when [fails] says so, and the files written are recorded. *)
Module Host.

Definition World : Type := list (string * string).

Definition os_system (fails : string -> bool) (cmd : string) (_ : gmap string string)
    (w : World) : Z * World :=
  (if fails cmd then 1%Z else 0%Z, w ++ [("$", cmd)]).
Definition path_exists (present : string -> bool) (path : string) (_ : World) : bool :=
  present path.
Definition path_mkdir (_ : bool) (_ : string) (w : World) : option World := Some w.
Definition shutil_rmtree (_ : string) (w : World) : option World := Some w.
Definition shutil_copy (_ _ : string) (w : World) : option World := Some w.
Definition write_file (path content : string) (w : World) : option World :=
  Some (w ++ [(path, content)]).
Definition path_join (a b : string) : string := a +:+ "/" +:+ b.
Definition path_resolve (p : string) : string := "/host/" +:+ p.
Definition docker_version (w : World) : bool * World := (true, w).
Definition write_summary (b : ContainerBuilder) (w : World) : option World :=
  Some (w ++ [(path_join (mount_dir b) "build_summary.txt", "summary")]).

Definition nothing (_ : string) : bool := false.
Definition everything (_ : string) : bool := true.

Definition args : Args :=
  {| arg_image := "ubuntu:20.04"; arg_mount_dir := ".output";
     arg_logs_dir := ".output_logs"; arg_keep_image := false |}.

Definition builder : ContainerBuilder :=
  {| image := "ubuntu:20.04";
     mount_dir := "/host/.output";
     logs_dir := "/host/.output_logs";
     container_workspace := "/workspace";
     container_output := "/host/output";
     container_logs := "/host/output_logs";
     container_name := "kvcache-builder-20250101-000000";
     build_image_name := "kvcache-cxx-builder";
     build_dir := ".img_build" |}.

Definition build_and_run (env : gmap string string) (fails present : string -> bool) :=
  build_and_run World env (os_system fails) (path_exists present) path_mkdir shutil_rmtree
    shutil_copy write_file path_join write_summary.

(** The runs of the examples take no arguments, or ask for the help. *)
Definition parse_args (argv : list string) : Z + Args :=
  match argv with
  | [] => inr args
  | ["-h"] | ["--help"] => inl 0%Z
  | _ => inl 2%Z
  end.

Definition main (env : gmap string string) (fails present : string -> bool) :=
  main env (os_system fails) (path_exists present) path_mkdir shutil_rmtree
    shutil_copy write_file path_join path_resolve docker_version write_summary parse_args.

End Host.

Lemma build_and_run_success_witness :
  ∃ w1 w2 w3 w4 : Host.World,
    Host.os_system Host.nothing (docker_build_command ∅ Host.builder) ∅ w1 = (0%Z, w2)
    ∧ Host.os_system Host.nothing (docker_run_command ∅ Host.builder) ∅ w2 = (0%Z, w3)
    ∧ Host.write_summary Host.builder w3 = Some w4.
Proof.
  pose (run := Host.build_and_run ∅ Host.nothing Host.everything Host.builder true []).
  apply (build_and_run_success Host.World ∅ (Host.os_system Host.nothing)
           (Host.path_exists Host.everything) Host.path_mkdir Host.shutil_rmtree
           Host.shutil_copy Host.write_file Host.path_join Host.write_summary
           Host.builder true [] (snd run)).
  transitivity (fst run, snd run); [apply surjective_pairing|].
  apply (f_equal (λ r, (r, snd run))). vm_compute. reflexivity.
Defined.

Lemma get_proxy_env_vars_empty_witness :
  get_proxy_env_vars (<["CC" := "gcc"]> ∅) = EmptyString.
Proof.
  apply get_proxy_env_vars_empty. intros var Hin.
  apply lookup_insert_None. split; [apply lookup_empty|].
  intros <-. revert Hin. apply (bool_decide_unpack _). vm_compute. reflexivity.
Defined.

(** A failing [docker build] makes [build_and_run] return [False] and the
    script end with status 1; the container is never started. *)
Example build_and_run_build_fails :
  let fails cmd := PyStr.contains "docker build" cmd in
  let run := Host.build_and_run ∅ fails Host.everything Host.builder false [] in
  fst run = inr false
  ∧ Forall (λ entry, PyStr.contains "docker run" entry.2 = false) (snd run)
  ∧ Host.main ∅ fails Host.everything "20250101-000000" [] [] = 1%Z.
Proof. vm_compute. split_and!; [done| |done]. repeat constructor. Qed.

End Container.
